(** * us: metadata store (package renterutil) and sector download (package proto)

    A shallow embedding of the two Go files
    - [renterutil]: [MetaDB] with its in-memory backend [EphemeralMetaDB]
      and its Bolt backend [BoltMetaDB];
    - [proto]: [Downloader] with [PartialSector] / [partialSector] and
      [sectorBuffer.UnmarshalSia].

    Conventions.
    - Go's fixed-width integers are [Z] with the wrap-around written out
      ([u8], [u32], [u64] for the unsigned widths, [int_wrap] for [int]).
    - A Go call either returns or panics: [outcome].  A returned Go [error]
      is an [option]: [None] is [nil].
    - The mutex of [EphemeralMetaDB] only serialises callers; every method
      is modelled as one atomic state transformer. *)

From Stdlib Require Import ZArith Lia List.
From Stdlib.Strings Require Import Byte.
From stdpp Require Import gmap strings list fin_maps sorting.

Local Open Scope Z_scope.

(** ** Go basics *)

Inductive outcome (A : Type) : Type :=
| Returned (a : A)
| Panicked.
Arguments Returned {A} a.
Arguments Panicked {A}.

Definition obind {A B} (o : outcome A) (f : A -> outcome B) : outcome B :=
  match o with
  | Returned a => f a
  | Panicked => Panicked
  end.

Notation "x <-! o ; k" := (obind o (fun x => k))
  (at level 100, o at next level, right associativity, only parsing).

Definition u8 (z : Z) : Z := z mod 2 ^ 8.
Definition u32 (z : Z) : Z := z mod 2 ^ 32.
Definition u64 (z : Z) : Z := z mod 2 ^ 64.

(** Go's [int] on the 64-bit targets: two's complement wrap-around. *)
Definition int_wrap (z : Z) : Z := (z + 2 ^ 63) mod 2 ^ 64 - 2 ^ 63.

(** [l[i]] for a slice [l]: an index outside [0, len l) panics. *)
Definition index {A} (l : list A) (i : Z) : outcome A :=
  if (0 <=? i) && (i <? Z.of_nat (length l)) then
    match l !! Z.to_nat i with
    | Some a => Returned a
    | None => Panicked
    end
  else Panicked.

(** The most bytes the Go runtime hands out in one allocation on the
    64-bit targets: [1 << 48], the size of the heap address space. *)
Definition maxAlloc : Z := 2 ^ 48.

(** [make([]uint64, n)]: the runtime panics ("makeslice: len out of
    range") on a negative length and on one whose [8 * n] bytes exceed
    [maxAlloc].  Within the limit the memory is taken to be there: a
    process that runs out of memory dies, it neither returns nor
    panics. *)
Definition make_uint64s (n : Z) : outcome (list Z) :=
  if (n <? 0) || (8 * n >? maxAlloc) then Panicked
  else Returned (replicate (Z.to_nat n) 0).

Definition Hash := list byte.

(** ** Package renterutil *)

Module Renterutil.

(** [ErrKeyNotFound] is the package's own error; [ErrKeyRequired] and
    [ErrKeyTooLarge] are Bolt's answers to a bad key, [ErrDecode] is the
    failure of [encoding.Unmarshal] on the empty value of a missing key. *)
Inductive error : Type :=
| ErrKeyNotFound
| ErrKeyRequired
| ErrKeyTooLarge
| ErrDecode.

Record DBBlob := mkBlob {
  Key : string;
  Chunks : list Z;
  Seed : list byte
}.

Record DBChunk := mkChunk {
  ID : Z;
  Shards : list Z;
  MinShards : Z;
  Len : Z
}.

Record DBShard := mkShard {
  HostKey : string;
  SectorRoot : Hash;
  Offset : Z;
  Nonce : list byte
}.

Definition set_Shards (c : DBChunk) (ss : list Z) : DBChunk :=
  {| ID := ID c; Shards := ss; MinShards := MinShards c; Len := Len c |}.

(** *** EphemeralMetaDB *)

Record EphemeralMetaDB := mkEph {
  shards : list DBShard;
  chunks : list DBChunk;
  blobs : gmap string DBBlob;
  refs : gmap Z Z;
  meta : gmap string string
}.

Definition NewEphemeralMetaDB : EphemeralMetaDB :=
  {| shards := []; chunks := []; blobs := ∅; refs := ∅; meta := ∅ |}.

(** Reading a Go map at a missing key gives the zero value. *)
Definition refcount (r : gmap Z Z) (sid : Z) : Z := default 0 (r !! sid).

(** [refs[sid]--] and [refs[sid]++]: both create the entry. *)
Definition ref_dec (r : gmap Z Z) (sid : Z) : gmap Z Z :=
  <[sid := int_wrap (refcount r sid - 1)]> r.
Definition ref_inc (r : gmap Z Z) (sid : Z) : gmap Z Z :=
  <[sid := int_wrap (refcount r sid + 1)]> r.

Definition set_shards db v :=
  {| shards := v; chunks := chunks db; blobs := blobs db; refs := refs db; meta := meta db |}.
Definition set_chunks db v :=
  {| shards := shards db; chunks := v; blobs := blobs db; refs := refs db; meta := meta db |}.
Definition set_blobs db v :=
  {| shards := shards db; chunks := chunks db; blobs := v; refs := refs db; meta := meta db |}.
Definition set_refs db v :=
  {| shards := shards db; chunks := chunks db; blobs := blobs db; refs := v; meta := meta db |}.

Module Ephemeral.

Definition AddShard (s : DBShard) (db : EphemeralMetaDB)
  : outcome (EphemeralMetaDB * (Z * option error)) :=
  let db' := set_shards db (shards db ++ [s]) in
  Returned (db', (u64 (Z.of_nat (length (shards db'))), None)).

Definition Shard (id : Z) (db : EphemeralMetaDB)
  : outcome (DBShard * option error) :=
  s <-! index (shards db) (u64 (id - 1));
  Returned (s, None).

Definition AddChunk (m n : Z) (length : Z) (db : EphemeralMetaDB)
  : outcome (EphemeralMetaDB * (DBChunk * option error)) :=
  ss <-! make_uint64s n;
  let c := {| ID := u64 (u64 (Z.of_nat (List.length (chunks db))) + 1);
              Shards := ss;
              MinShards := u8 m;
              Len := length |} in
  Returned (set_chunks db (chunks db ++ [c]), (c, None)).

Definition SetChunkShard (id : Z) (i : Z) (s : Z) (db : EphemeralMetaDB)
  : outcome (EphemeralMetaDB * option error) :=
  let ci := u64 (id - 1) in
  c <-! index (chunks db) ci;
  old <-! index (Shards c) i;
  let r1 := ref_dec (refs db) old in
  let c' := set_Shards c (<[Z.to_nat i := s]> (Shards c)) in
  let cs := <[Z.to_nat ci := c']> (chunks db) in
  let r2 := ref_inc r1 s in
  Returned (set_refs (set_chunks db cs) r2, None).

Definition Chunk (id : Z) (db : EphemeralMetaDB)
  : outcome (DBChunk * option error) :=
  if id =? 0 then Panicked
  else c <-! index (chunks db) (u64 (id - 1)); Returned (c, None).

Definition AddBlob (b : DBBlob) (db : EphemeralMetaDB)
  : outcome (EphemeralMetaDB * option error) :=
  Returned (set_blobs db (<[Key b := b]> (blobs db)), None).

Definition Blob (key : string) (db : EphemeralMetaDB)
  : outcome (DBBlob * option error) :=
  match blobs db !! key with
  | None => Returned ({| Key := ""; Chunks := []; Seed := [] |}, Some ErrKeyNotFound)
  | Some b => Returned (b, None)
  end.

(** The inner loop of [DeleteBlob]: [refs[sid]--] for every slot. *)
Definition release_slots (ss : list Z) (r : gmap Z Z) : gmap Z Z :=
  foldl ref_dec r ss.

(** The outer loop: every chunk id of the blob, in order; an id that is
    not a position of [db.chunks] panics after the earlier ids were
    processed. *)
Fixpoint release_chunks (cs : list DBChunk) (cids : list Z) (r : gmap Z Z)
  : outcome (gmap Z Z) :=
  match cids with
  | [] => Returned r
  | cid :: rest =>
      c <-! index cs (u64 (cid - 1));
      release_chunks cs rest (release_slots (Shards c) r)
  end.

Definition DeleteBlob (key : string) (db : EphemeralMetaDB)
  : outcome (EphemeralMetaDB * option error) :=
  match blobs db !! key with
  | None => Returned (db, None)
  | Some b =>
      r <-! release_chunks (chunks db) (Chunks b) (refs db);
      Returned (set_blobs (set_refs db r) (delete key (blobs db)), None)
  end.

(** One iteration of the loop of [UnreferencedSectors]. *)
Definition collect (ss : list DBShard) (m : outcome (gmap string (list Hash)))
    (e : Z * Z) : outcome (gmap string (list Hash)) :=
  m <-! m;
  if snd e =? 0 then
    s <-! index ss (u64 (fst e - 1));
    Returned (<[HostKey s := default [] (m !! HostKey s) ++ [SectorRoot s]]> m)
  else Returned m.

(** Go ranges over [db.refs] in an unspecified order; the model visits the
    entries in the order of [map_to_list].  Only the order of the roots
    inside one host's slice depends on it. *)
Definition UnreferencedSectors (db : EphemeralMetaDB)
  : outcome (gmap string (list Hash) * option error) :=
  m <-! foldl (collect (shards db)) (Returned ∅) (map_to_list (refs db));
  Returned (m, None).

(** The loop of [AddChunkAndShards]: every shard goes through [AddShard]
    and its id fills the next slot.  The elements of [ss] are pointers in
    the source; they are taken here as the shards they point to. *)
Fixpoint add_shards (ss : list DBShard) (db : EphemeralMetaDB)
  : outcome (EphemeralMetaDB * (list Z * option error)) :=
  match ss with
  | [] => Returned (db, ([], None))
  | s :: rest =>
      r <-! AddShard s db;
      match snd (snd r) with
      | Some e => Returned (fst r, ([], Some e))
      | None =>
          r' <-! add_shards rest (fst r);
          Returned (fst r', (fst (snd r) :: fst (snd r'), snd (snd r')))
      end
  end.

Definition AddChunkAndShards (m : Z) (length : Z) (ss : list DBShard)
    (db : EphemeralMetaDB)
  : outcome (EphemeralMetaDB * (DBChunk * option error)) :=
  r <-! add_shards ss db;
  match snd (snd r) with
  | Some e =>
      Returned (fst r, ({| ID := 0; Shards := []; MinShards := 0; Len := 0 |}, Some e))
  | None =>
      let db := fst r in
      let c := {| ID := u64 (u64 (Z.of_nat (List.length (chunks db))) + 1);
                  Shards := fst (snd r);
                  MinShards := u8 m;
                  Len := length |} in
      Returned (set_chunks db (chunks db ++ [c]), (c, None))
  end.

(** The order of Go strings: byte by byte, bytes as unsigned. *)
Definition string_le (a b : string) : Prop := String.leb a b = true.

#[global] Instance string_le_dec : RelDecision string_le.
Proof. intros a b. unfold string_le. apply _. Defined.

(** [sort.Strings]: ascending in that order. *)
Definition sort_Strings (keys : list string) : list string :=
  merge_sort string_le keys.

(** The calls of the visitor in [ForEachBlob]: in order, up to the first
    error.  The visitor works on a state of its own and may panic. *)
Fixpoint visit {S} (fn : string -> S -> outcome (S * option error))
    (keys : list string) (s : S) : outcome (S * option error) :=
  match keys with
  | [] => Returned (s, None)
  | k :: rest =>
      r <-! fn k s;
      match snd r with
      | Some e => Returned r
      | None => visit fn rest (fst r)
      end
  end.

(** The keys are collected under the lock, in the order Go ranges over
    the map (here that of [map_to_list]), then sorted and visited. *)
Definition ForEachBlob {S} (fn : string -> S -> outcome (S * option error))
    (db : EphemeralMetaDB) (s : S) : outcome (S * option error) :=
  visit fn (sort_Strings ((map_to_list (blobs db)).*1)) s.

Definition set_meta db v :=
  {| shards := shards db; chunks := chunks db; blobs := blobs db;
     refs := refs db; meta := v |}.

Definition AddMetadata (key val : string) (db : EphemeralMetaDB)
  : outcome (EphemeralMetaDB * option error) :=
  Returned (set_meta db (<[key := val]> (meta db)), None).

(** The returned slice is [None] when it is nil. *)
Definition Metadata (key : string) (db : EphemeralMetaDB)
  : outcome (option string * option error) :=
  match meta db !! key with
  | None => Returned (None, Some ErrKeyNotFound)
  | Some md => Returned (Some md, None)
  end.

End Ephemeral.

(** *** BoltMetaDB

    Bolt is an external library.  A bucket is taken as what Bolt documents
    it to be: a finite map from byte-string keys to values together with a
    sequence counter.  [Put] replaces the value of an existing key and
    rejects an empty or over-long key, [Delete] of a missing key does
    nothing, [NextSequence] increments the counter and returns it.  Values
    are kept decoded: [encoding.Marshal] / [encoding.Unmarshal] are taken
    to round-trip, and reading a missing key fails to decode.  The
    database is open and healthy: [Update] runs its closure and commits,
    or rolls back when the closure returns an error or panics. *)

Record Bucket (V : Type) := mkBucket {
  entries : gmap string V;
  sequence : Z
}.
Arguments mkBucket {V} _ _.
Arguments entries {V} _.
Arguments sequence {V} _.

Definition MaxKeySize : Z := 32768.

Definition Put {V} (k : string) (v : V) (b : Bucket V) : Bucket V * option error :=
  if Z.of_nat (String.length k) =? 0 then (b, Some ErrKeyRequired)
  else if Z.of_nat (String.length k) >? MaxKeySize then (b, Some ErrKeyTooLarge)
  else (mkBucket (<[k := v]> (entries b)) (sequence b), None).

Definition Get {V} (k : string) (b : Bucket V) : option V := entries b !! k.

Definition Delete {V} (k : string) (b : Bucket V) : Bucket V * option error :=
  (mkBucket (delete k (entries b)) (sequence b), None).

Definition NextSequence {V} (b : Bucket V) : Bucket V * (Z * option error) :=
  let id := u64 (sequence b + 1) in
  (mkBucket (entries b) id, (id, None)).

(** [binary.LittleEndian.PutUint64] into a fresh 8-byte key. *)
Fixpoint le_bytes (n : nat) (z : Z) : string :=
  match n with
  | O => EmptyString
  | S n' => String (Ascii.ascii_of_N (Z.to_N (z mod 256))) (le_bytes n' (z / 256))
  end.
Definition PutUint64 (id : Z) : string := le_bytes 8 (u64 id).

Record BoltMetaDB := mkBolt {
  bucketBlobs : Bucket (list Z * list byte);
  bucketChunks : Bucket DBChunk;
  bucketShards : Bucket DBShard;
  bucketMeta : Bucket string
}.

(** The four buckets created by [NewBoltMetaDB] in a fresh file. *)
Definition NewBoltMetaDB : BoltMetaDB :=
  {| bucketBlobs := mkBucket ∅ 0; bucketChunks := mkBucket ∅ 0;
     bucketShards := mkBucket ∅ 0; bucketMeta := mkBucket ∅ 0 |}.

Definition set_bucketBlobs db v :=
  {| bucketBlobs := v; bucketChunks := bucketChunks db;
     bucketShards := bucketShards db; bucketMeta := bucketMeta db |}.
Definition set_bucketChunks db v :=
  {| bucketBlobs := bucketBlobs db; bucketChunks := v;
     bucketShards := bucketShards db; bucketMeta := bucketMeta db |}.
Definition set_bucketShards db v :=
  {| bucketBlobs := bucketBlobs db; bucketChunks := bucketChunks db;
     bucketShards := v; bucketMeta := bucketMeta db |}.

Module Bolt.

(** [db.bdb.Update(fn)]: the closure's writes are kept only when it
    returns [nil]. *)
Definition Update {A} (fn : BoltMetaDB -> outcome (BoltMetaDB * (A * option error)))
    (db : BoltMetaDB) : outcome (BoltMetaDB * (A * option error)) :=
  r <-! fn db;
  match snd (snd r) with
  | None => Returned r
  | Some e => Returned (db, snd r)
  end.

Definition addShard (s : DBShard) (tx : BoltMetaDB)
  : outcome (BoltMetaDB * (Z * option error)) :=
  let '(b1, (id, err)) := NextSequence (bucketShards tx) in
  match err with
  | Some e => Returned (tx, (0, Some e))
  | None =>
      let '(b2, err) := Put (PutUint64 id) s b1 in
      match err with
      | Some e => Returned (set_bucketShards tx b2, (0, Some e))
      | None => Returned (set_bucketShards tx b2, (id, None))
      end
  end.

Definition AddShard (s : DBShard) (db : BoltMetaDB)
  : outcome (BoltMetaDB * (Z * option error)) :=
  Update (addShard s) db.

Definition zeroShard : DBShard :=
  {| HostKey := ""; SectorRoot := []; Offset := 0; Nonce := [] |}.
Definition zeroChunk : DBChunk :=
  {| ID := 0; Shards := []; MinShards := 0; Len := 0 |}.

Definition Shard (id : Z) (db : BoltMetaDB) : outcome (DBShard * option error) :=
  match Get (PutUint64 id) (bucketShards db) with
  | Some s => Returned (s, None)
  | None => Returned (zeroShard, Some ErrDecode)
  end.

Definition addChunk (m : Z) (length : Z) (ss : list Z) (tx : BoltMetaDB)
  : outcome (BoltMetaDB * (DBChunk * option error)) :=
  let '(b1, (id, err)) := NextSequence (bucketChunks tx) in
  match err with
  | Some e => Returned (tx, (zeroChunk, Some e))
  | None =>
      let c := {| ID := id; Shards := ss; MinShards := u8 m; Len := length |} in
      let '(b2, err) := Put (PutUint64 id) c b1 in
      match err with
      | Some e => Returned (set_bucketChunks tx b2, (zeroChunk, Some e))
      | None => Returned (set_bucketChunks tx b2, (c, None))
      end
  end.

Definition AddChunk (m n : Z) (length : Z) (db : BoltMetaDB)
  : outcome (BoltMetaDB * (DBChunk * option error)) :=
  Update (fun tx => ss <-! make_uint64s n; addChunk m length ss tx) db.

Definition SetChunkShard (id : Z) (i : Z) (s : Z) (db : BoltMetaDB)
  : outcome (BoltMetaDB * option error) :=
  r <-! Update (fun tx =>
    let key := PutUint64 id in
    match Get key (bucketChunks tx) with
    | None => Returned (tx, (tt, Some ErrDecode))
    | Some c =>
        _ <-! index (Shards c) i;
        let c' := set_Shards c (<[Z.to_nat i := s]> (Shards c)) in
        let '(b, err) := Put key c' (bucketChunks tx) in
        Returned (set_bucketChunks tx b, (tt, err))
    end) db;
  Returned (fst r, snd (snd r)).

Definition Chunk (id : Z) (db : BoltMetaDB) : outcome (DBChunk * option error) :=
  match Get (PutUint64 id) (bucketChunks db) with
  | Some c => Returned (c, None)
  | None => Returned (zeroChunk, Some ErrDecode)
  end.

Definition AddBlob (b : DBBlob) (db : BoltMetaDB) : outcome (BoltMetaDB * option error) :=
  r <-! Update (fun tx =>
    let '(bk, err) := Put (Key b) (Chunks b, Seed b) (bucketBlobs tx) in
    Returned (set_bucketBlobs tx bk, (tt, err))) db;
  Returned (fst r, snd (snd r)).

Definition Blob (key : string) (db : BoltMetaDB) : outcome (DBBlob * option error) :=
  match Get key (bucketBlobs db) with
  | None => Returned ({| Key := key; Chunks := []; Seed := [] |}, Some ErrKeyNotFound)
  | Some (cs, seed) => Returned ({| Key := key; Chunks := cs; Seed := seed |}, None)
  end.

(** The closure is [tx.Bucket(bucketBlobs).Delete(key)] and nothing else:
    the source marks reference counts as still to be done here. *)
Definition DeleteBlob (key : string) (db : BoltMetaDB) : outcome (BoltMetaDB * option error) :=
  r <-! Update (fun tx =>
    let '(bk, err) := Delete key (bucketBlobs tx) in
    Returned (set_bucketBlobs tx bk, (tt, err))) db;
  Returned (fst r, snd (snd r)).

(** [return nil, nil]: the nil map reads as the empty map. *)
Definition UnreferencedSectors (db : BoltMetaDB)
  : outcome (gmap string (list Hash) * option error) :=
  Returned (∅, None).

Definition set_bucketMeta db v :=
  {| bucketBlobs := bucketBlobs db; bucketChunks := bucketChunks db;
     bucketShards := bucketShards db; bucketMeta := v |}.

(** The loop of [AddChunkAndShards] inside the transaction.  When
    [addShard] fails the closure returns [nil]: [stop] tells that case
    from the end of the loop. *)
Fixpoint add_shards (ss : list DBShard) (tx : BoltMetaDB)
  : outcome (BoltMetaDB * (list Z * bool)) :=
  match ss with
  | [] => Returned (tx, ([], false))
  | s :: rest =>
      r <-! addShard s tx;
      match snd (snd r) with
      | Some e => Returned (fst r, ([], true))
      | None =>
          r' <-! add_shards rest (fst r);
          Returned (fst r', (fst (snd r) :: fst (snd r'), snd (snd r')))
      end
  end.

Definition AddChunkAndShards (m : Z) (length : Z) (ss : list DBShard)
    (db : BoltMetaDB) : outcome (BoltMetaDB * (DBChunk * option error)) :=
  Update (fun tx =>
    r <-! add_shards ss tx;
    if snd (snd r) then Returned (fst r, (zeroChunk, None))
    else addChunk m length (fst (snd r)) (fst r)) db.

(** [Bucket.ForEach] walks the keys of the bucket in byte order. *)
Definition ForEachBlob {S} (fn : string -> S -> outcome (S * option error))
    (db : BoltMetaDB) (s : S) : outcome (S * option error) :=
  Ephemeral.visit fn
    (Ephemeral.sort_Strings ((map_to_list (entries (bucketBlobs db))).*1)) s.

Definition AddMetadata (key val : string) (db : BoltMetaDB)
  : outcome (BoltMetaDB * option error) :=
  r <-! Update (fun tx =>
    let '(bk, err) := Put key val (bucketMeta tx) in
    Returned (set_bucketMeta tx bk, (tt, err))) db;
  Returned (fst r, snd (snd r)).

(** [val = append(val, Get(key)...)] from a nil [val]: the result is
    still nil when there is nothing to append, and a nil result is
    reported as a missing key. *)
Definition Metadata (key : string) (db : BoltMetaDB)
  : outcome (option string * option error) :=
  let got := default "" (Get key (bucketMeta db)) in
  let val := if Z.of_nat (String.length got) =? 0 then None else Some got in
  match val with
  | None => Returned (None, Some ErrKeyNotFound)
  | Some v => Returned (Some v, None)
  end.

End Bolt.

(** *** Recounting references from the chunk graph

    These are the quantities the reference counts are compared with; they
    are computed from [chunks] and [blobs] alone. *)

Fixpoint occurrences (s : Z) (l : list Z) : Z :=
  match l with
  | [] => 0
  | x :: rest => (if x =? s then 1 else 0) + occurrences s rest
  end.


(** Slots that hold [s] in the chunks listed by a blob, one term per entry
    of the list. *)
Fixpoint blob_refs (cs : list DBChunk) (cids : list Z) (s : Z) : Z :=
  match cids with
  | [] => 0
  | cid :: rest =>
      match index cs (u64 (cid - 1)) with
      | Returned c => occurrences s (Shards c)
      | Panicked => 0
      end + blob_refs cs rest s
  end.

(** Slots that hold [s] in the chunks of the live blobs. *)
Definition live_refs (db : EphemeralMetaDB) (s : Z) : Z :=
  map_fold (fun _ b acc => acc + blob_refs (chunks db) (Chunks b) s) 0 (blobs db).

(** Sequences of mutating calls on the in-memory store. *)
Inductive op : Type :=
| OpAddShard (s : DBShard)
| OpAddChunk (m n length : Z)
| OpSetChunkShard (id i s : Z)
| OpAddBlob (b : DBBlob)
| OpDeleteBlob (key : string).

Definition step (o : op) (db : EphemeralMetaDB) : outcome EphemeralMetaDB :=
  match o with
  | OpAddShard s => r <-! Ephemeral.AddShard s db; Returned (fst r)
  | OpAddChunk m n length => r <-! Ephemeral.AddChunk m n length db; Returned (fst r)
  | OpSetChunkShard id i s => r <-! Ephemeral.SetChunkShard id i s db; Returned (fst r)
  | OpAddBlob b => r <-! Ephemeral.AddBlob b db; Returned (fst r)
  | OpDeleteBlob key => r <-! Ephemeral.DeleteBlob key db; Returned (fst r)
  end.

Fixpoint run (ops : list op) (db : EphemeralMetaDB) : outcome EphemeralMetaDB :=
  match ops with
  | [] => Returned db
  | o :: rest => db' <-! step o db; run rest db'
  end.



(** *** Histories of a store

    Every mutating method of [MetaDB], and what a sequence of them does to
    either backend. *)

Inductive mutation : Type :=
| MAddShard (s : DBShard)
| MAddChunk (m n length : Z)
| MSetChunkShard (id i s : Z)
| MAddChunkAndShards (m length : Z) (ss : list DBShard)
| MAddBlob (b : DBBlob)
| MDeleteBlob (key : string)
| MAddMetadata (key val : string).

Definition mutate (mu : mutation) (db : EphemeralMetaDB) : outcome EphemeralMetaDB :=
  match mu with
  | MAddShard s => r <-! Ephemeral.AddShard s db; Returned (fst r)
  | MAddChunk m n length => r <-! Ephemeral.AddChunk m n length db; Returned (fst r)
  | MSetChunkShard id i s => r <-! Ephemeral.SetChunkShard id i s db; Returned (fst r)
  | MAddChunkAndShards m length ss =>
      r <-! Ephemeral.AddChunkAndShards m length ss db; Returned (fst r)
  | MAddBlob b => r <-! Ephemeral.AddBlob b db; Returned (fst r)
  | MDeleteBlob key => r <-! Ephemeral.DeleteBlob key db; Returned (fst r)
  | MAddMetadata key val => r <-! Ephemeral.AddMetadata key val db; Returned (fst r)
  end.

Fixpoint history (mus : list mutation) (db : EphemeralMetaDB)
  : outcome EphemeralMetaDB :=
  match mus with
  | [] => Returned db
  | mu :: rest => db' <-! mutate mu db; history rest db'
  end.

Definition bolt_mutate (mu : mutation) (db : BoltMetaDB) : outcome BoltMetaDB :=
  match mu with
  | MAddShard s => r <-! Bolt.AddShard s db; Returned (fst r)
  | MAddChunk m n length => r <-! Bolt.AddChunk m n length db; Returned (fst r)
  | MSetChunkShard id i s => r <-! Bolt.SetChunkShard id i s db; Returned (fst r)
  | MAddChunkAndShards m length ss =>
      r <-! Bolt.AddChunkAndShards m length ss db; Returned (fst r)
  | MAddBlob b => r <-! Bolt.AddBlob b db; Returned (fst r)
  | MDeleteBlob key => r <-! Bolt.DeleteBlob key db; Returned (fst r)
  | MAddMetadata key val => r <-! Bolt.AddMetadata key val db; Returned (fst r)
  end.

Fixpoint bolt_history (mus : list mutation) (db : BoltMetaDB)
  : outcome BoltMetaDB :=
  match mus with
  | [] => Returned db
  | mu :: rest => db' <-! bolt_mutate mu db; bolt_history rest db'
  end.

(** The visitor that writes down the keys it is shown. *)
Definition note_key (k : string) (seen : list string)
  : outcome (list string * option error) :=
  Returned (seen ++ [k], None).

(** Reading an 8-byte little-endian key back. *)
Fixpoint le_value (key : string) : Z :=
  match key with
  | EmptyString => 0
  | String a rest => Z.of_N (Ascii.N_of_ascii a) + 256 * le_value rest
  end.

(** What stays of a chunk when its slots are rewritten, and of a store
    when it is mutated. *)
Definition same_shape (c c' : DBChunk) : Prop :=
  ID c' = ID c /\ MinShards c' = MinShards c /\ Len c' = Len c /\
  List.length (Shards c') = List.length (Shards c).

Definition extends (db db' : EphemeralMetaDB) : Prop :=
  shards db `prefix_of` shards db' /\
  forall i c, chunks db !! i = Some c ->
    exists c', chunks db' !! i = Some c' /\ same_shape c c'.

(** The ids a history asks of the two sequences of a Bolt store. *)
Definition shard_ids (mu : mutation) : Z :=
  match mu with
  | MAddShard _ => 1
  | MAddChunkAndShards _ _ ss => Z.of_nat (List.length ss)
  | _ => 0
  end.

Definition chunk_ids (mu : mutation) : Z :=
  match mu with
  | MAddChunk _ _ _ => 1
  | MAddChunkAndShards _ _ _ => 1
  | _ => 0
  end.

Definition total (f : mutation -> Z) (mus : list mutation) : Z :=
  foldr (fun mu acc => f mu + acc) 0 mus.

(** A bucket whose keys are the ids handed out so far: the numbers from 1
    to its sequence. *)
Definition numbered {V} (b : Bucket V) : Prop :=
  0 <= sequence b /\
  forall k, is_Some (entries b !! k) <->
            exists id, 1 <= id <= sequence b /\ k = PutUint64 id.

(** Both id buckets of a Bolt store are numbered, with at most [ks] shard
    ids and [kc] chunk ids handed out. *)
Definition bolt_numbered (d : BoltMetaDB) (ks kc : Z) : Prop :=
  numbered (bucketShards d) /\ sequence (bucketShards d) <= ks /\
  numbered (bucketChunks d) /\ sequence (bucketChunks d) <= kc.

(** *** Sample stores *)

Definition shardA : DBShard :=
  {| HostKey := "host-a"; SectorRoot := [x01]; Offset := 0; Nonce := [] |}.

Definition blobK : DBBlob := {| Key := "k"; Chunks := [1]; Seed := [] |}.

(** A store with one chunk of one empty slot and no blob. *)
Definition one_chunk : EphemeralMetaDB :=
  {| shards := [];
     chunks := [ {| ID := 1; Shards := [0]; MinShards := 1; Len := 5 |} ];
     blobs := ∅; refs := ∅; meta := ∅ |}.

(** The upload of one blob of one chunk of one shard, on either backend. *)
Definition upload_ops : list op :=
  [OpAddChunk 1 1 5; OpAddShard shardA; OpSetChunkShard 1 0 1; OpAddBlob blobK].

Definition bolt_uploaded : outcome BoltMetaDB :=
  r <-! Bolt.AddChunk 1 1 5 NewBoltMetaDB;
  r <-! Bolt.AddShard shardA (fst r);
  r <-! Bolt.SetChunkShard 1 0 1 (fst r);
  r <-! Bolt.AddBlob blobK (fst r);
  Returned (fst r).

End Renterutil.

(** ** Package proto *)

Module Proto.

(** Error values.  [ErrStopResponse] is [modules.ErrStopResponse];
    [ErrNew] is [errors.New] (also used for an error produced by a callee
    outside this file), [ErrWrap] is [errors.Wrap];  [ErrDisconnect] is an
    error of the transport: the connection is closed, reset or broken. *)
Inductive error : Type :=
| ErrStopResponse
| ErrDisconnect
| ErrNew (msg : string)
| ErrWrap (cause : error) (msg : string).

(** [errors.Cause]. *)
Fixpoint Cause (e : error) : error :=
  match e with
  | ErrWrap c _ => Cause c
  | _ => e
  end.

(** Modelled from the spec: [isHostDisconnect] is declared in a file of
    package proto that is not part of the excerpt; it recognises "a
    transport-level disconnect signal (as opposed to a protocol-level
    rejection)". *)
Definition isHostDisconnect (err : option error) : bool :=
  match err with
  | Some e => match Cause e with ErrDisconnect => true | _ => false end
  | None => false
  end.

Record ScannedHost := mkHost {
  NetAddress : string;
  PublicKey : string;
  DownloadBandwidthPrice : Z
}.

(** Modelled from the spec: the contract revision carries the two payouts
    the download protocol moves coins between, and its other terms. *)
Record FileContractRevision := mkRev {
  NewRevisionNumber : Z;
  RenterOutput : Z;
  HostOutput : Z
}.

Definition TransactionSignature := list byte.

Record Transaction := mkTxn {
  FileContractRevisions : list FileContractRevision;
  TransactionSignatures : list TransactionSignature
}.

Record ContractTransaction := mkCTxn {
  CurrentRevision : FileContractRevision;
  RenterKey : list byte
}.

(** Modelled from the spec: [RenterFunds] is "the contract's remaining
    renter-side funds". *)
Definition RenterFunds (t : ContractTransaction) : Z :=
  RenterOutput (CurrentRevision t).

(** Modelled from the spec: [newDownloadRevision] builds "a proposed
    contract revision that pays the host exactly" the given amount "more
    than the prior revision and leaves all other terms unchanged". *)
Definition newDownloadRevision (rev : FileContractRevision) (downloadCost : Z)
  : FileContractRevision :=
  {| NewRevisionNumber := NewRevisionNumber rev;
     RenterOutput := RenterOutput rev - downloadCost;
     HostOutput := HostOutput rev + downloadCost |}.

Record DownloadAction := mkAction {
  MerkleRoot : Hash;
  Offset : Z;
  Length : Z
}.

Inductive duration : Type := NegotiateDownloadTime | Hour.
Inductive rpcID : Type := RPCDownload.

(** A [sectorBuffer] is a slice: [arr] is its backing array (so
    [cap = length arr]) and [len] its length; the bytes it shows are
    [take len arr]. *)
Record sectorBuffer := mkBuf {
  arr : list byte;
  len : Z
}.

Definition view (sb : sectorBuffer) : list byte := take (Z.to_nat (len sb)) (arr sb).

(** [encoding.DecUint64]: little-endian. *)
Fixpoint DecUint64 (bs : list byte) : Z :=
  match bs with
  | [] => 0
  | b :: rest => Z.of_N (Byte.to_N b) + 256 * DecUint64 rest
  end.

(** A read into the front of an array. *)
Definition overwrite (a : list byte) (bs : list byte) : list byte :=
  bs ++ drop (length bs) a.

Section Session.

(** The size of a sector is a constant of the package declared outside
    the excerpt; the connection and the contract editor are interfaces. *)
Variable SectorSize : Z.
Variables Conn ContractEditor : Type.

Record Downloader := mkDownloader {
  host : ScannedHost;
  contract : ContractEditor;
  sector : sectorBuffer;
  conn : Conn
}.

Definition set_host d v :=
  {| host := v; contract := contract d; sector := sector d; conn := conn d |}.
Definition set_sector d v :=
  {| host := host d; contract := contract d; sector := v; conn := conn d |}.
Definition set_conn d v :=
  {| host := host d; contract := contract d; sector := sector d; conn := v |}.

(** What the code asks of its collaborators, with the type of the answer.
    [startRevision] updates the host settings through its pointer
    argument: the answer carries the settings it leaves.  [ReadFull c n]
    answers with the bytes read, at most [n], and an error unless all [n]
    arrived. *)
Inductive call : Type -> Type :=
| extendDeadline (c : Conn) (d : duration) : call unit
| startRevision (c : Conn) (h : ScannedHost) : call (ScannedHost * option error)
| GetTransaction (ce : ContractEditor) : call ContractTransaction
| WriteObject (c : Conn) (acts : list DownloadAction) : call (option error)
| negotiateRevision (c : Conn) (rev : FileContractRevision) (key : list byte)
    : call (Transaction * option error)
| SyncWithHost (ce : ContractEditor) (rev : FileContractRevision)
    (sigs : list TransactionSignature) : call (option error)
| ReadFull (c : Conn) (n : Z) : call (list byte * option error)
| Close (c : Conn) : call unit
| initiateRPC (addr : string) (rpc : rpcID) (ce : ContractEditor)
    : call (Conn * option error).

(** A method body: a finite tree of calls. *)
Inductive Prog (A : Type) : Type :=
| Ret (a : A)
| Call {T : Type} (c : call T) (k : T -> Prog A).
Arguments Ret {A} a.
Arguments Call {A T} c k.

Fixpoint bind {A B} (p : Prog A) (f : A -> Prog B) : Prog B :=
  match p with
  | Ret a => f a
  | Call c k => Call c (fun t => bind (k t) f)
  end.

Definition perform {T} (c : call T) : Prog T := Call c Ret.

Notation "'let*' x ':=' p 'in' k" := (bind p (fun x => k))
  (at level 10, x binder, k at level 200, only parsing).

(** [sectorBuffer.UnmarshalSia] reading from the connection. *)
Definition UnmarshalSia (sb : sectorBuffer) (c : Conn)
  : Prog (outcome (sectorBuffer * option error)) :=
  let sb := if Z.of_nat (length (arr sb)) =? SectorSize then sb
            else mkBuf (replicate (Z.to_nat SectorSize) x00) SectorSize in
  let buf := arr sb in
  if 24 >? Z.of_nat (length buf) then Ret Panicked
  else
    let* '(bs, err) := perform (ReadFull c 24) in
    let buf := overwrite buf (take 24 bs) in
    match err with
    | Some e => Ret (Returned (mkBuf buf (len sb), Some e))
    | None =>
        let totalSize := DecUint64 (take 8 buf) in
        let numSectors := DecUint64 (take 8 (drop 8 buf)) in
        let payloadSize := DecUint64 (take 8 (drop 16 buf)) in
        if totalSize >? SectorSize + 16 then
          Ret (Returned (mkBuf buf (len sb),
                 Some (ErrNew "reported payload size is larger than SectorSize")))
        else if negb (numSectors =? 1) then
          Ret (Returned (mkBuf buf (len sb), Some (ErrNew "wrong number of sectors")))
        else if payloadSize >? SectorSize then
          Ret (Returned (mkBuf buf (len sb),
                 Some (ErrNew "reported sector data is larger than SectorSize")))
        else
          let* '(bs, err) := perform (ReadFull c payloadSize) in
          let buf := overwrite buf (take (Z.to_nat payloadSize) bs) in
          Ret (Returned (mkBuf buf payloadSize, err))
    end.

(** What a call of [partialSector] gives back: the receiver as the call
    left it, the returned slice ([nil] is the empty list) and the error. *)
Definition reply : Type := Downloader * (list byte * option error).

(** The statements of [partialSector] that follow the negotiation, from
    "update contract revision" to the end; [signedTxn] is the transaction
    [negotiateRevision] gave back. *)
Definition partialSector_update (d : Downloader) (signedTxn : Transaction) (length : Z)
  : Prog (outcome reply) :=
  match FileContractRevisions signedTxn with
  | [] => Ret Panicked
  | rev0 :: _ =>
      let* err := perform (SyncWithHost (contract d) rev0
                             (TransactionSignatures signedTxn)) in
      match err with
      | Some e =>
          Ret (Returned (d, ([], Some (ErrWrap e
                 "could not update contract transaction"))))
      | None =>
          let* o := UnmarshalSia (sector d) (conn d) in
          match o with
          | Panicked => Ret Panicked
          | Returned (sb, err) =>
              let d := set_sector d sb in
              match err with
              | Some e =>
                  let* _ := perform (Close (conn d)) in
                  Ret (Returned (d, ([], Some e)))
              | None =>
                  if negb (u32 (len (sector d)) =? length)
                  then
                    let* _ := perform (Close (conn d)) in
                    Ret (Returned (d, ([], Some (ErrNew
                           "host sent incomplete sector data"))))
                  else Ret (Returned (d, (view (sector d), None)))
              end
          end
      end
  end.

(** The statements of [partialSector] after its two opening ones, up to
    the answer of the host to the proposed revision. *)
Definition partialSector_body (d : Downloader) (root : Hash) (offset length : Z)
  : Prog (outcome reply) :=
  if u32 (offset + length) >? SectorSize then
    Ret (Returned (d, ([], Some (ErrNew "invalid sector range"))))
  else
    let* '(h, err) := perform (startRevision (conn d) (host d)) in
    let d := set_host d h in
    match err with
    | Some e => Ret (Returned (d, ([], Some e)))
    | None =>
        let* txn := perform (GetTransaction (contract d)) in
        let sectorPrice := DownloadBandwidthPrice (host d) * SectorSize in
        if RenterFunds txn <? sectorPrice then
          Ret (Returned (d, ([], Some (ErrNew
                 "contract has insufficient funds to support download"))))
        else
          let* err := perform (WriteObject (conn d)
                   [ {| MerkleRoot := root; Offset := offset; Length := length |} ]) in
          match err with
          | Some e =>
              Ret (Returned (d, ([], Some (ErrWrap e "could not send revision action"))))
          | None =>
              let rev := newDownloadRevision (CurrentRevision txn) sectorPrice in
              let* '(signedTxn, err) :=
                perform (negotiateRevision (conn d) rev (RenterKey txn)) in
              match err with
              | Some ErrStopResponse => partialSector_update d signedTxn length
              | Some e =>
                  let* _ := perform (Close (conn d)) in
                  Ret (Returned (d, ([], Some e)))
              | None => partialSector_update d signedTxn length
              end
          end
    end.

(** [partialSector]: the deadline is extended on entry and the deferred
    call resets it on every way out, a panic included. *)
Definition partialSector (d : Downloader) (root : Hash) (offset length : Z)
  : Prog (outcome reply) :=
  let* _ := perform (extendDeadline (conn d) NegotiateDownloadTime) in
  let* o := partialSector_body d root offset length in
  let* _ := perform (extendDeadline (conn d) Hour) in
  Ret o.

Definition PartialSector (d : Downloader) (root : Hash) (offset length : Z)
  : Prog (outcome reply) :=
  let* o := partialSector d root offset length in
  match o with
  | Panicked => Ret Panicked
  | Returned (d, (data, err)) =>
      if isHostDisconnect err then
        let* _ := perform (Close (conn d)) in
        let* '(c, err) := perform (initiateRPC (NetAddress (host d)) RPCDownload (contract d)) in
        let d := set_conn d c in
        match err with
        | Some e => Ret (Returned (d, ([], Some e)))
        | None => partialSector d root offset length
        end
      else Ret (Returned (d, (data, err)))
  end.

(** *** Running a method against its collaborators

    The collaborators are any state [W] with an answer to every call; a
    run yields the transcript (the calls made, in order, each with its
    answer), the final state and the result. *)
Inductive event : Type :=
| Ev {T : Type} (c : call T) (t : T).

Definition handler (W : Type) : Type := forall T, call T -> W -> T * W.

Fixpoint exec {W A} (h : handler W) (p : Prog A) (w : W) : list event * W * A :=
  match p with
  | Ret a => ([], w, a)
  | Call c k =>
      let '(t, w1) := h _ c w in
      let '(tr, w2, a) := exec h (k t) w1 in
      (Ev c t :: tr, w2, a)
  end.

Definition transcript {W A} (h : handler W) (p : Prog A) (w : W) : list event :=
  fst (fst (exec h p w)).
Definition final {W A} (h : handler W) (p : Prog A) (w : W) : W :=
  snd (fst (exec h p w)).
Definition result {W A} (h : handler W) (p : Prog A) (w : W) : A :=
  snd (exec h p w).

(** Readings of a transcript. *)

(** The revisions proposed to the host. *)
Definition proposal (e : event) : option FileContractRevision :=
  match e with
  | Ev c _ => match c with negotiateRevision _ rev _ => Some rev | _ => None end
  end.
Definition proposals (tr : list event) : list FileContractRevision := omap proposal tr.

(** The host settings left by [startRevision]. *)
Definition quote (e : event) : option ScannedHost :=
  match e with
  | Ev c t =>
      match c in call T return T -> option ScannedHost with
      | startRevision _ _ => fun t => Some (fst t)
      | _ => fun _ => None
      end t
  end.
Definition quotes (tr : list event) : list ScannedHost := omap quote tr.

(** The contract states read from the editor. *)
Definition balance (e : event) : option ContractTransaction :=
  match e with
  | Ev c t =>
      match c in call T return T -> option ContractTransaction with
      | GetTransaction _ => fun t => Some t
      | _ => fun _ => None
      end t
  end.
Definition balances (tr : list event) : list ContractTransaction := omap balance tr.

(** The answers of the host to the proposed revisions. *)
Definition verdict_of (e : event) : option (Transaction * option error) :=
  match e with
  | Ev c t =>
      match c in call T return T -> option (Transaction * option error) with
      | negotiateRevision _ _ _ => fun t => Some t
      | _ => fun _ => None
      end t
  end.
Definition verdicts (tr : list event) : list (Transaction * option error) :=
  omap verdict_of tr.

(** The download actions sent. *)
Definition request (e : event) : option (list DownloadAction) :=
  match e with
  | Ev c _ => match c with WriteObject _ acts => Some acts | _ => None end
  end.
Definition requests (tr : list event) : list (list DownloadAction) := omap request tr.

(** The revisions recorded into the contract editor. *)
Definition record (e : event) : option FileContractRevision :=
  match e with
  | Ev c _ => match c with SyncWithHost _ rev _ => Some rev | _ => None end
  end.
Definition records (tr : list event) : list FileContractRevision := omap record tr.

(** The connections closed, and the handshakes made. *)
Definition closing (e : event) : option Conn :=
  match e with
  | Ev c _ => match c with Close c => Some c | _ => None end
  end.
Definition closings (tr : list event) : list Conn := omap closing tr.

Definition handshake (e : event) : option (string * rpcID * ContractEditor) :=
  match e with
  | Ev c _ => match c with initiateRPC a r ce => Some (a, r, ce) | _ => None end
  end.
Definition handshakes (tr : list event) : list (string * rpcID * ContractEditor) :=
  omap handshake tr.

(** Every run of [partialSector] opens with the negotiation deadline: the
    exchanges of a transcript are counted by it. *)
Definition opening (e : event) : option Conn :=
  match e with
  | Ev c _ =>
      match c with extendDeadline c NegotiateDownloadTime => Some c | _ => None end
  end.
Definition exchanges (tr : list event) : list Conn := omap opening tr.

(** The calls of a transcript without their answers. *)
Inductive asked : Type :=
| Asked {T : Type} (c : call T).
Definition question (e : event) : asked :=
  match e with Ev c _ => Asked c end.

(** [all_paths P Q p]: whatever the answers, every call [p] makes
    satisfies [P] and every result it ends with satisfies [Q]. *)
Inductive all_paths {A} (P : forall T, call T -> Prop) (Q : A -> Prop)
  : Prog A -> Prop :=
| all_paths_Ret (a : A) : Q a -> all_paths P Q (Ret a)
| all_paths_Call {T} (c : call T) (k : T -> Prog A) :
    P T c -> (forall t, all_paths P Q (k t)) -> all_paths P Q (Call c k).

(** The receiver a call gives back still has the connection and the
    contract editor of [d]. *)
Definition keeps (d : Downloader) (o : outcome reply) : Prop :=
  match o with
  | Returned (d', _) => conn d' = conn d /\ contract d' = contract d
  | Panicked => True
  end.

(** The slice and the error a call returned, if it returned. *)
Definition returns (o : outcome reply) : option (list byte * option error) :=
  match o with
  | Returned (_, r) => Some r
  | Panicked => None
  end.

(** What a transcript shows of the negotiation, by the point the body of
    [partialSector] stops at.  [q] is the host's quote and [txn] the state
    of the contract. *)
Inductive stage (d : Downloader) (root : Hash) (offset length : Z)
    (tr : list event) (o : outcome reply) : Prop :=
| stage_range :
    SectorSize < u32 (offset + length) ->
    quotes tr = [] -> balances tr = [] -> requests tr = [] -> proposals tr = [] ->
    o = Returned (d, ([], Some (ErrNew "invalid sector range"))) ->
    stage d root offset length tr o
| stage_quote (q : ScannedHost) (e : error) :
    u32 (offset + length) <= SectorSize ->
    quotes tr = [q] -> balances tr = [] -> requests tr = [] -> proposals tr = [] ->
    o = Returned (set_host d q, ([], Some e)) ->
    stage d root offset length tr o
| stage_funds (q : ScannedHost) (txn : ContractTransaction) :
    u32 (offset + length) <= SectorSize ->
    quotes tr = [q] -> balances tr = [txn] -> requests tr = [] -> proposals tr = [] ->
    RenterFunds txn < DownloadBandwidthPrice q * SectorSize ->
    o = Returned (set_host d q, ([], Some (ErrNew
          "contract has insufficient funds to support download"))) ->
    stage d root offset length tr o
| stage_send (q : ScannedHost) (txn : ContractTransaction) (e : error) :
    u32 (offset + length) <= SectorSize ->
    quotes tr = [q] -> balances tr = [txn] ->
    requests tr = [[ {| MerkleRoot := root; Offset := offset; Length := length |} ]] ->
    proposals tr = [] ->
    DownloadBandwidthPrice q * SectorSize <= RenterFunds txn ->
    o = Returned (set_host d q,
          ([], Some (ErrWrap e "could not send revision action"))) ->
    stage d root offset length tr o
| stage_proposed (q : ScannedHost) (txn : ContractTransaction) :
    u32 (offset + length) <= SectorSize ->
    quotes tr = [q] -> balances tr = [txn] ->
    requests tr = [[ {| MerkleRoot := root; Offset := offset; Length := length |} ]] ->
    proposals tr = [newDownloadRevision (CurrentRevision txn)
                      (DownloadBandwidthPrice q * SectorSize)] ->
    DownloadBandwidthPrice q * SectorSize <= RenterFunds txn ->
    stage d root offset length tr o.

(** A host that takes a graceful stop back: it answers every call as [h]
    does, except that where [h] answers the proposed revision with
    [ErrStopResponse] it answers with no error. *)
Definition without_stop {W} (h : handler W) : handler W :=
  fun T (c : call T) w =>
    match c in call T return T * W -> T * W with
    | negotiateRevision _ _ _ => fun r =>
        match r with
        | ((txn, Some ErrStopResponse), w') => ((txn, None), w')
        | _ => r
        end
    | _ => fun r => r
    end (h T c w).

End Session.

Arguments Ret {Conn ContractEditor A} a.
Arguments Call {Conn ContractEditor A T} c k.
Arguments Ev {Conn ContractEditor T} c t.
Arguments Asked {Conn ContractEditor T} c.
Arguments extendDeadline {Conn ContractEditor} c d.
Arguments startRevision {Conn ContractEditor} c h.
Arguments GetTransaction {Conn ContractEditor} ce.
Arguments WriteObject {Conn ContractEditor} c acts.
Arguments negotiateRevision {Conn ContractEditor} c rev key.
Arguments SyncWithHost {Conn ContractEditor} ce rev sigs.
Arguments ReadFull {Conn ContractEditor} c n.
Arguments Close {Conn ContractEditor} c.
Arguments initiateRPC {Conn ContractEditor} addr rpc ce.
Arguments mkDownloader {Conn ContractEditor} _ _ _ _.
Arguments host {Conn ContractEditor} _.
Arguments contract {Conn ContractEditor} _.
Arguments sector {Conn ContractEditor} _.
Arguments conn {Conn ContractEditor} _.
Arguments set_host {Conn ContractEditor} d v.
Arguments set_sector {Conn ContractEditor} d v.
Arguments set_conn {Conn ContractEditor} d v.
Arguments bind {Conn ContractEditor A B} p f.
Arguments perform {Conn ContractEditor T} c.
Arguments UnmarshalSia SectorSize {Conn ContractEditor} sb c.
Arguments partialSector_update SectorSize {Conn ContractEditor} d signedTxn length.
Arguments partialSector_body SectorSize {Conn ContractEditor} d root offset length.
Arguments partialSector SectorSize {Conn ContractEditor} d root offset length.
Arguments PartialSector SectorSize {Conn ContractEditor} d root offset length.
Arguments exec {Conn ContractEditor W A} h p w.
Arguments transcript {Conn ContractEditor W A} h p w.
Arguments final {Conn ContractEditor W A} h p w.
Arguments result {Conn ContractEditor W A} h p w.
Arguments opening {Conn ContractEditor} e.
Arguments handshake {Conn ContractEditor} e.
Arguments closing {Conn ContractEditor} e.
Arguments record {Conn ContractEditor} e.
Arguments verdict_of {Conn ContractEditor} e.
Arguments request {Conn ContractEditor} e.
Arguments balance {Conn ContractEditor} e.
Arguments quote {Conn ContractEditor} e.
Arguments proposal {Conn ContractEditor} e.
Arguments proposals {Conn ContractEditor} tr.
Arguments quotes {Conn ContractEditor} tr.
Arguments balances {Conn ContractEditor} tr.
Arguments requests {Conn ContractEditor} tr.
Arguments verdicts {Conn ContractEditor} tr.
Arguments records {Conn ContractEditor} tr.
Arguments closings {Conn ContractEditor} tr.
Arguments handshakes {Conn ContractEditor} tr.
Arguments exchanges {Conn ContractEditor} tr.
Arguments question {Conn ContractEditor} e.
Arguments all_paths {Conn ContractEditor A} P Q p.
Arguments keeps {Conn ContractEditor} d o.
Arguments returns {Conn ContractEditor} o.
Arguments stage SectorSize {Conn ContractEditor} d root offset length tr o.
Arguments without_stop {Conn ContractEditor W} h T c w.

(** *** [Sector] and [NewDownloader] *)

(** [!=] on [crypto.Hash] compares the bytes. *)
#[global] Instance byte_eq_dec : EqDecision byte.
Proof. intros a b. exact (Byte.byte_eq_dec a b). Defined.

Section Sectors.

Variable SectorSize : Z.
Variables Conn ContractEditor : Type.

(** [SectorMerkleRoot] is a function of the package declared outside the
    excerpt. *)
Variable SectorMerkleRoot : list byte -> Hash.

(** What a call of [Sector] gives back: the receiver as the call left
    it, the returned array ([None] is the nil pointer) and the error. *)
Definition sector_reply : Type :=
  Downloader Conn ContractEditor * (option (list byte) * option error).

(** [Sector].  [&sectorSlice[0]] panics on an empty slice; the array the
    pointer is cast to is the [SectorSize] bytes that start at the first
    byte of the slice, which is the first byte of the backing array of
    [d.sector]. *)
Definition Sector (d : Downloader Conn ContractEditor) (root : Hash)
  : Prog Conn ContractEditor (outcome sector_reply) :=
  bind (PartialSector SectorSize d root 0 SectorSize) (fun o =>
    match o with
    | Panicked => Ret Panicked
    | Returned (d, (sectorSlice, err)) =>
        match err with
        | Some e => Ret (Returned (d, (None, Some e)))
        | None =>
            match sectorSlice with
            | [] => Ret Panicked
            | _ :: _ =>
                let sector := take (Z.to_nat SectorSize) (arr (sector d)) in
                if decide (SectorMerkleRoot sector = root)
                then Ret (Returned (d, (Some sector, None)))
                else Ret (Returned (d, (None, Some (ErrNew
                            "host sent invalid sector data"))))
            end
        end
    end).

(** [NewDownloader]: the sector buffer of a new session is the nil
    slice. *)
Definition NewDownloader (host : ScannedHost) (contract : ContractEditor)
  : Prog Conn ContractEditor
      (option (Downloader Conn ContractEditor) * option error) :=
  bind (perform (initiateRPC (NetAddress host) RPCDownload contract))
    (fun '(conn, err) =>
       match err with
       | Some e => Ret (None, Some e)
       | None => Ret (Some (mkDownloader host contract (mkBuf [] 0) conn), None)
       end).

(** More readings of a transcript: the sizes asked of [io.ReadFull], the
    answers of the contract editor to [SyncWithHost], and the deadlines
    set on a connection. *)
Definition asking (e : event Conn ContractEditor) : option Z :=
  match e with
  | Ev c _ => match c with ReadFull _ n => Some n | _ => None end
  end.
Definition reads (tr : list (event Conn ContractEditor)) : list Z := omap asking tr.

Definition receipt (e : event Conn ContractEditor) : option (option error) :=
  match e with
  | Ev c t =>
      match c in call _ _ T return T -> option (option error) with
      | SyncWithHost _ _ _ => fun t => Some t
      | _ => fun _ => None
      end t
  end.
Definition receipts (tr : list (event Conn ContractEditor)) : list (option error) :=
  omap receipt tr.

Definition deadline (e : event Conn ContractEditor) : option (Conn * duration) :=
  match e with
  | Ev c _ => match c with extendDeadline c dl => Some (c, dl) | _ => None end
  end.
Definition deadlines (tr : list (event Conn ContractEditor)) : list (Conn * duration) :=
  omap deadline tr.

End Sectors.

Arguments Sector SectorSize {Conn ContractEditor} SectorMerkleRoot d root.
Arguments NewDownloader {Conn ContractEditor} host contract.
Arguments asking {Conn ContractEditor} e.
Arguments reads {Conn ContractEditor} tr.
Arguments receipt {Conn ContractEditor} e.
Arguments receipts {Conn ContractEditor} tr.
Arguments deadline {Conn ContractEditor} e.
Arguments deadlines {Conn ContractEditor} tr.

(** *** What every run of a method shows

    [all_runs p R]: whatever the collaborators answer, the transcript and
    the result of [p] satisfy [R]. *)

Section Every.

Variable SectorSize : Z.
Variables Conn ContractEditor : Type.

Fixpoint all_runs {A} (p : Prog Conn ContractEditor A)
    (R : list (event Conn ContractEditor) -> A -> Prop) : Prop :=
  match p with
  | Ret a => R [] a
  | Call c k => forall t, all_runs (k t) (fun tr a => R (Ev c t :: tr) a)
  end.

(** The host agreed to the proposed revision: it answered with no error
    or with the graceful stop. *)
Definition agreed (v : option error) : Prop :=
  v = None \/ v = Some ErrStopResponse.

(** What a transcript of [partialSector] shows of the settlement, by the
    way the call ends. *)
Inductive exchange (d : Downloader Conn ContractEditor) (length : Z)
    (tr : list (event Conn ContractEditor))
    (o : outcome (reply Conn ContractEditor)) : Prop :=
| exchange_unproposed (d' : Downloader Conn ContractEditor) (e : error) :
    proposals tr = [] -> verdicts tr = [] -> records tr = [] ->
    receipts tr = [] -> reads tr = [] -> closings tr = [] ->
    o = Returned (d', ([], Some e)) ->
    exchange d length tr o
| exchange_refused (d' : Downloader Conn ContractEditor)
    (prop : FileContractRevision) (txn : Transaction) (e : error) :
    e <> ErrStopResponse ->
    proposals tr = [prop] -> verdicts tr = [(txn, Some e)] -> records tr = [] ->
    receipts tr = [] -> reads tr = [] -> closings tr = [conn d] ->
    o = Returned (d', ([], Some e)) ->
    exchange d length tr o
| exchange_unsigned (prop : FileContractRevision) (txn : Transaction) (v : option error) :
    agreed v -> proposals tr = [prop] -> verdicts tr = [(txn, v)] ->
    FileContractRevisions txn = [] ->
    records tr = [] -> receipts tr = [] -> reads tr = [] -> closings tr = [] ->
    o = Panicked ->
    exchange d length tr o
| exchange_unrecorded (d' : Downloader Conn ContractEditor)
    (prop : FileContractRevision) (txn : Transaction) (v : option error)
    (rev0 : FileContractRevision) (revs : list FileContractRevision) (e : error) :
    agreed v -> proposals tr = [prop] -> verdicts tr = [(txn, v)] ->
    FileContractRevisions txn = rev0 :: revs ->
    records tr = [rev0] -> receipts tr = [Some e] -> reads tr = [] ->
    closings tr = [] ->
    o = Returned (d', ([], Some (ErrWrap e "could not update contract transaction"))) ->
    exchange d length tr o
| exchange_no_buffer (prop : FileContractRevision) (txn : Transaction) (v : option error)
    (rev0 : FileContractRevision) (revs : list FileContractRevision) :
    agreed v -> proposals tr = [prop] -> verdicts tr = [(txn, v)] ->
    FileContractRevisions txn = rev0 :: revs ->
    records tr = [rev0] -> receipts tr = [None] -> reads tr = [] ->
    closings tr = [] -> SectorSize < 24 ->
    o = Panicked ->
    exchange d length tr o
| exchange_unread (d' : Downloader Conn ContractEditor)
    (prop : FileContractRevision) (txn : Transaction) (v : option error)
    (rev0 : FileContractRevision) (revs : list FileContractRevision)
    (ps : list Z) (e : error) :
    agreed v -> proposals tr = [prop] -> verdicts tr = [(txn, v)] ->
    FileContractRevisions txn = rev0 :: revs ->
    records tr = [rev0] -> receipts tr = [None] -> reads tr = 24 :: ps ->
    (ps = [] \/ exists p, ps = [p] /\ 0 <= p <= SectorSize) ->
    closings tr = [conn d] -> 24 <= SectorSize ->
    o = Returned (d', ([], Some e)) ->
    exchange d length tr o
| exchange_done (d' : Downloader Conn ContractEditor)
    (prop : FileContractRevision) (txn : Transaction) (v : option error)
    (rev0 : FileContractRevision) (revs : list FileContractRevision)
    (p : Z) (data : list byte) :
    agreed v -> proposals tr = [prop] -> verdicts tr = [(txn, v)] ->
    FileContractRevisions txn = rev0 :: revs ->
    records tr = [rev0] -> receipts tr = [None] -> reads tr = [24; p] ->
    0 <= p <= SectorSize -> 24 <= SectorSize -> u32 p = length ->
    closings tr = [] ->
    data = view (sector d') -> Z.of_nat (List.length data) = p ->
    Z.of_nat (List.length (arr (sector d'))) = SectorSize ->
    o = Returned (d', (data, None)) ->
    exchange d length tr o.

(** How a transcript of [PartialSector] is made of one or two exchanges. *)
Inductive attempts (d : Downloader Conn ContractEditor) (length : Z)
    (tr : list (event Conn ContractEditor))
    (o : outcome (reply Conn ContractEditor)) : Prop :=
| attempts_one :
    exchange d length tr o ->
    attempts d length tr o
| attempts_undialled (tr1 : list (event Conn ContractEditor))
    (d1 : Downloader Conn ContractEditor) (err : option error)
    (c : Conn) (e : error) :
    exchange d length tr1 (Returned (d1, ([], err))) ->
    isHostDisconnect err = true ->
    tr = tr1 ++ [Ev (Close (conn d1)) tt;
                 Ev (initiateRPC (NetAddress (host d1)) RPCDownload (contract d1))
                    (c, Some e)] ->
    o = Returned (set_conn d1 c, ([], Some e)) ->
    attempts d length tr o
| attempts_two (tr1 tr2 : list (event Conn ContractEditor))
    (d1 : Downloader Conn ContractEditor) (err : option error)
    (c : Conn) :
    exchange d length tr1 (Returned (d1, ([], err))) ->
    isHostDisconnect err = true ->
    exchange (set_conn d1 c) length tr2 o ->
    tr = tr1 ++ [Ev (Close (conn d1)) tt;
                 Ev (initiateRPC (NetAddress (host d1)) RPCDownload (contract d1))
                    (c, None)] ++ tr2 ->
    attempts d length tr o.

End Every.

Arguments all_runs {Conn ContractEditor A} p R.
Arguments exchange SectorSize {Conn ContractEditor} d length tr o.
Arguments attempts SectorSize {Conn ContractEditor} d length tr o.

(** *** A scripted host

    A host to run the methods against: it quotes [offer], keeps the
    contract in [ledger], answers a proposed revision with [verdict],
    serves the bytes of [wire], and drops the connection at the first
    [hangups] calls of [startRevision]. *)

Record Host := mkScript {
  offer : ScannedHost;
  ledger : ContractTransaction;
  verdict : option error;
  wire : list byte;
  hangups : nat
}.

Definition scripted : handler nat unit Host :=
  fun T (c : call nat unit T) (w : Host) =>
    match c in call _ _ T return T * Host with
    | extendDeadline _ _ => (tt, w)
    | startRevision _ h =>
        match hangups w with
        | O => ((offer w, None), w)
        | S n => ((h, Some ErrDisconnect),
                  mkScript (offer w) (ledger w) (verdict w) (wire w) n)
        end
    | GetTransaction _ => (ledger w, w)
    | WriteObject _ _ => (None, w)
    | negotiateRevision _ rev _ => ((mkTxn [rev] [[]], verdict w), w)
    | SyncWithHost _ rev _ =>
        (None, mkScript (offer w) (mkCTxn rev (RenterKey (ledger w)))
                 (verdict w) (wire w) (hangups w))
    | ReadFull _ n =>
        let bs := take (Z.to_nat n) (wire w) in
        ((bs, if Z.of_nat (length bs) <? n then Some ErrDisconnect else None),
         mkScript (offer w) (ledger w) (verdict w) (drop (Z.to_nat n) (wire w))
           (hangups w))
    | Close _ => (tt, w)
    | initiateRPC _ _ _ => ((1%nat, None), w)
    end.

(** [encoding.EncUint64] and the frame of one sector payload. *)
Fixpoint le_encode (n : nat) (z : Z) : list byte :=
  match n with
  | O => []
  | S n' => default x00 (Byte.of_N (Z.to_N (z mod 256))) :: le_encode n' (z / 256)
  end.
Definition EncUint64 (z : Z) : list byte := le_encode 8 (u64 z).
Definition frame (payload : list byte) : list byte :=
  EncUint64 (Z.of_nat (length payload) + 16) ++ EncUint64 1
  ++ EncUint64 (Z.of_nat (length payload)) ++ payload.

Definition host1 : ScannedHost :=
  {| NetAddress := "host:9982"; PublicKey := "ed25519:01"; DownloadBandwidthPrice := 1 |}.

(** A fresh session, as [NewDownloader] leaves it. *)
Definition client (h : ScannedHost) : Downloader nat unit :=
  mkDownloader h tt (mkBuf [] 0) 0%nat.

(** A contract at revision 7 with [funds] left to the renter. *)
Definition contract7 (funds : Z) : ContractTransaction :=
  mkCTxn (mkRev 7 funds 0) [x2a].

(** The host [host1], charging 1 per byte, with [payload] framed on the
    wire. *)
Definition serving (funds : Z) (v : option error) (payload : list byte)
    (drops : nat) : Host :=
  mkScript host1 (contract7 funds) v (frame payload) drops.

(** The sector size of the Sia network, [1 << 22], for the runs against
    the scripted host. *)
Definition SiaSectorSize : Z := 4194304.

End Proto.

(** * Facts about the metadata store *)

Module MetaDBFacts.
Import Renterutil.

(** ** Arithmetic of the wrap-around *)

Lemma int_wrap_idem_add (a b : Z) : int_wrap (int_wrap a + b) = int_wrap (a + b).
Proof.
  unfold int_wrap.
  replace ((a + 2 ^ 63) mod 2 ^ 64 - 2 ^ 63 + b + 2 ^ 63)
    with ((a + 2 ^ 63) mod 2 ^ 64 + b) by lia.
  rewrite Z.add_mod_idemp_l by lia.
  do 2 f_equal; lia.
Qed.

Lemma int_wrap_small (a : Z) : - 2 ^ 63 <= a < 2 ^ 63 -> int_wrap a = a.
Proof.
  intros H. unfold int_wrap. rewrite Z.mod_small; lia.
Qed.

Lemma u64_small (a : Z) : 0 <= a < 2 ^ 64 -> u64 a = a.
Proof. intros H. unfold u64. apply Z.mod_small. exact H. Qed.

(** ** Slices *)

Lemma index_Returned {A} (l : list A) (i : Z) (a : A) :
  index l i = Returned a <->
  (0 <= i < Z.of_nat (length l)) /\ l !! Z.to_nat i = Some a.
Proof.
  unfold index.
  destruct (0 <=? i) eqn:H0; destruct (i <? Z.of_nat (length l)) eqn:H1; simpl;
    try (split; [discriminate | intros [? _]; lia]).
  destruct (l !! Z.to_nat i) eqn:E.
  - split; [intros [= ->]; split; [lia | reflexivity] | intros [_ [= ->]]; reflexivity].
  - split; [discriminate | intros [_ ?]; discriminate].
Qed.

Lemma index_Panicked {A} (l : list A) (i : Z) :
  index l i = Panicked <-> ~ (0 <= i < Z.of_nat (length l)).
Proof.
  unfold index.
  destruct (0 <=? i) eqn:H0; destruct (i <? Z.of_nat (length l)) eqn:H1; simpl;
    try (split; [intros _; lia | reflexivity]).
  destruct (l !! Z.to_nat i) eqn:E.
  - split; [discriminate | intros H; exfalso; apply H; lia].
  - apply lookup_ge_None in E. lia.
Qed.

(** ** Reference counts under [--] and [++] *)

Definition ind (k x : Z) : Z := if k =? x then 1 else 0.

Lemma refcount_ref_dec (r : gmap Z Z) (k x E : Z) :
  refcount r x = int_wrap E ->
  refcount (ref_dec r k) x = int_wrap (E - ind k x).
Proof.
  intros H. unfold ref_dec, refcount, ind in *.
  destruct (Z.eqb_spec k x) as [->|Hne].
  - rewrite lookup_insert_eq. simpl. rewrite H.
    replace (int_wrap E - 1) with (int_wrap E + -1) by lia.
    rewrite int_wrap_idem_add. f_equal; lia.
  - rewrite lookup_insert_ne by exact Hne. rewrite H. f_equal; lia.
Qed.


Lemma refcount_release_slots (ss : list Z) (r : gmap Z Z) (x E : Z) :
  refcount r x = int_wrap E ->
  refcount (Ephemeral.release_slots ss r) x = int_wrap (E - occurrences x ss).
Proof.
  revert r E. induction ss as [|k ss IH]; intros r E H; simpl.
  - rewrite H. f_equal; lia.
  - unfold Ephemeral.release_slots in *. simpl.
    rewrite (IH _ (E - ind k x)) by (apply refcount_ref_dec; exact H).
    f_equal. unfold ind. lia.
Qed.

Lemma refcount_release_chunks (cs : list DBChunk) (cids : list Z)
    (r r' : gmap Z Z) (x E : Z) :
  Ephemeral.release_chunks cs cids r = Returned r' ->
  refcount r x = int_wrap E ->
  refcount r' x = int_wrap (E - blob_refs cs cids x).
Proof.
  revert r E. induction cids as [|cid cids IH]; intros r E Hrun H; simpl in *.
  - injection Hrun as <-. rewrite H. f_equal; lia.
  - destruct (index cs (u64 (cid - 1))) as [c|] eqn:Hc; simpl in Hrun; [|discriminate].
    rewrite (IH _ (E - occurrences x (Shards c)) Hrun)
      by (apply refcount_release_slots; exact H).
    f_equal; lia.
Qed.

(** ** Recounting after a slot is overwritten *)





(** ** One call *)




(** ** [DeleteBlob] on the two backends *)

Lemma Ephemeral_DeleteBlob_missing (key : string) (db : EphemeralMetaDB) :
  blobs db !! key = None -> Ephemeral.DeleteBlob key db = Returned (db, None).
Proof. intros H. unfold Ephemeral.DeleteBlob. rewrite H. reflexivity. Qed.

Lemma Ephemeral_DeleteBlob_live (key : string) (b : DBBlob)
    (db db' : EphemeralMetaDB) (err : option error) :
  blobs db !! key = Some b ->
  Ephemeral.DeleteBlob key db = Returned (db', err) ->
  err = None /\ blobs db' = delete key (blobs db) /\
  chunks db' = chunks db /\ shards db' = shards db /\
  forall x E, refcount (refs db) x = int_wrap E ->
    refcount (refs db') x = int_wrap (E - blob_refs (chunks db) (Chunks b) x).
Proof.
  intros Hb H. unfold Ephemeral.DeleteBlob in H. rewrite Hb in H.
  destruct (Ephemeral.release_chunks (chunks db) (Chunks b) (refs db)) as [r|] eqn:Hr;
    simpl in H; [|discriminate].
  injection H as <- <-. simpl. repeat split.
  intros x E HE. eapply refcount_release_chunks; eassumption.
Qed.

Lemma Bolt_DeleteBlob_eq (key : string) (db : BoltMetaDB) :
  Bolt.DeleteBlob key db
  = Returned (set_bucketBlobs db
                (mkBucket (delete key (entries (bucketBlobs db)))
                          (sequence (bucketBlobs db))), None).
Proof. reflexivity. Qed.

(** ** [UnreferencedSectors] on the in-memory backend *)

Lemma foldl_collect_Panicked (ss : list DBShard) (l : list (Z * Z)) :
  foldl (Ephemeral.collect ss) Panicked l = Panicked.
Proof. induction l as [|e l IH]; simpl; [reflexivity | exact IH]. Qed.

Lemma collect_step (ss : list DBShard) (m : gmap string (list Hash)) (sid n : Z) :
  Ephemeral.collect ss (Returned m) (sid, n)
  = if n =? 0 then
      s <-! index ss (u64 (sid - 1));
      Returned (<[HostKey s := default [] (m !! HostKey s) ++ [SectorRoot s]]> m)
    else Returned m.
Proof. reflexivity. Qed.

Lemma foldl_collect (ss : list DBShard) (l : list (Z * Z))
    (m0 m : gmap string (list Hash)) (hk : string) (r : Hash) :
  foldl (Ephemeral.collect ss) (Returned m0) l = Returned m ->
  r ∈ default [] (m !! hk) <->
  r ∈ default [] (m0 !! hk) \/
  exists sid s, (sid, 0) ∈ l /\ index ss (u64 (sid - 1)) = Returned s /\
                HostKey s = hk /\ SectorRoot s = r.
Proof.
  revert m0. induction l as [|[sid n] l IH]; intros m0 H; cbn [foldl] in H.
  - injection H as <-. split; [auto|]. intros [?|(? & ? & Hin & _)]; [assumption|].
    apply elem_of_nil in Hin. contradiction.
  - rewrite collect_step in H.
    destruct (Z.eqb_spec n 0) as [->|Hn].
    + destruct (index ss (u64 (sid - 1))) as [s|] eqn:Hs; simpl in H;
        [|rewrite foldl_collect_Panicked in H; discriminate].
      rewrite (IH _ H). clear IH H. split.
      * intros [Hr|(sid' & s' & Hin & Hrest)].
        -- destruct (decide (HostKey s = hk)) as [<-|Hne].
           ++ rewrite lookup_insert_eq in Hr. simpl in Hr.
              apply elem_of_app in Hr as [Hr|Hr]; [left; exact Hr|].
              apply list_elem_of_singleton in Hr. right.
              exists sid, s. repeat split; [left | assumption | auto].
           ++ rewrite lookup_insert_ne in Hr by exact Hne. left. exact Hr.
        -- right. exists sid', s'. split; [right; exact Hin | exact Hrest].
      * intros [Hr|(sid' & s' & Hin & Hidx & Hk & Hroot)].
        -- left. destruct (decide (HostKey s = hk)) as [<-|Hne].
           ++ rewrite lookup_insert_eq. simpl. apply elem_of_app. left. exact Hr.
           ++ rewrite lookup_insert_ne by exact Hne. exact Hr.
        -- apply elem_of_cons in Hin as [[= -> ]|Hin].
           ++ left. rewrite Hidx in Hs. injection Hs as ->.
              rewrite Hk, lookup_insert_eq. simpl. apply elem_of_app. right.
              apply list_elem_of_singleton. auto.
           ++ right. exists sid', s'. auto.
    + rewrite (IH _ H). clear IH H. split.
      * intros [Hr|(sid' & s' & Hin & Hrest)]; [left; exact Hr|].
        right. exists sid', s'. split; [right; exact Hin | exact Hrest].
      * intros [Hr|(sid' & s' & Hin & Hrest)]; [left; exact Hr|].
        apply elem_of_cons in Hin as [[= -> Hn0]|Hin]; [congruence|].
        right. exists sid', s'. auto.
Qed.

(** The in-memory [UnreferencedSectors] lists a root under a host exactly
    when some shard id has an entry in [refs] that is zero and names a
    shard of that host with that root. *)
Lemma Ephemeral_UnreferencedSectors_lists (db : EphemeralMetaDB)
    (m : gmap string (list Hash)) (err : option error) (hk : string) (r : Hash) :
  Ephemeral.UnreferencedSectors db = Returned (m, err) ->
  r ∈ default [] (m !! hk) <->
  exists sid s, refs db !! sid = Some 0 /\
                Ephemeral.Shard sid db = Returned (s, None) /\
                HostKey s = hk /\ SectorRoot s = r.
Proof.
  unfold Ephemeral.UnreferencedSectors, Ephemeral.Shard. intros H.
  destruct (foldl _ _ _) as [m'|] eqn:Hf; simpl in H; [|discriminate].
  injection H as -> _.
  rewrite (foldl_collect _ _ _ _ hk r Hf). rewrite lookup_empty. simpl. split.
  - intros [Hr|(sid & s & Hin & Hidx & Hrest)]; [apply elem_of_nil in Hr; contradiction|].
    exists sid, s. apply elem_of_map_to_list in Hin.
    rewrite Hidx. simpl. auto.
  - intros (sid & s & Hin & Hidx & Hrest). right. exists sid, s.
    split; [apply elem_of_map_to_list; exact Hin|].
    destruct (index (shards db) (u64 (sid - 1))) as [s'|]; simpl in Hidx;
      [|discriminate].
    injection Hidx as ->. auto.
Qed.

(** ** Claims *)




(** C3, where the two backends part.  The same upload on both, then
    DeleteBlob of the blob: the in-memory store lowers the count of the
    blob's shard from 1 to 0 and reports its sector as unreferenced; the
    Bolt store removes the key and nothing else, it holds no count that
    could be lowered and reports no unreferenced sector. *)
Theorem Bolt_DeleteBlob_releases_nothing :
  (exists e e',
     run upload_ops NewEphemeralMetaDB = Returned e /\
     refcount (refs e) 1 = 1 /\
     Ephemeral.DeleteBlob "k" e = Returned (e', None) /\
     blobs e' !! "k" = None /\
     refcount (refs e') 1 = 0 /\
     Ephemeral.UnreferencedSectors e' = Returned ({[ "host-a" := [[x01]] ]}, None)) /\
  (exists d d',
     bolt_uploaded = Returned d /\
     Bolt.Blob "k" d = Returned (blobK, None) /\
     Bolt.DeleteBlob "k" d = Returned (d', None) /\
     Bolt.Blob "k" d' = Returned ({| Key := "k"; Chunks := []; Seed := [] |},
                                  Some ErrKeyNotFound) /\
     bucketChunks d' = bucketChunks d /\
     bucketShards d' = bucketShards d /\
     bucketMeta d' = bucketMeta d /\
     Bolt.UnreferencedSectors d' = Returned (∅, None)).
Proof.
  split.
  - do 2 eexists. split; [vm_compute; reflexivity|].
    split; [vm_compute; reflexivity|].
    split; [vm_compute; reflexivity|].
    repeat split; vm_compute; reflexivity.
  - do 2 eexists. split; [vm_compute; reflexivity|].
    split; [vm_compute; reflexivity|].
    split; [vm_compute; reflexivity|].
    repeat split; vm_compute; reflexivity.
Qed.





(** C5, where the code leaves shards out.  After a single AddShard on the empty
    in-memory store the shard exists, its count is zero and no blob refers
    to it, yet UnreferencedSectors returns the empty map: it visits only
    the ids that have an entry in [refs].  On the Bolt backend the method
    returns nothing whatever the store holds, here after the one blob that
    referred to the shard was deleted. *)
Theorem UnreferencedSectors_misses_unreferenced_shards :
  (exists e,
     Ephemeral.AddShard shardA NewEphemeralMetaDB = Returned (e, (1, None)) /\
     Ephemeral.Shard 1 e = Returned (shardA, None) /\
     refcount (refs e) 1 = 0 /\ live_refs e 1 = 0 /\
     Ephemeral.UnreferencedSectors e = Returned (∅, None)) /\
  (exists d d',
     bolt_uploaded = Returned d /\
     Bolt.Shard 1 d = Returned (shardA, None) /\
     Bolt.DeleteBlob "k" d = Returned (d', None) /\
     entries (bucketBlobs d') = ∅ /\
     Bolt.UnreferencedSectors d' = Returned (∅, None)).
Proof.
  split.
  - eexists. repeat split; vm_compute; reflexivity.
  - do 2 eexists. split; [vm_compute; reflexivity|].
    split; [vm_compute; reflexivity|].
    split; [vm_compute; reflexivity|].
    split; vm_compute; reflexivity.
Qed.


Lemma make_uint64s_Panicked (n : Z) :
  n < 0 \/ maxAlloc < 8 * n -> make_uint64s n = Panicked.
Proof.
  intros H. unfold make_uint64s.
  destruct (Z.ltb_spec n 0) as [|H0]; [reflexivity|].
  destruct (Z.gtb_spec (8 * n) maxAlloc) as [|Hmax]; [reflexivity|]. lia.
Qed.

(** Outside those lengths AddChunk panics on both backends, whatever [m]
    is, and on the Bolt backend with the transaction not committed. *)
Lemma AddChunk_panics_on_bad_length
    (m n length : Z) (e : EphemeralMetaDB) (d : BoltMetaDB) :
  n < 0 \/ maxAlloc < 8 * n ->
  Ephemeral.AddChunk m n length e = Panicked /\
  Bolt.AddChunk m n length d = Panicked.
Proof.
  intros Hn. unfold Ephemeral.AddChunk, Bolt.AddChunk, Bolt.Update.
  rewrite (make_uint64s_Panicked n Hn). split; reflexivity.
Qed.




(** C10.  On the in-memory backend, for a store with fewer than 2^64
    shards and an id in the range of uint64: Shard panics exactly when the
    id is 0 or greater than the number of shards added; for every other id
    it returns the shard added under that id and the nil error, never an
    error value; and the id AddShard returns is the next such id. *)
Theorem Shard_panics_outside_added_ids (db : EphemeralMetaDB) (id : Z) :
  Z.of_nat (length (shards db)) < 2 ^ 64 - 1 ->
  0 <= id < 2 ^ 64 ->
  (Ephemeral.Shard id db = Panicked <->
   id = 0 \/ Z.of_nat (length (shards db)) < id) /\
  (1 <= id <= Z.of_nat (length (shards db)) ->
   exists s, shards db !! Z.to_nat (id - 1) = Some s /\
             Ephemeral.Shard id db = Returned (s, None)) /\
  (forall s, exists db',
     Ephemeral.AddShard s db
     = Returned (db', (Z.of_nat (length (shards db)) + 1, None)) /\
     Ephemeral.Shard (Z.of_nat (length (shards db)) + 1) db' = Returned (s, None)).
Proof.
  intros Hlen Hid. split; [|split].
  - unfold Ephemeral.Shard.
    destruct (index (shards db) (u64 (id - 1))) as [s|] eqn:Hs; simpl.
    + apply index_Returned in Hs as [Hr _].
      split; [discriminate|]. intros [-> | Hgt].
      * change (u64 (0 - 1)) with (2 ^ 64 - 1) in Hr. lia.
      * rewrite u64_small in Hr by lia. lia.
    + apply index_Panicked in Hs. split; [|reflexivity]. intros _.
      destruct (Z.eq_dec id 0) as [->|Hne]; [left; reflexivity|right].
      rewrite u64_small in Hs by lia. lia.
  - intros Hr. unfold Ephemeral.Shard.
    destruct (lookup_lt_is_Some_2 (shards db) (Z.to_nat (id - 1))) as [s Hs]; [lia|].
    exists s. split; [exact Hs|].
    rewrite u64_small by lia.
    assert (Hi : index (shards db) (id - 1) = Returned s)
      by (apply index_Returned; split; [lia | exact Hs]).
    rewrite Hi. reflexivity.
  - intros s. exists (set_shards db (shards db ++ [s])). split.
    + unfold Ephemeral.AddShard. simpl. rewrite length_app. simpl.
      rewrite u64_small by lia. do 3 f_equal. lia.
    + unfold Ephemeral.Shard. simpl. rewrite u64_small by lia.
      assert (Hi : index (shards db ++ [s]) (Z.of_nat (length (shards db)) + 1 - 1)
                   = Returned s).
      { apply index_Returned. rewrite length_app. simpl. split; [lia|].
        replace (Z.to_nat (Z.of_nat (length (shards db)) + 1 - 1))
          with (length (shards db)) by lia.
        apply list_lookup_middle. reflexivity. }
      rewrite Hi. reflexivity.
Qed.

Lemma Shard_panics_outside_added_ids_witness :
  (Ephemeral.Shard 0 NewEphemeralMetaDB = Panicked <->
   0 = 0 \/ Z.of_nat (length (shards NewEphemeralMetaDB)) < 0) /\
  (1 <= 0 <= Z.of_nat (length (shards NewEphemeralMetaDB)) ->
   exists s, shards NewEphemeralMetaDB !! Z.to_nat (0 - 1) = Some s /\
             Ephemeral.Shard 0 NewEphemeralMetaDB = Returned (s, None)) /\
  (forall s, exists db',
     Ephemeral.AddShard s NewEphemeralMetaDB
     = Returned (db', (Z.of_nat (length (shards NewEphemeralMetaDB)) + 1, None)) /\
     Ephemeral.Shard (Z.of_nat (length (shards NewEphemeralMetaDB)) + 1) db'
     = Returned (s, None)).
Proof.
  apply (Shard_panics_outside_added_ids NewEphemeralMetaDB 0); simpl; lia.
Defined.

End MetaDBFacts.

(** * Facts about the downloader *)

Module DownloaderFacts.
Import Proto.

Section Runs.

Context {Conn ContractEditor W : Type}.
Variable h : handler Conn ContractEditor W.

#[local] Abbreviation Prog := (Prog Conn ContractEditor).
#[local] Abbreviation call := (call Conn ContractEditor).
#[local] Abbreviation event := (event Conn ContractEditor).

(** ** Runs of composed methods *)

Lemma exec_bind {A B} (p : Prog A) (f : A -> Prog B) (w : W) :
  exec h (bind p f) w
  = let '(tr1, w1, a) := exec h p w in
    let '(tr2, w2, b) := exec h (f a) w1 in
    (tr1 ++ tr2, w2, b).
Proof.
  revert w. induction p as [a | T c k IH]; intros w; simpl.
  - destruct (exec h (f a) w) as [[tr2 w2] b]. reflexivity.
  - destruct (h T c w) as [t w1]. rewrite IH.
    destruct (exec h (k t) w1) as [[tr1 w1'] a].
    destruct (exec h (f a) w1') as [[tr2 w2] b]. reflexivity.
Qed.

Lemma transcript_bind {A B} (p : Prog A) (f : A -> Prog B) (w : W) :
  transcript h (bind p f) w
  = transcript h p w ++ transcript h (f (result h p w)) (final h p w).
Proof.
  unfold transcript, result, final. rewrite exec_bind.
  destruct (exec h p w) as [[tr1 w1] a]. simpl.
  destruct (exec h (f a) w1) as [[tr2 w2] b]. reflexivity.
Qed.

Lemma final_bind {A B} (p : Prog A) (f : A -> Prog B) (w : W) :
  final h (bind p f) w = final h (f (result h p w)) (final h p w).
Proof.
  unfold result, final. rewrite exec_bind.
  destruct (exec h p w) as [[tr1 w1] a]. simpl.
  destruct (exec h (f a) w1) as [[tr2 w2] b]. reflexivity.
Qed.

Lemma result_bind {A B} (p : Prog A) (f : A -> Prog B) (w : W) :
  result h (bind p f) w = result h (f (result h p w)) (final h p w).
Proof.
  unfold result, final. rewrite exec_bind.
  destruct (exec h p w) as [[tr1 w1] a]. simpl.
  destruct (exec h (f a) w1) as [[tr2 w2] b]. reflexivity.
Qed.

Lemma transcript_perform {T} (c : call T) (w : W) :
  transcript h (perform c) w = [Ev c (h T c w).1].
Proof. unfold transcript. simpl. destruct (h T c w). reflexivity. Qed.

Lemma final_perform {T} (c : call T) (w : W) :
  final h (perform c) w = (h T c w).2.
Proof. unfold final. simpl. destruct (h T c w). reflexivity. Qed.

Lemma result_perform {T} (c : call T) (w : W) :
  result h (perform c) w = (h T c w).1.
Proof. unfold result. simpl. destruct (h T c w). reflexivity. Qed.

Lemma transcript_Ret {A} (a : A) (w : W) : transcript h (Ret a) w = [].
Proof. reflexivity. Qed.

Lemma final_Ret {A} (a : A) (w : W) : final h (Ret a) w = w.
Proof. reflexivity. Qed.

Lemma result_Ret {A} (a : A) (w : W) : result h (Ret a) w = a.
Proof. reflexivity. Qed.

Lemma all_paths_bind {A B} (P : forall T, call T -> Prop)
    (Q1 : A -> Prop) (Q2 : B -> Prop) (p : Prog A) (f : A -> Prog B) :
  all_paths P Q1 p -> (forall a, Q1 a -> all_paths P Q2 (f a)) ->
  all_paths P Q2 (bind p f).
Proof.
  intros Hp Hf. induction Hp as [a Ha | T c k Hc Hk IH]; simpl.
  - apply Hf. exact Ha.
  - constructor; [exact Hc | exact IH].
Qed.

(** The result of a run satisfies what every path of the method ends
    with. *)
Lemma result_all_paths {A} (P : forall T, call T -> Prop) (Q : A -> Prop)
    (p : Prog A) (w : W) :
  all_paths P Q p -> Q (result h p w).
Proof.
  unfold result.
  intros Hp. revert w. induction Hp as [a Ha | T c k Hc Hk IH]; intros w; simpl.
  - exact Ha.
  - destruct (h T c w) as [t w1]. specialize (IH t w1).
    destruct (exec h (k t) w1) as [[tr w2] a]. exact IH.
Qed.

(** A reading that is silent on every call of a method is silent on its
    transcript. *)
Lemma omap_silent {A X} (f : event -> option X) (Q : A -> Prop)
    (p : Prog A) (w : W) :
  all_paths (fun T c => forall t, f (Ev c t) = None) Q p ->
  omap f (transcript h p w) = [].
Proof.
  unfold transcript.
  intros Hp. revert w. induction Hp as [a Ha | T c k Hc Hk IH]; intros w; simpl.
  - reflexivity.
  - destruct (h T c w) as [t w1]. specialize (IH t w1).
    destruct (exec h (k t) w1) as [[tr w2] a]. simpl in *.
    rewrite Hc. exact IH.
Qed.

(** Two hosts that answer alike every call a method makes give the same
    run. *)
Lemma exec_ext {A} (h' : handler Conn ContractEditor W) (Q : A -> Prop)
    (p : Prog A) (w : W) :
  all_paths (fun T c => forall w, h' T c w = h T c w) Q p ->
  exec h' p w = exec h p w.
Proof.
  intros Hp. revert w. induction Hp as [a Ha | T c k Hc Hk IH]; intros w; simpl.
  - reflexivity.
  - rewrite Hc. destruct (h T c w) as [t w1]. rewrite IH. reflexivity.
Qed.

End Runs.

Section Exchange.

Variable SectorSize : Z.
Context {Conn ContractEditor W : Type}.
Variable h : handler Conn ContractEditor W.

#[local] Abbreviation Prog := (Prog Conn ContractEditor).
#[local] Abbreviation Downloader := (Downloader Conn ContractEditor).
#[local] Abbreviation call := (call Conn ContractEditor).
#[local] Abbreviation event := (event Conn ContractEditor).

(** ** What each part of [partialSector] calls and returns *)

Lemma UnmarshalSia_paths (P : forall T, call T -> Prop)
    (sb : sectorBuffer) (c : Conn) :
  (forall n, P _ (ReadFull c n)) ->
  all_paths P (fun _ => True) (UnmarshalSia SectorSize sb c).
Proof.
  intros HP. unfold UnmarshalSia.
  repeat first
    [ apply all_paths_Ret; exact I
    | apply all_paths_Call; [ apply HP | intros ]
    | match goal with
      | |- all_paths _ _ (match ?x with _ => _ end) => destruct x
      | |- all_paths _ _ (if ?b then _ else _) => destruct b
      end
    | progress cbn ].
Qed.

Lemma partialSector_update_paths (P : forall T, call T -> Prop)
    (d : Downloader) (txn : Transaction) (length : Z) :
  (forall rev sigs, P _ (SyncWithHost (contract d) rev sigs)) ->
  (forall n, P _ (ReadFull (conn d) n)) ->
  P _ (Close (conn d)) ->
  all_paths P (keeps d) (partialSector_update SectorSize d txn length).
Proof.
  intros Hsync Hread Hclose. unfold partialSector_update.
  destruct (FileContractRevisions txn) as [|rev0 revs]; [constructor; exact I|].
  cbn. constructor; [apply Hsync|].
  intros [e|]; cbn; [constructor; cbn; auto|].
  eapply all_paths_bind; [apply UnmarshalSia_paths; exact Hread|].
  intros [[sb [e|]]|] _; cbn.
  - constructor; [exact Hclose | intros; constructor; cbn; auto].
  - destruct (negb _); cbn; [|constructor; cbn; auto].
    constructor; [exact Hclose | intros; constructor; cbn; auto].
  - constructor. exact I.
Qed.

Lemma partialSector_body_paths (P : forall T, call T -> Prop)
    (d : Downloader) (root : Hash) (offset length : Z) :
  P _ (startRevision (conn d) (host d)) ->
  P _ (GetTransaction (contract d)) ->
  (forall acts, P _ (WriteObject (conn d) acts)) ->
  (forall rev key, P _ (negotiateRevision (conn d) rev key)) ->
  (forall rev sigs, P _ (SyncWithHost (contract d) rev sigs)) ->
  (forall n, P _ (ReadFull (conn d) n)) ->
  P _ (Close (conn d)) ->
  all_paths P (keeps d) (partialSector_body SectorSize d root offset length).
Proof.
  intros Hstart Hget Hwrite Hneg Hsync Hread Hclose. unfold partialSector_body.
  destruct (_ >? _); [constructor; cbn; auto|].
  cbn. constructor; [exact Hstart|].
  intros [h1 [e|]]; cbn; [constructor; cbn; auto|].
  constructor; [exact Hget|]. intros txn; cbn.
  destruct (_ <? _); [constructor; cbn; auto|].
  cbn. constructor; [apply Hwrite|].
  intros [e|]; cbn; [constructor; cbn; auto|].
  constructor; [apply Hneg|].
  assert (Hup : forall signed,
    all_paths P (keeps d)
      (partialSector_update SectorSize (set_host d h1) signed length)).
  { intros signed.
    apply (partialSector_update_paths P (set_host d h1)); assumption. }
  intros [signed [e|]]; cbn; [|apply Hup].
  destruct e; cbn; try apply Hup;
    (constructor; [exact Hclose | intros; constructor; cbn; auto]).
Qed.

Lemma partialSector_paths (P : forall T, call T -> Prop)
    (d : Downloader) (root : Hash) (offset length : Z) :
  (forall dl, P _ (extendDeadline (conn d) dl)) ->
  P _ (startRevision (conn d) (host d)) ->
  P _ (GetTransaction (contract d)) ->
  (forall acts, P _ (WriteObject (conn d) acts)) ->
  (forall rev key, P _ (negotiateRevision (conn d) rev key)) ->
  (forall rev sigs, P _ (SyncWithHost (contract d) rev sigs)) ->
  (forall n, P _ (ReadFull (conn d) n)) ->
  P _ (Close (conn d)) ->
  all_paths P (keeps d) (partialSector SectorSize d root offset length).
Proof.
  intros Hdl Hstart Hget Hwrite Hneg Hsync Hread Hclose. unfold partialSector.
  cbn. constructor; [apply Hdl|]. intros _.
  eapply all_paths_bind; [apply partialSector_body_paths; eassumption|].
  intros o Ho. cbn. constructor; [apply Hdl|]. intros _. constructor. exact Ho.
Qed.

(** ** One exchange *)

(** Unfolds one call of a run in the three projections. *)
Ltac run1 :=
  rewrite ?transcript_bind, ?final_bind, ?result_bind,
    ?transcript_perform, ?final_perform, ?result_perform,
    ?transcript_Ret, ?final_Ret, ?result_Ret.

Lemma partialSector_one_exchange (d : Downloader) (root : Hash) (offset length : Z)
    (w : W) :
  let p := partialSector SectorSize d root offset length in
  exchanges (transcript h p w) = [conn d] /\
  handshakes (transcript h p w) = [] /\
  keeps d (result h p w).
Proof.
  cbv zeta. split; [|split].
  - unfold partialSector. rewrite !transcript_bind, transcript_perform.
    unfold exchanges. rewrite !omap_app. cbn [omap opening list_omap].
    rewrite (omap_silent h opening (keeps d)), transcript_perform, transcript_Ret;
      [reflexivity|].
    apply partialSector_body_paths; intros; reflexivity.
  - eapply omap_silent. apply partialSector_paths; intros; reflexivity.
  - eapply result_all_paths.
    apply (partialSector_paths (fun _ _ => True)); intros; exact I.
Qed.


(** ** The range check, the funds check and the proposed revision *)

Lemma partialSector_body_stage (d : Downloader) (root : Hash) (offset length : Z)
    (w : W) :
  let p := partialSector_body SectorSize d root offset length in
  stage SectorSize d root offset length (transcript h p w) (result h p w).
Proof.
  cbv zeta. unfold partialSector_body.
  destruct (Z.gtb_spec (u32 (offset + length)) SectorSize) as [Hr|Hr].
  { apply stage_range; [lia | reflexivity..]. }
  rewrite transcript_bind, result_bind, transcript_perform, result_perform,
    final_perform.
  destruct (h _ (startRevision _ _) w) as [[q [e|]] w1]; cbn [fst snd].
  { eapply stage_quote; [lia | reflexivity..]. }
  rewrite transcript_bind, result_bind, transcript_perform, result_perform,
    final_perform.
  destruct (h _ (GetTransaction _) w1) as [txn w2]; cbn [fst snd].
  cbn [host set_host].
  destruct (Z.ltb_spec (RenterFunds txn) (DownloadBandwidthPrice q * SectorSize))
    as [Hf|Hf].
  { eapply stage_funds; [lia | reflexivity.. | exact Hf | reflexivity]. }
  rewrite transcript_bind, result_bind, transcript_perform, result_perform,
    final_perform.
  destruct (h _ (WriteObject _ _) w2) as [[e|] w3]; cbn [fst snd].
  { eapply stage_send; [lia | reflexivity.. | exact Hf | reflexivity]. }
  rewrite transcript_bind, result_bind, transcript_perform, result_perform,
    final_perform.
  destruct (h _ (negotiateRevision _ _ _) w3) as [[signed e] w4]; cbn [fst snd].
  assert (Hup : forall X (f : event -> option X),
    (forall rev sigs t, f (Ev (SyncWithHost (contract d) rev sigs) t) = None) ->
    (forall n t, f (Ev (ReadFull (conn d) n) t) = None) ->
    (forall t, f (Ev (Close (conn d)) t) = None) ->
    omap f (transcript h
      (partialSector_update SectorSize (set_host d q) signed length) w4) = []).
  { intros X f H1 H2 H3. eapply omap_silent.
    apply partialSector_update_paths; assumption. }
  eapply stage_proposed with (q := q) (txn := txn); try exact Hf; try lia;
    unfold quotes, balances, requests, proposals; rewrite !omap_app;
    cbn [omap list_omap quote balance request proposal app fst];
    (destruct e as [[]|]; run1;
     [ rewrite Hup by reflexivity; reflexivity
     | rewrite !omap_app; reflexivity ..
     | rewrite Hup by reflexivity; reflexivity ]).
Qed.

Lemma partialSector_stage (d : Downloader) (root : Hash) (offset length : Z)
    (w : W) :
  let p := partialSector SectorSize d root offset length in
  stage SectorSize d root offset length (transcript h p w) (result h p w).
Proof.
  cbv zeta. unfold partialSector.
  rewrite !transcript_bind, !result_bind, !transcript_perform, transcript_Ret,
    result_Ret.
  set (w0 := final h (perform (extendDeadline (conn d) NegotiateDownloadTime)) w).
  pose proof (partialSector_body_stage d root offset length w0) as Hs.
  cbv zeta in Hs.
  set (tr := transcript h (partialSector_body SectorSize d root offset length) w0) in *.
  set (o := result h (partialSector_body SectorSize d root offset length) w0) in *.
  assert (Hsame : forall X (f : event -> option X),
    (forall dl t, f (Ev (extendDeadline (conn d) dl) t) = None) ->
    omap f ([Ev (extendDeadline (conn d) NegotiateDownloadTime)
               (h _ (extendDeadline (conn d) NegotiateDownloadTime) w).1]
            ++ tr ++ [Ev (extendDeadline (conn d) Hour)
                        (h _ (extendDeadline (conn d) Hour)
                           (final h (partialSector_body SectorSize d root offset length)
                              w0)).1] ++ [])
    = omap f tr).
  { intros X f Hf. rewrite !omap_app. cbn [omap list_omap]. rewrite !Hf.
    cbn [app]. apply app_nil_r. }
  destruct Hs;
    [ eapply stage_range | eapply stage_quote | eapply stage_funds
    | eapply stage_send | eapply stage_proposed ];
    unfold quotes, balances, requests, proposals in *;
    try rewrite Hsame by reflexivity; eassumption.
Qed.

(** Whatever the host answers and whatever length is asked for, a revision
    proposed by [partialSector] moves the price of a whole sector at the
    quoted price from the renter to the host, and the renter's funds were
    checked against that amount. *)
Lemma partialSector_proposal (d : Downloader) (root : Hash) (offset length : Z)
    (w : W) (rev : FileContractRevision) :
  let tr := transcript h (partialSector SectorSize d root offset length) w in
  rev ∈ proposals tr ->
  exists q txn,
    quotes tr = [q] /\ balances tr = [txn] /\
    DownloadBandwidthPrice q * SectorSize <= RenterFunds txn /\
    HostOutput rev
    = HostOutput (CurrentRevision txn) + DownloadBandwidthPrice q * SectorSize /\
    RenterOutput rev
    = RenterOutput (CurrentRevision txn) - DownloadBandwidthPrice q * SectorSize /\
    NewRevisionNumber rev = NewRevisionNumber (CurrentRevision txn).
Proof.
  cbv zeta. intros Hin.
  destruct (partialSector_stage d root offset length w)
    as [? ? ? ? Hp|? ? ? ? ? ? Hp|? ? ? ? ? ? Hp|? ? ? ? ? ? ? Hp|q txn ? Hq Hb ? Hp Hf];
    rewrite Hp in Hin; try (apply elem_of_nil in Hin; contradiction).
  apply list_elem_of_singleton in Hin. subst rev.
  exists q, txn. repeat split; assumption || reflexivity.
Qed.

(** The range check of [partialSector] compares the sum of offset and
    length as a 32-bit sum: past that check the host is asked for its
    quote, short of it no call but the two deadline calls is made. *)
Lemma partialSector_range_check (d : Downloader) (root : Hash) (offset length : Z)
    (w : W) :
  let p := partialSector SectorSize d root offset length in
  (SectorSize < u32 (offset + length) ->
   quotes (transcript h p w) = [] /\ requests (transcript h p w) = [] /\
   result h p w = Returned (d, ([], Some (ErrNew "invalid sector range")))) /\
  (u32 (offset + length) <= SectorSize ->
   exists q, quotes (transcript h p w) = [q]).
Proof.
  cbv zeta. split; intros Hr;
    destruct (partialSector_stage d root offset length w); try lia; eauto.
Qed.

(** When offset and length are 32-bit values whose sum does not
    overflow, the check is the one on the sum itself. *)
Lemma partialSector_range_check_exact (d : Downloader) (root : Hash)
    (offset length : Z) (w : W) :
  0 <= offset -> 0 <= length -> offset + length < 2 ^ 32 ->
  let p := partialSector SectorSize d root offset length in
  (SectorSize < offset + length ->
   quotes (transcript h p w) = [] /\ requests (transcript h p w) = [] /\
   result h p w = Returned (d, ([], Some (ErrNew "invalid sector range")))) /\
  (offset + length <= SectorSize ->
   exists q, quotes (transcript h p w) = [q]).
Proof.
  intros Ho Hl Hsum.
  assert (Hu : u32 (offset + length) = offset + length)
    by (unfold u32; apply Z.mod_small; lia).
  pose proof (partialSector_range_check d root offset length w) as H.
  cbv zeta in *. rewrite Hu in H. exact H.
Qed.

(** ** The graceful stop *)

Lemma without_stop_update (d : Downloader) (txn : Transaction) (length : Z) (w : W) :
  exec (without_stop h) (partialSector_update SectorSize d txn length) w
  = exec h (partialSector_update SectorSize d txn length) w.
Proof.
  eapply exec_ext. apply partialSector_update_paths; intros; reflexivity.
Qed.

Lemma without_stop_body (d : Downloader) (root : Hash) (offset length : Z) (w : W) :
  let '(tr1, w1, o1) := exec h (partialSector_body SectorSize d root offset length) w in
  let '(tr2, w2, o2) :=
    exec (without_stop h) (partialSector_body SectorSize d root offset length) w in
  map question tr1 = map question tr2 /\ w1 = w2 /\ o1 = o2.
Proof.
  unfold partialSector_body.
  destruct (_ >? _); [cbn; auto|].
  cbn. destruct (h _ (startRevision _ _) w) as [[h1 [e|]] w1]; cbn; [auto|].
  destruct (h _ (GetTransaction _) w1) as [txn w2]; cbn.
  destruct (_ <? _); [cbn; auto|].
  cbn. destruct (h _ (WriteObject _ _) w2) as [[e|] w3]; cbn; [auto|].
  destruct (h _ (negotiateRevision _ _ _) w3) as [[signed [e|]] w4]; cbn.
  - destruct e; cbn;
      try (destruct (h _ (Close _) w4) as [[] w5]; cbn; auto).
    rewrite without_stop_update.
    destruct (exec h _ w4) as [[tr w5] o]. auto.
  - rewrite without_stop_update.
    destruct (exec h _ w4) as [[tr w5] o]. auto.
Qed.

Lemma without_stop_partialSector (d : Downloader) (root : Hash) (offset length : Z)
    (w : W) :
  let p := partialSector SectorSize d root offset length in
  map question (transcript h p w) = map question (transcript (without_stop h) p w) /\
  final h p w = final (without_stop h) p w /\
  result h p w = result (without_stop h) p w.
Proof.
  cbv zeta. unfold transcript, final, result, partialSector. cbn.
  destruct (h _ (extendDeadline (conn d) NegotiateDownloadTime) w) as [[] w0].
  rewrite !exec_bind.
  pose proof (without_stop_body d root offset length w0) as Hb.
  destruct (exec h (partialSector_body SectorSize d root offset length) w0)
    as [[tr1 w1] o1].
  destruct (exec (without_stop h) (partialSector_body SectorSize d root offset length) w0)
    as [[tr2 w2] o2].
  destruct Hb as (Htr & <- & <-). cbn.
  destruct (h _ (extendDeadline (conn d) Hour) w1) as [[] w3]. cbn.
  rewrite !map_app, Htr. auto.
Qed.

(** The calls after the negotiation begin with recording the first
    revision of the transaction the host gave back. *)
Lemma records_update (d : Downloader) (txn : Transaction) (length : Z) (w : W)
    (rev0 : FileContractRevision) (revs : list FileContractRevision) :
  FileContractRevisions txn = rev0 :: revs ->
  records (transcript h (partialSector_update SectorSize d txn length) w) = [rev0].
Proof.
  intros Htxn. unfold partialSector_update. rewrite Htxn.
  rewrite transcript_bind, transcript_perform, result_perform, final_perform.
  destruct (h _ (SyncWithHost _ _ _) w) as [[e|] w1]; cbn [fst snd];
    [reflexivity|].
  unfold records. cbn [omap list_omap record app].
  rewrite (omap_silent h record (keeps d)); [reflexivity|].
  eapply all_paths_bind; [apply UnmarshalSia_paths; intros; reflexivity|].
  intros [[sb [e|]]|] _; cbn.
  - constructor; [intros; reflexivity | intros; constructor; cbn; auto].
  - destruct (negb _); cbn; [|constructor; cbn; auto].
    constructor; [intros; reflexivity | intros; constructor; cbn; auto].
  - constructor. exact I.
Qed.

Lemma stop_records_body (d : Downloader) (root : Hash) (offset length : Z) (w : W)
    (txn : Transaction) (rev0 : FileContractRevision)
    (revs : list FileContractRevision) :
  let tr := transcript h (partialSector_body SectorSize d root offset length) w in
  verdicts tr = [(txn, Some ErrStopResponse)] ->
  FileContractRevisions txn = rev0 :: revs ->
  records tr = [rev0].
Proof.
  cbv zeta. unfold partialSector_body.
  destruct (_ >? _); [discriminate|].
  rewrite transcript_bind, transcript_perform, result_perform, final_perform.
  destruct (h _ (startRevision _ _) w) as [[h1 [e|]] w1]; cbn [fst snd];
    [discriminate|].
  rewrite transcript_bind, transcript_perform, result_perform, final_perform.
  destruct (h _ (GetTransaction _) w1) as [ctxn w2]; cbn [fst snd].
  destruct (_ <? _); [discriminate|].
  rewrite transcript_bind, transcript_perform, result_perform, final_perform.
  destruct (h _ (WriteObject _ _) w2) as [[e|] w3]; cbn [fst snd];
    [discriminate|].
  rewrite transcript_bind, transcript_perform, result_perform, final_perform.
  destruct (h _ (negotiateRevision _ _ _) w3) as [[signed e] w4]; cbn [fst snd].
  assert (Hquiet :
    verdicts (transcript h
      (partialSector_update SectorSize (set_host d h1) signed length) w4) = []).
  { eapply omap_silent. apply partialSector_update_paths; intros; reflexivity. }
  unfold verdicts, records in *. rewrite !omap_app.
  cbn [omap list_omap verdict_of record app].
  destruct e as [[]|]; run1; cbn [omap list_omap verdict_of record app];
    try discriminate.
  rewrite Hquiet. intros [= <-] Htxn.
  eapply (records_update (set_host d h1)). exact Htxn.
Qed.

(** C6.  Whatever the host and the state of the exchange: a run of
    partialSector in which the host answers the proposed revision with the
    graceful stop signal makes the same calls, leaves the same state and
    gives the same result (the same data and error, or the same panic) as
    the run in which the host answers with no error at all; and when the
    stop answer carries the countersigned revision, the call goes on to
    record exactly that revision in the contract editor. *)
Theorem graceful_stop_is_not_a_failure
    (d : Downloader) (root : Hash) (offset length : Z) (w : W) :
  let p := partialSector SectorSize d root offset length in
  (map question (transcript h p w) = map question (transcript (without_stop h) p w) /\
   final h p w = final (without_stop h) p w /\
   result h p w = result (without_stop h) p w) /\
  (forall txn rev0 revs,
     verdicts (transcript h p w) = [(txn, Some ErrStopResponse)] ->
     FileContractRevisions txn = rev0 :: revs ->
     records (transcript h p w) = [rev0]).
Proof.
  cbv zeta. split; [apply without_stop_partialSector|].
  intros txn rev0 revs. unfold partialSector.
  rewrite !transcript_bind, !transcript_perform, transcript_Ret.
  unfold verdicts, records. rewrite !omap_app.
  cbn [omap list_omap verdict_of record app]. rewrite !app_nil_r.
  apply stop_records_body.
Qed.

(** ** Reconnecting *)

(** C8.  Whatever the host does: PartialSector runs one exchange; if that
    exchange ends with no error, or with an error that is not a transport
    disconnect, its result is returned as it is and nothing else happens;
    if it ends with a transport disconnect, the connection of the session
    is closed and one handshake is made, for the download RPC, with the
    host's address and the session's contract; when the handshake fails
    its error is returned, otherwise exactly one more exchange runs on the
    new connection and its result is returned, a disconnect included.  A
    transcript never holds more than two exchanges or more than one
    handshake. *)
Theorem PartialSector_retries_once
    (d : Downloader) (root : Hash) (offset length : Z) (w : W) :
  let first := partialSector SectorSize d root offset length in
  let whole := PartialSector SectorSize d root offset length in
  match result h first w with
  | Panicked =>
      transcript h whole w = transcript h first w /\
      final h whole w = final h first w /\
      result h whole w = Panicked
  | Returned (d1, (data, err)) =>
      if isHostDisconnect err then
        let hangup := h _ (Close (conn d)) (final h first w) in
        let dial := initiateRPC (NetAddress (host d1)) RPCDownload (contract d) in
        let '((c, err3), w3) := h _ dial hangup.2 in
        let again := partialSector SectorSize (set_conn d1 c) root offset length in
        match err3 with
        | Some e =>
            transcript h whole w
            = transcript h first w
              ++ [Ev (Close (conn d)) hangup.1; Ev dial (c, err3)] /\
            final h whole w = w3 /\
            result h whole w = Returned (set_conn d1 c, ([], Some e)) /\
            exchanges (transcript h whole w) = [conn d]
        | None =>
            transcript h whole w
            = transcript h first w
              ++ [Ev (Close (conn d)) hangup.1; Ev dial (c, err3)]
              ++ transcript h again w3 /\
            final h whole w = final h again w3 /\
            result h whole w = result h again w3 /\
            exchanges (transcript h whole w) = [conn d; c]
        end /\
        handshakes (transcript h whole w)
        = [(NetAddress (host d1), RPCDownload, contract d)]
      else
        transcript h whole w = transcript h first w /\
        final h whole w = final h first w /\
        result h whole w = Returned (d1, (data, err)) /\
        exchanges (transcript h whole w) = [conn d] /\
        handshakes (transcript h whole w) = []
  end.
Proof.
  cbv zeta. unfold PartialSector.
  rewrite transcript_bind, final_bind, result_bind.
  pose proof (partialSector_one_exchange d root offset length w) as (Hx1 & Hh1 & Hk1).
  cbv zeta in Hx1, Hh1, Hk1.
  destruct (result h (partialSector SectorSize d root offset length) w)
    as [[d1 [data err]]|]; [|run1; rewrite app_nil_r; auto].
  destruct Hk1 as [Hconn Hcontract]. rewrite Hconn, Hcontract.
  destruct (isHostDisconnect err); [|run1; rewrite app_nil_r; auto].
  run1.
  set (w1 := final h (partialSector SectorSize d root offset length) w).
  destruct (h _ (initiateRPC _ _ _) (h _ (Close (conn d)) w1).2) as [[c [e|]] w3];
    cbn [fst snd]; run1.
  - unfold exchanges, handshakes in *. rewrite !omap_app, Hx1, Hh1. auto.
  - pose proof (partialSector_one_exchange (set_conn d1 c) root offset length w3)
      as (Hx4 & Hh4 & _).
    cbv zeta in Hx4, Hh4.
    unfold exchanges, handshakes, reply in *.
    rewrite !omap_app, Hx1, Hh1, Hx4, Hh4. auto.
Qed.

End Exchange.

(** ** Runs against the scripted host *)

(** C1, on a request shorter than a sector.  With sectors of 4194304 bytes and a host
    charging 1 per byte, a request for 4 bytes: a contract with 1000 left
    to the renter, which covers 4 bytes, is refused for insufficient funds
    before anything is requested; and with 10000000 left the call
    succeeds and the one revision proposed and recorded pays the host
    4194304 more than the prior revision, not 4. *)
Theorem PartialSector_charges_a_whole_sector :
  let poor := serving 1000 None [x0a; x0b; x0c; x0d] 0 in
  let rich := serving 10000000 None [x0a; x0b; x0c; x0d] 0 in
  let p := PartialSector SiaSectorSize (client host1) [x01] 0 4 in
  DownloadBandwidthPrice host1 * 4 <= RenterFunds (ledger poor) /\
  returns (result scripted p poor)
  = Some ([], Some (ErrNew "contract has insufficient funds to support download")) /\
  requests (transcript scripted p poor) = [] /\
  returns (result scripted p rich) = Some ([x0a; x0b; x0c; x0d], None) /\
  proposals (transcript scripted p rich)
  = [ {| NewRevisionNumber := 7; RenterOutput := 10000000 - 4194304;
         HostOutput := 0 + 4194304 |} ] /\
  records (transcript scripted p rich) = proposals (transcript scripted p rich) /\
  HostOutput (CurrentRevision (ledger (final scripted p rich)))
  - HostOutput (CurrentRevision (ledger rich)) = 4194304.
Proof.
  cbv zeta. split; [vm_compute; discriminate|].
  repeat (match goal with |- _ /\ _ => split end); vm_compute; reflexivity.
Qed.

(** C7, where the sum overflows.  With sectors of 4194304 bytes, offset
    4294967295 and length 2 sum to 4294967297, past the end of the
    sector; the 32-bit sum is 1, the range check passes, the two bytes
    are requested from the host at that offset and the call returns what
    the host sends, with no error. *)
Theorem PartialSector_range_check_wraps :
  let w := serving 10000000 None [x0a; x0b] 0 in
  let p := PartialSector SiaSectorSize (client host1) [x01] 4294967295 2 in
  SiaSectorSize < 4294967295 + 2 /\
  u32 (4294967295 + 2) = 1 /\
  requests (transcript scripted p w)
  = [[ {| MerkleRoot := [x01]; Offset := 4294967295; Length := 2 |} ]] /\
  returns (result scripted p w) = Some ([x0a; x0b], None).
Proof.
  cbv zeta. split; [vm_compute; reflexivity|].
  repeat (match goal with |- _ /\ _ => split end); vm_compute; reflexivity.
Qed.

Lemma graceful_stop_is_not_a_failure_witness :
  let w := serving 10000000 (Some ErrStopResponse) [x0a; x0b; x0c; x0d] 0 in
  let p := partialSector SiaSectorSize (client host1) [x01] 0 4 in
  records (transcript scripted p w)
  = [ {| NewRevisionNumber := 7; RenterOutput := 10000000 - 4194304;
         HostOutput := 0 + 4194304 |} ].
Proof.
  cbv zeta.
  apply (proj2 (graceful_stop_is_not_a_failure SiaSectorSize scripted
                  (client host1) [x01] 0 4
                  (serving 10000000 (Some ErrStopResponse) [x0a; x0b; x0c; x0d] 0))
           (mkTxn [ {| NewRevisionNumber := 7; RenterOutput := 10000000 - 4194304;
                       HostOutput := 0 + 4194304 |} ] [[]])
           _ []);
    vm_compute; reflexivity.
Defined.

(** The stop answer against the scripted host: the four bytes come back
    with no error. *)
Example graceful_stop_run :
  let w := serving 10000000 (Some ErrStopResponse) [x0a; x0b; x0c; x0d] 0 in
  returns (result scripted (partialSector SiaSectorSize (client host1) [x01] 0 4) w)
  = Some ([x0a; x0b; x0c; x0d], None).
Proof. vm_compute. reflexivity. Qed.

(** One dropped connection is recovered, two are not. *)
Example reconnect_runs :
  let p := PartialSector SiaSectorSize (client host1) [x01] 0 4 in
  returns (result scripted p (serving 10000000 None [x0a; x0b; x0c; x0d] 1))
  = Some ([x0a; x0b; x0c; x0d], None) /\
  exchanges (transcript scripted p (serving 10000000 None [x0a; x0b; x0c; x0d] 1))
  = [0%nat; 1%nat] /\
  returns (result scripted p (serving 10000000 None [x0a; x0b; x0c; x0d] 2))
  = Some ([], Some ErrDisconnect) /\
  exchanges (transcript scripted p (serving 10000000 None [x0a; x0b; x0c; x0d] 2))
  = [0%nat; 1%nat].
Proof. cbv zeta. repeat (match goal with |- _ /\ _ => split end); vm_compute; reflexivity. Qed.

End DownloaderFacts.

(** * More facts about the metadata store *)

Module MetaDBMore.
Import Renterutil MetaDBFacts.

(** ** Keys of the Bolt buckets *)

Lemma le_value_le_bytes (n : nat) (z : Z) :
  le_value (le_bytes n z) = z mod 256 ^ Z.of_nat n.
Proof.
  revert z. induction n as [|n IH]; intros z.
  - simpl. rewrite Z.mod_1_r. reflexivity.
  - cbn [le_bytes le_value]. rewrite IH.
    rewrite Ascii.N_ascii_embedding.
    + rewrite Z2N.id by (apply Z.mod_pos_bound; lia).
      replace (256 ^ Z.of_nat (S n)) with (256 * 256 ^ Z.of_nat n)
        by (rewrite Nat2Z.inj_succ, Z.pow_succ_r; lia).
      rewrite Z.rem_mul_r by lia. reflexivity.
    + assert (0 <= z mod 256 < 256) by (apply Z.mod_pos_bound; lia). lia.
Qed.

Lemma le_value_PutUint64 (id : Z) : le_value (PutUint64 id) = u64 id.
Proof.
  unfold PutUint64. rewrite le_value_le_bytes.
  change (256 ^ Z.of_nat 8) with (2 ^ 64). unfold u64.
  apply Z.mod_mod. lia.
Qed.

Lemma PutUint64_inj (a b : Z) : PutUint64 a = PutUint64 b -> u64 a = u64 b.
Proof.
  intros H. rewrite <- (le_value_PutUint64 a), <- (le_value_PutUint64 b), H.
  reflexivity.
Qed.

Lemma PutUint64_length (id : Z) : String.length (PutUint64 id) = 8%nat.
Proof. reflexivity. Qed.

Lemma Put_PutUint64 {V} (id : Z) (v : V) (b : Bucket V) :
  Put (PutUint64 id) v b
  = (mkBucket (<[PutUint64 id := v]> (entries b)) (sequence b), None).
Proof. reflexivity. Qed.


(** ** Metadata *)

(** X1.  On the in-memory backend AddMetadata never fails, Metadata then
    gives back the value stored last under the key, the empty value
    included, and reads every other key as before; a key that was never
    stored fails with the key-not-found error and a nil slice. *)
Theorem Ephemeral_Metadata_round_trip (key val : string) (e : EphemeralMetaDB) :
  (exists e',
     Ephemeral.AddMetadata key val e = Returned (e', None) /\
     Ephemeral.Metadata key e' = Returned (Some val, None) /\
     (forall k, k <> key -> Ephemeral.Metadata k e' = Ephemeral.Metadata k e) /\
     (forall val', exists e'',
        Ephemeral.AddMetadata key val' e' = Returned (e'', None) /\
        Ephemeral.Metadata key e'' = Returned (Some val', None))) /\
  (Ephemeral.Metadata key e = Returned (None, Some ErrKeyNotFound)
   <-> meta e !! key = None).
Proof.
  split.
  - eexists. split; [reflexivity|]. unfold Ephemeral.Metadata. simpl. split; [|split].
    + rewrite lookup_insert_eq. reflexivity.
    + intros k Hne. rewrite lookup_insert_ne by congruence. reflexivity.
    + intros val'. eexists. split; [reflexivity|]. simpl.
      rewrite lookup_insert_eq. reflexivity.
  - unfold Ephemeral.Metadata. destruct (meta e !! key); split; congruence.
Qed.



(** X3.  On the Bolt backend an empty value is stored but cannot be read
    back: Metadata reports the key as not found, exactly as for a key
    that was never stored (on the in-memory backend the empty value comes
    back with no error, X1).  An empty key is refused by AddMetadata with
    Bolt's key-required error and the store stays as it was. *)
Theorem Bolt_Metadata_empty_value (key val : string) (d : BoltMetaDB) :
  0 < Z.of_nat (String.length key) <= MaxKeySize ->
  (exists d',
     Bolt.AddMetadata key "" d = Returned (d', None) /\
     Get key (bucketMeta d') = Some "" /\
     Bolt.Metadata key d' = Returned (None, Some ErrKeyNotFound)) /\
  (Get key (bucketMeta d) = None ->
   Bolt.Metadata key d = Returned (None, Some ErrKeyNotFound)) /\
  Bolt.AddMetadata "" val d = Returned (d, Some ErrKeyRequired).
Proof.
  intros Hk. split; [|split].
  - unfold Bolt.AddMetadata, Bolt.Update, Put.
    destruct (Z.eqb_spec (Z.of_nat (String.length key)) 0) as [H0|_]; [lia|].
    destruct (Z.gtb_spec (Z.of_nat (String.length key)) MaxKeySize) as [H1|_]; [lia|].
    simpl. eexists. split; [reflexivity|]. unfold Bolt.Metadata, Get. simpl.
    rewrite lookup_insert_eq. split; reflexivity.
  - intros Hg. unfold Bolt.Metadata. rewrite Hg. reflexivity.
  - reflexivity.
Qed.

Lemma Bolt_Metadata_empty_value_witness :
  (exists d',
     Bolt.AddMetadata "tag" "" NewBoltMetaDB = Returned (d', None) /\
     Get "tag" (bucketMeta d') = Some "" /\
     Bolt.Metadata "tag" d' = Returned (None, Some ErrKeyNotFound)) /\
  (Get "tag" (bucketMeta NewBoltMetaDB) = None ->
   Bolt.Metadata "tag" NewBoltMetaDB = Returned (None, Some ErrKeyNotFound)) /\
  Bolt.AddMetadata "" "v" NewBoltMetaDB = Returned (NewBoltMetaDB, Some ErrKeyRequired).
Proof.
  apply (Bolt_Metadata_empty_value "tag" "v" NewBoltMetaDB).
  vm_compute. split; [reflexivity | discriminate].
Defined.

(** ** Blobs *)

(** X4.  After DeleteBlob has returned, Blob of the same key fails with
    the key-not-found error on both backends, whether or not the key was
    live before, and every other key reads as before. *)
Theorem Blob_after_DeleteBlob
    (key : string) (e e' : EphemeralMetaDB) (err : option error) (d : BoltMetaDB) :
  Ephemeral.DeleteBlob key e = Returned (e', err) ->
  (err = None /\
   Ephemeral.Blob key e'
   = Returned ({| Key := ""; Chunks := []; Seed := [] |}, Some ErrKeyNotFound) /\
   forall k, k <> key -> Ephemeral.Blob k e' = Ephemeral.Blob k e) /\
  (exists d',
     Bolt.DeleteBlob key d = Returned (d', None) /\
     Bolt.Blob key d'
     = Returned ({| Key := key; Chunks := []; Seed := [] |}, Some ErrKeyNotFound) /\
     forall k, k <> key -> Bolt.Blob k d' = Bolt.Blob k d).
Proof.
  intros H. split.
  - unfold Ephemeral.DeleteBlob in H. unfold Ephemeral.Blob.
    destruct (blobs e !! key) as [b|] eqn:Hb.
    + destruct (Ephemeral.release_chunks _ _ _) as [r|]; simpl in H; [|discriminate].
      injection H as <- <-. simpl. rewrite lookup_delete_eq.
      split; [reflexivity|]. split; [reflexivity|].
      intros k Hne. rewrite lookup_delete_ne by congruence. reflexivity.
    + injection H as <- <-. rewrite Hb. auto.
  - rewrite Bolt_DeleteBlob_eq. eexists. split; [reflexivity|].
    unfold Bolt.Blob, Get. simpl. rewrite lookup_delete_eq.
    split; [reflexivity|].
    intros k Hne. rewrite lookup_delete_ne by congruence. reflexivity.
Qed.

Lemma Blob_after_DeleteBlob_witness :
  exists e',
    Ephemeral.DeleteBlob "k" (set_blobs one_chunk {[ "k" := blobK ]})
    = Returned (e', None) /\
    (None = None :> option error /\
     Ephemeral.Blob "k" e'
     = Returned ({| Key := ""; Chunks := []; Seed := [] |}, Some ErrKeyNotFound) /\
     forall k, k <> "k" ->
       Ephemeral.Blob k e'
       = Ephemeral.Blob k (set_blobs one_chunk {[ "k" := blobK ]})) /\
    (exists d',
       Bolt.DeleteBlob "k" NewBoltMetaDB = Returned (d', None) /\
       Bolt.Blob "k" d'
       = Returned ({| Key := "k"; Chunks := []; Seed := [] |}, Some ErrKeyNotFound) /\
       forall k, k <> "k" -> Bolt.Blob k d' = Bolt.Blob k NewBoltMetaDB).
Proof.
  eexists. split; [vm_compute; reflexivity|].
  apply (Blob_after_DeleteBlob "k" (set_blobs one_chunk {[ "k" := blobK ]})).
  vm_compute. reflexivity.
Defined.


(** ** Chunks *)

Lemma index_insert_ne {A} (l : list A) (j : nat) (x : A) (i : Z) :
  Z.to_nat i <> j -> index (<[j := x]> l) i = index l i.
Proof.
  intros Hne. unfold index. rewrite length_insert.
  rewrite list_lookup_insert_ne by congruence. reflexivity.
Qed.

Lemma index_insert_eq {A} (l : list A) (x a : A) (i : Z) :
  index l i = Returned a -> index (<[Z.to_nat i := x]> l) i = Returned x.
Proof.
  intros H. apply index_Returned in H as [Hr Hl].
  apply index_Returned. rewrite length_insert. split; [exact Hr|].
  apply list_lookup_insert_eq. lia.
Qed.

(** X5.  On the in-memory backend, when SetChunkShard returns it returns
    no error, and Chunk of the same id then gives the chunk as it was with
    slot [i] holding [s]: same id, threshold, length and number of slots.
    Every other chunk, and the shards and blobs, are as before. *)
Theorem Ephemeral_SetChunkShard_then_Chunk
    (id i s : Z) (e e' : EphemeralMetaDB) (err : option error) :
  Z.of_nat (length (chunks e)) < 2 ^ 64 ->
  0 <= id < 2 ^ 64 ->
  Ephemeral.SetChunkShard id i s e = Returned (e', err) ->
  err = None /\
  exists c,
    Ephemeral.Chunk id e = Returned (c, None) /\
    0 <= i < Z.of_nat (length (Shards c)) /\
    Ephemeral.Chunk id e'
    = Returned (set_Shards c (<[Z.to_nat i := s]> (Shards c)), None) /\
    <[Z.to_nat i := s]> (Shards c) !! Z.to_nat i = Some s /\
    (forall id', 0 <= id' < 2 ^ 64 -> id' <> id ->
       Ephemeral.Chunk id' e' = Ephemeral.Chunk id' e) /\
    shards e' = shards e /\ blobs e' = blobs e.
Proof.
  intros Hlen Hid He.
  unfold Ephemeral.SetChunkShard in He.
  destruct (index (chunks e) (u64 (id - 1))) as [c|] eqn:Hc; simpl in He;
    [|discriminate].
  destruct (index (Shards c) i) as [old|] eqn:Ho; simpl in He; [|discriminate].
  injection He as <- <-. split; [reflexivity|]. exists c.
  pose proof Hc as Hc'. apply index_Returned in Hc' as [Hr _].
  assert (Hid0 : id <> 0).
  { intros ->. change (u64 (0 - 1)) with (2 ^ 64 - 1) in Hr. lia. }
  pose proof Ho as Ho'. apply index_Returned in Ho' as [Hir _].
  unfold Ephemeral.Chunk. destruct (Z.eqb_spec id 0) as [?|_]; [contradiction|].
  simpl. rewrite Hc. simpl.
  rewrite (index_insert_eq _ _ _ _ Hc). simpl.
  repeat split; try lia.
  - apply list_lookup_insert_eq. lia.
  - intros id' Hid' Hne. destruct (Z.eqb_spec id' 0) as [?|Hne0]; [reflexivity|].
    rewrite index_insert_ne; [reflexivity|].
    rewrite !u64_small by lia. rewrite !u64_small in Hr by lia. lia.
Qed.

Lemma Ephemeral_SetChunkShard_then_Chunk_witness :
  exists e',
    Ephemeral.SetChunkShard 1 0 7 one_chunk = Returned (e', None) /\
    (None = None :> option error /\
     exists c,
       Ephemeral.Chunk 1 one_chunk = Returned (c, None) /\
       0 <= 0 < Z.of_nat (length (Shards c)) /\
       Ephemeral.Chunk 1 e'
       = Returned (set_Shards c (<[Z.to_nat 0 := 7]> (Shards c)), None) /\
       <[Z.to_nat 0 := 7]> (Shards c) !! Z.to_nat 0 = Some 7 /\
       (forall id', 0 <= id' < 2 ^ 64 -> id' <> 1 ->
          Ephemeral.Chunk id' e' = Ephemeral.Chunk id' one_chunk) /\
       shards e' = shards one_chunk /\ blobs e' = blobs one_chunk).
Proof.
  eexists. split; [vm_compute; reflexivity|].
  apply (Ephemeral_SetChunkShard_then_Chunk 1 0 7 one_chunk).
  - vm_compute. reflexivity.
  - lia.
  - vm_compute. reflexivity.
Defined.

(** X6.  On the Bolt backend, for a chunk that is stored and a slot in
    its range, SetChunkShard returns no error and Chunk of the same id
    then gives the chunk as it was with slot [i] holding [s]; the chunks
    of all other ids, and the shards and blobs, are as before. *)
Theorem Bolt_SetChunkShard_then_Chunk
    (id i s : Z) (d : BoltMetaDB) (c : DBChunk) :
  Bolt.Chunk id d = Returned (c, None) ->
  0 <= i < Z.of_nat (length (Shards c)) ->
  exists d',
    Bolt.SetChunkShard id i s d = Returned (d', None) /\
    Bolt.Chunk id d'
    = Returned (set_Shards c (<[Z.to_nat i := s]> (Shards c)), None) /\
    <[Z.to_nat i := s]> (Shards c) !! Z.to_nat i = Some s /\
    (forall id', u64 id' <> u64 id -> Bolt.Chunk id' d' = Bolt.Chunk id' d) /\
    bucketShards d' = bucketShards d /\ bucketBlobs d' = bucketBlobs d.
Proof.
  intros Hd Hi. unfold Bolt.Chunk, Get in Hd.
  destruct (entries (bucketChunks d) !! PutUint64 id) as [c'|] eqn:Hc;
    [|discriminate].
  injection Hd as ->.
  assert (Hidx : exists old, index (Shards c) i = Returned old).
  { destruct (lookup_lt_is_Some_2 (Shards c) (Z.to_nat i)) as [old Hold]; [lia|].
    exists old. apply index_Returned. auto. }
  destruct Hidx as [old Hidx].
  unfold Bolt.SetChunkShard, Bolt.Update, Get. rewrite Hc. rewrite Hidx. simpl.
  eexists. split; [reflexivity|]. unfold Bolt.Chunk, Get. simpl.
  rewrite lookup_insert_eq. split; [reflexivity|].
  split; [apply list_lookup_insert_eq; lia|].
  split; [|split; reflexivity].
  intros id' Hne. rewrite lookup_insert_ne; [reflexivity|].
  intros Heq. apply PutUint64_inj in Heq. congruence.
Qed.

(** A Bolt store with one chunk of three empty slots. *)
Lemma Bolt_SetChunkShard_then_Chunk_witness :
  exists d0 c0,
    Bolt.AddChunk 2 3 5 NewBoltMetaDB = Returned (d0, (c0, None)) /\
    exists d',
      Bolt.SetChunkShard 1 2 9 d0 = Returned (d', None) /\
      Bolt.Chunk 1 d'
      = Returned (set_Shards c0 (<[Z.to_nat 2 := 9]> (Shards c0)), None) /\
      <[Z.to_nat 2 := 9]> (Shards c0) !! Z.to_nat 2 = Some 9 /\
      (forall id', u64 id' <> u64 1 -> Bolt.Chunk id' d' = Bolt.Chunk id' d0) /\
      bucketShards d' = bucketShards d0 /\ bucketBlobs d' = bucketBlobs d0.
Proof.
  do 2 eexists. split; [vm_compute; reflexivity|].
  apply Bolt_SetChunkShard_then_Chunk.
  - vm_compute. reflexivity.
  - vm_compute. split; [discriminate | reflexivity].
Defined.

(** X7.  SetChunkShard outside its bounds.  The in-memory backend
    panics exactly when the chunk id is 0 or beyond the chunks added, or
    the slot is not one of the chunk's; it never returns an error.  The
    Bolt backend returns a decoding error, with the store unchanged, for
    an id it does not hold, and panics for a slot outside the range of a
    chunk it holds. *)
Theorem SetChunkShard_out_of_range
    (id i s : Z) (e : EphemeralMetaDB) (d : BoltMetaDB) :
  Z.of_nat (length (chunks e)) < 2 ^ 64 ->
  0 <= id < 2 ^ 64 ->
  (Ephemeral.SetChunkShard id i s e = Panicked <->
   id = 0 \/ Z.of_nat (length (chunks e)) < id \/
   exists c, chunks e !! Z.to_nat (id - 1) = Some c /\
             ~ (0 <= i < Z.of_nat (length (Shards c)))) /\
  (forall e' err, Ephemeral.SetChunkShard id i s e = Returned (e', err) -> err = None) /\
  (Get (PutUint64 id) (bucketChunks d) = None ->
   Bolt.SetChunkShard id i s d = Returned (d, Some ErrDecode)) /\
  (forall c, Get (PutUint64 id) (bucketChunks d) = Some c ->
     ~ (0 <= i < Z.of_nat (length (Shards c))) ->
     Bolt.SetChunkShard id i s d = Panicked).
Proof.
  intros Hlen Hid. split; [|split; [|split]].
  - unfold Ephemeral.SetChunkShard.
    destruct (index (chunks e) (u64 (id - 1))) as [c|] eqn:Hc; simpl.
    + pose proof Hc as Hc'. apply index_Returned in Hc' as [Hr Hl].
      assert (Hid0 : id <> 0).
      { intros ->. change (u64 (0 - 1)) with (2 ^ 64 - 1) in Hr. lia. }
      rewrite u64_small in Hr, Hl by lia.
      destruct (index (Shards c) i) as [old|] eqn:Ho; simpl.
      * apply index_Returned in Ho as [Hir _]. split; [discriminate|].
        intros [?|[?|(c' & Hc' & Hn)]]; try lia.
        rewrite Hl in Hc'. injection Hc' as <-. contradiction.
      * apply index_Panicked in Ho. split; [|reflexivity]. intros _.
        right. right. exists c. auto.
    + apply index_Panicked in Hc. split; [|reflexivity]. intros _.
      destruct (Z.eq_dec id 0) as [->|Hne]; [left; reflexivity|].
      rewrite u64_small in Hc by lia. right. left. lia.
  - intros e' err H. unfold Ephemeral.SetChunkShard in H.
    destruct (index (chunks e) (u64 (id - 1))) as [c|]; simpl in H; [|discriminate].
    destruct (index (Shards c) i); simpl in H; [|discriminate].
    injection H as _ <-. reflexivity.
  - intros Hg. unfold Bolt.SetChunkShard, Bolt.Update. rewrite Hg. reflexivity.
  - intros c Hg Hn. unfold Bolt.SetChunkShard, Bolt.Update. rewrite Hg.
    apply index_Panicked in Hn. rewrite Hn. reflexivity.
Qed.

Lemma SetChunkShard_out_of_range_witness :
  (Ephemeral.SetChunkShard 1 1 7 one_chunk = Panicked <->
   1 = 0 \/ Z.of_nat (length (chunks one_chunk)) < 1 \/
   exists c, chunks one_chunk !! Z.to_nat (1 - 1) = Some c /\
             ~ (0 <= 1 < Z.of_nat (length (Shards c)))) /\
  (forall e' err,
     Ephemeral.SetChunkShard 1 1 7 one_chunk = Returned (e', err) -> err = None) /\
  (Get (PutUint64 1) (bucketChunks NewBoltMetaDB) = None ->
   Bolt.SetChunkShard 1 1 7 NewBoltMetaDB = Returned (NewBoltMetaDB, Some ErrDecode)) /\
  (forall c, Get (PutUint64 1) (bucketChunks NewBoltMetaDB) = Some c ->
     ~ (0 <= 1 < Z.of_nat (length (Shards c))) ->
     Bolt.SetChunkShard 1 1 7 NewBoltMetaDB = Panicked).
Proof.
  apply (SetChunkShard_out_of_range 1 1 7 one_chunk NewBoltMetaDB).
  - vm_compute. reflexivity.
  - lia.
Defined.


(** ** Chunks created with their shards *)

Lemma Ephemeral_add_shards (ss : list DBShard) (db : EphemeralMetaDB) :
  Z.of_nat (length (shards db)) + Z.of_nat (length ss) < 2 ^ 64 ->
  Ephemeral.add_shards ss db
  = Returned (set_shards db (shards db ++ ss),
              (seqZ (Z.of_nat (length (shards db)) + 1) (Z.of_nat (length ss)), None)).
Proof.
  revert db. induction ss as [|s ss IH]; intros db Hlen.
  - simpl. rewrite app_nil_r. destruct db; reflexivity.
  - cbn [Ephemeral.add_shards]. unfold Ephemeral.AddShard. cbn [obind fst snd].
    cbn [length] in Hlen.
    rewrite IH by (cbn [shards set_shards]; rewrite length_app; simpl; lia).
    cbn [obind fst snd shards set_shards].
    rewrite length_app. cbn [length].
    rewrite u64_small by lia.
    rewrite <- app_assoc. cbn [app].
    rewrite (seqZ_cons _ (Z.of_nat (S (length ss)))) by lia.
    unfold set_shards. cbn [chunks blobs refs meta].
    do 3 f_equal. f_equal; [lia|]. f_equal; lia.
Qed.

(** X8.  On the in-memory backend AddChunkAndShards never fails: it
    appends the shards in order, gives them the next ids, and returns a
    chunk with the next chunk id whose slots are those ids, so that Shard
    of slot [i] is the [i]-th shard handed in and Chunk of the returned id
    is the returned chunk.  The shards stored before keep their ids, and
    the reference counts are left as they were: the new slots are not
    counted. *)
Theorem Ephemeral_AddChunkAndShards_round_trip
    (m length : Z) (ss : list DBShard) (e : EphemeralMetaDB) :
  Z.of_nat (List.length (shards e)) + Z.of_nat (List.length ss) < 2 ^ 64 ->
  Z.of_nat (List.length (chunks e)) < 2 ^ 64 - 1 ->
  exists e' c,
    Ephemeral.AddChunkAndShards m length ss e = Returned (e', (c, None)) /\
    c = {| ID := Z.of_nat (List.length (chunks e)) + 1;
           Shards := seqZ (Z.of_nat (List.length (shards e)) + 1)
                       (Z.of_nat (List.length ss));
           MinShards := u8 m; Len := length |} /\
    (forall i s, ss !! i = Some s ->
       Ephemeral.Shard (Z.of_nat (List.length (shards e)) + Z.of_nat i + 1) e'
       = Returned (s, None)) /\
    Ephemeral.Chunk (ID c) e' = Returned (c, None) /\
    (forall id s, Ephemeral.Shard id e = Returned (s, None) ->
       Ephemeral.Shard id e' = Returned (s, None)) /\
    refs e' = refs e /\ blobs e' = blobs e.
Proof.
  intros Hs Hc. unfold Ephemeral.AddChunkAndShards.
  rewrite Ephemeral_add_shards by exact Hs. cbn [obind fst snd chunks set_shards].
  rewrite (u64_small (Z.of_nat _)) by lia. rewrite u64_small by lia.
  do 2 eexists. split; [reflexivity|]. split; [reflexivity|].
  cbn [ID]. split; [|split; [|split; [|split; reflexivity]]].
  - intros i s Hi. unfold Ephemeral.Shard. cbn [shards set_chunks set_shards].
    pose proof (lookup_lt_Some _ _ _ Hi) as Hlt.
    rewrite u64_small by lia.
    assert (Hidx : index (shards e ++ ss)
                     (Z.of_nat (List.length (shards e)) + Z.of_nat i + 1 - 1)
                   = Returned s).
    { apply index_Returned. rewrite length_app. split; [lia|].
      replace (Z.to_nat (Z.of_nat (List.length (shards e)) + Z.of_nat i + 1 - 1))
        with (List.length (shards e) + i)%nat by lia.
      rewrite lookup_app_r by lia.
      replace (List.length (shards e) + i - List.length (shards e))%nat with i by lia.
      exact Hi. }
    rewrite Hidx. reflexivity.
  - unfold Ephemeral.Chunk.
    destruct (Z.eqb_spec (Z.of_nat (List.length (chunks e)) + 1) 0) as [?|_]; [lia|].
    cbn [chunks set_chunks]. rewrite u64_small by lia.
    match goal with |- context [index (?l ++ [?c]) ?i] =>
      assert (Hidx : index (l ++ [c]) i = Returned c) end.
    { apply index_Returned. rewrite length_app. simpl. split; [lia|].
      replace (Z.to_nat (Z.of_nat (List.length (chunks e)) + 1 - 1))
        with (List.length (chunks e)) by lia.
      apply list_lookup_middle. reflexivity. }
    rewrite Hidx. reflexivity.
  - intros id s. unfold Ephemeral.Shard. cbn [shards set_chunks set_shards].
    destruct (index (shards e) (u64 (id - 1))) as [s'|] eqn:Hidx; simpl;
      [|discriminate].
    intros [= ->]. apply index_Returned in Hidx as [Hr Hl].
    assert (Hidx' : index (shards e ++ ss) (u64 (id - 1)) = Returned s).
    { apply index_Returned. rewrite length_app. split; [lia|].
      apply lookup_app_l_Some. exact Hl. }
    rewrite Hidx'. reflexivity.
Qed.

Lemma Ephemeral_AddChunkAndShards_round_trip_witness :
  exists e' c,
    Ephemeral.AddChunkAndShards 1 5 [shardA; shardA] one_chunk
    = Returned (e', (c, None)) /\
    c = {| ID := Z.of_nat (List.length (chunks one_chunk)) + 1;
           Shards := seqZ (Z.of_nat (List.length (shards one_chunk)) + 1)
                       (Z.of_nat (List.length [shardA; shardA]));
           MinShards := u8 1; Len := 5 |} /\
    (forall i s, [shardA; shardA] !! i = Some s ->
       Ephemeral.Shard (Z.of_nat (List.length (shards one_chunk)) + Z.of_nat i + 1) e'
       = Returned (s, None)) /\
    Ephemeral.Chunk (ID c) e' = Returned (c, None) /\
    (forall id s, Ephemeral.Shard id one_chunk = Returned (s, None) ->
       Ephemeral.Shard id e' = Returned (s, None)) /\
    refs e' = refs one_chunk /\ blobs e' = blobs one_chunk.
Proof.
  apply (Ephemeral_AddChunkAndShards_round_trip 1 5 [shardA; shardA] one_chunk);
    vm_compute; reflexivity.
Defined.


(** ** Shards and chunks in the Bolt buckets *)

Lemma Bolt_addShard_eq (s : DBShard) (tx : BoltMetaDB) :
  0 <= sequence (bucketShards tx) < 2 ^ 64 - 1 ->
  Bolt.addShard s tx
  = Returned
      (set_bucketShards tx
         (mkBucket (<[PutUint64 (sequence (bucketShards tx) + 1) := s]>
                      (entries (bucketShards tx)))
                   (sequence (bucketShards tx) + 1)),
       (sequence (bucketShards tx) + 1, None)).
Proof.
  intros Hseq. unfold Bolt.addShard, NextSequence.
  rewrite u64_small by lia. reflexivity.
Qed.

Lemma Bolt_addChunk_eq (m length : Z) (ss : list Z) (tx : BoltMetaDB) :
  0 <= sequence (bucketChunks tx) < 2 ^ 64 - 1 ->
  Bolt.addChunk m length ss tx
  = let c := {| ID := sequence (bucketChunks tx) + 1; Shards := ss;
                MinShards := u8 m; Len := length |} in
    Returned
      (set_bucketChunks tx
         (mkBucket (<[PutUint64 (sequence (bucketChunks tx) + 1) := c]>
                      (entries (bucketChunks tx)))
                   (sequence (bucketChunks tx) + 1)),
       (c, None)).
Proof.
  intros Hseq. unfold Bolt.addChunk, NextSequence.
  rewrite u64_small by lia. reflexivity.
Qed.

(** X9.  On the Bolt backend, while the sequence of the shards bucket is
    below 2^64 - 1, AddShard returns the next number of the sequence as
    the id, Shard of that id gives the shard back, and the shards of all
    other ids read as before.  Shard of an id the bucket does not hold
    returns an error, it does not panic. *)
Theorem Bolt_AddShard_then_Shard (s : DBShard) (d : BoltMetaDB) :
  0 <= sequence (bucketShards d) < 2 ^ 64 - 1 ->
  let id := sequence (bucketShards d) + 1 in
  (exists d',
     Bolt.AddShard s d = Returned (d', (id, None)) /\
     Bolt.Shard id d' = Returned (s, None) /\
     (forall id', u64 id' <> id -> Bolt.Shard id' d' = Bolt.Shard id' d) /\
     sequence (bucketShards d') = id /\
     bucketChunks d' = bucketChunks d /\ bucketBlobs d' = bucketBlobs d) /\
  (forall id', Get (PutUint64 id') (bucketShards d) = None ->
     Bolt.Shard id' d = Returned (Bolt.zeroShard, Some ErrDecode)).
Proof.
  intros Hseq id. split.
  - unfold Bolt.AddShard, Bolt.Update. rewrite Bolt_addShard_eq by exact Hseq.
    cbn [obind fst snd]. eexists. split; [reflexivity|].
    unfold Bolt.Shard, Get. cbn [bucketShards set_bucketShards entries].
    rewrite lookup_insert_eq. split; [reflexivity|].
    split; [|repeat split].
    intros id' Hne. rewrite lookup_insert_ne; [reflexivity|].
    intros Heq. apply PutUint64_inj in Heq. rewrite u64_small in Heq by lia.
    subst id. congruence.
  - intros id' Hg. unfold Bolt.Shard. rewrite Hg. reflexivity.
Qed.

Lemma Bolt_AddShard_then_Shard_witness :
  let id := sequence (bucketShards NewBoltMetaDB) + 1 in
  (exists d',
     Bolt.AddShard shardA NewBoltMetaDB = Returned (d', (id, None)) /\
     Bolt.Shard id d' = Returned (shardA, None) /\
     (forall id', u64 id' <> id -> Bolt.Shard id' d' = Bolt.Shard id' NewBoltMetaDB) /\
     sequence (bucketShards d') = id /\
     bucketChunks d' = bucketChunks NewBoltMetaDB /\
     bucketBlobs d' = bucketBlobs NewBoltMetaDB) /\
  (forall id', Get (PutUint64 id') (bucketShards NewBoltMetaDB) = None ->
     Bolt.Shard id' NewBoltMetaDB = Returned (Bolt.zeroShard, Some ErrDecode)).
Proof.
  apply (Bolt_AddShard_then_Shard shardA NewBoltMetaDB). vm_compute.
  split; [discriminate | reflexivity].
Defined.




End MetaDBMore.

Module MetaDBHistory.
Import Renterutil MetaDBFacts MetaDBMore.

(** ** What a history keeps of the in-memory store *)

Lemma same_shape_refl (c : DBChunk) : same_shape c c.
Proof. repeat split. Qed.

Lemma same_shape_trans (c1 c2 c3 : DBChunk) :
  same_shape c1 c2 -> same_shape c2 c3 -> same_shape c1 c3.
Proof. unfold same_shape. intros (? & ? & ? & ?) (? & ? & ? & ?). repeat split; congruence. Qed.

Lemma extends_refl (db : EphemeralMetaDB) : extends db db.
Proof.
  split; [reflexivity|]. intros i c Hc. exists c. split; [exact Hc | apply same_shape_refl].
Qed.

Lemma extends_same (db db' : EphemeralMetaDB) :
  shards db' = shards db -> chunks db' = chunks db -> extends db db'.
Proof.
  intros Hs Hc. unfold extends. rewrite Hs, Hc. apply extends_refl.
Qed.

Lemma extends_trans (db1 db2 db3 : EphemeralMetaDB) :
  extends db1 db2 -> extends db2 db3 -> extends db1 db3.
Proof.
  intros [Hs12 Hc12] [Hs23 Hc23]. split; [etransitivity; eassumption|].
  intros i c Hc. destruct (Hc12 i c Hc) as (c2 & Hc2 & Hsh2).
  destruct (Hc23 i c2 Hc2) as (c3 & Hc3 & Hsh3).
  exists c3. split; [exact Hc3 | eapply same_shape_trans; eassumption].
Qed.

Lemma extends_chunks_app (db : EphemeralMetaDB) (ss : list DBShard) (cs : list DBChunk) :
  extends db (set_chunks (set_shards db (shards db ++ ss)) (chunks db ++ cs)).
Proof.
  split; simpl.
  - apply prefix_app_r. reflexivity.
  - intros i c Hc. exists c. split; [apply lookup_app_l_Some; exact Hc|].
    apply same_shape_refl.
Qed.

Lemma add_shards_shape (ss : list DBShard) (db : EphemeralMetaDB) :
  exists ids,
    Ephemeral.add_shards ss db
    = Returned (set_shards db (shards db ++ ss), (ids, None)).
Proof.
  revert db. induction ss as [|s ss IH]; intros db.
  - exists []. simpl. rewrite app_nil_r. destruct db; reflexivity.
  - cbn [Ephemeral.add_shards]. unfold Ephemeral.AddShard. cbn [obind fst snd].
    destruct (IH (set_shards db (shards db ++ [s]))) as [ids Hids].
    rewrite Hids. cbn [obind fst snd shards set_shards].
    eexists. rewrite <- app_assoc. reflexivity.
Qed.

Lemma mutate_extends (mu : mutation) (db db' : EphemeralMetaDB) :
  mutate mu db = Returned db' -> extends db db'.
Proof.
  destruct mu as [s|m n len|id i s|m len ss|b|key|key val]; simpl; intros H.
  - injection H as <-.
    pose proof (extends_chunks_app db [s] []) as He.
    rewrite app_nil_r in He. destruct db; exact He.
  - unfold Ephemeral.AddChunk in H.
    destruct (make_uint64s n) as [zs|]; simpl in H; [|discriminate].
    injection H as <-.
    pose proof (extends_chunks_app db []
      [ {| ID := u64 (u64 (Z.of_nat (length (chunks db))) + 1); Shards := zs;
           MinShards := u8 m; Len := len |} ]) as He.
    rewrite app_nil_r in He. destruct db; exact He.
  - unfold Ephemeral.SetChunkShard in H.
    destruct (index (chunks db) (u64 (id - 1))) as [c|] eqn:Hc; simpl in H;
      [|discriminate].
    destruct (index (Shards c) i) as [old|] eqn:Ho; simpl in H; [|discriminate].
    injection H as <-. apply index_Returned in Hc as [_ Hc].
    split; simpl; [reflexivity|].
    intros j c0 Hj. destruct (decide (j = Z.to_nat (u64 (id - 1)))) as [->|Hne].
    + rewrite Hc in Hj. injection Hj as <-.
      eexists. split; [apply list_lookup_insert_eq; eapply lookup_lt_Some; exact Hc|].
      repeat split. simpl. apply length_insert.
    + exists c0. split; [|apply same_shape_refl].
      rewrite list_lookup_insert_ne by congruence. exact Hj.
  - unfold Ephemeral.AddChunkAndShards in H.
    destruct (add_shards_shape ss db) as [ids Hids]. rewrite Hids in H.
    cbn [obind fst snd] in H. injection H as <-.
    apply extends_chunks_app.
  - injection H as <-. apply extends_same; reflexivity.
  - unfold Ephemeral.DeleteBlob in H. destruct (blobs db !! key).
    + destruct (Ephemeral.release_chunks _ _ _); simpl in H; [|discriminate].
      injection H as <-. apply extends_same; reflexivity.
    + injection H as <-. apply extends_refl.
  - injection H as <-. apply extends_same; reflexivity.
Qed.

Lemma history_extends (mus : list mutation) (db db' : EphemeralMetaDB) :
  history mus db = Returned db' -> extends db db'.
Proof.
  revert db. induction mus as [|mu mus IH]; intros db H; simpl in H.
  - injection H as <-. apply extends_refl.
  - destruct (mutate mu db) as [db1|] eqn:Hmu; simpl in H; [|discriminate].
    eapply extends_trans; [eapply mutate_extends; exact Hmu | apply IH; exact H].
Qed.

(** X11.  On the in-memory backend nothing is ever removed or renumbered:
    after any sequence of mutating calls that does not panic, DeleteBlob
    included, a shard id that was valid still gives the same shard, and a
    chunk id that was valid still gives a chunk with the same id,
    threshold, length and number of slots. *)
Theorem ids_stay_valid
    (mus : list mutation) (db db' : EphemeralMetaDB) (id : Z) :
  history mus db = Returned db' ->
  (forall s, Ephemeral.Shard id db = Returned (s, None) ->
     Ephemeral.Shard id db' = Returned (s, None)) /\
  (forall c, Ephemeral.Chunk id db = Returned (c, None) ->
     exists c', Ephemeral.Chunk id db' = Returned (c', None) /\ same_shape c c').
Proof.
  intros H. apply history_extends in H as [Hs Hc]. split.
  - intros s. unfold Ephemeral.Shard.
    destruct (index (shards db) (u64 (id - 1))) as [s'|] eqn:Hi; simpl;
      [|discriminate].
    intros [= ->]. apply index_Returned in Hi as [Hr Hl].
    destruct Hs as [more ->].
    assert (Hi' : index (shards db ++ more) (u64 (id - 1)) = Returned s).
    { apply index_Returned. rewrite length_app. split; [lia|].
      apply lookup_app_l_Some. exact Hl. }
    rewrite Hi'. reflexivity.
  - intros c. unfold Ephemeral.Chunk. destruct (id =? 0); [discriminate|].
    destruct (index (chunks db) (u64 (id - 1))) as [c0|] eqn:Hi; simpl;
      [|discriminate].
    intros [= ->]. apply index_Returned in Hi as [Hr Hl].
    destruct (Hc _ _ Hl) as (c' & Hc' & Hsh). exists c'.
    assert (Hi' : index (chunks db') (u64 (id - 1)) = Returned c').
    { apply index_Returned. split; [|exact Hc'].
      apply lookup_lt_Some in Hc'. lia. }
    rewrite Hi'. split; [reflexivity | exact Hsh].
Qed.

Lemma ids_stay_valid_witness :
  exists db',
    history [MAddBlob blobK; MSetChunkShard 1 0 7; MDeleteBlob "k"] one_chunk
    = Returned db' /\
    (forall s, Ephemeral.Shard 1 one_chunk = Returned (s, None) ->
       Ephemeral.Shard 1 db' = Returned (s, None)) /\
    (forall c, Ephemeral.Chunk 1 one_chunk = Returned (c, None) ->
       exists c', Ephemeral.Chunk 1 db' = Returned (c', None) /\ same_shape c c').
Proof.
  eexists. split; [vm_compute; reflexivity|].
  apply (ids_stay_valid [MAddBlob blobK; MSetChunkShard 1 0 7; MDeleteBlob "k"]
           one_chunk).
  vm_compute. reflexivity.
Defined.

(** ** Chunk ids *)

Lemma mutate_chunk_ids (mu : mutation) (db db' : EphemeralMetaDB) :
  mutate mu db = Returned db' ->
  (forall i c, chunks db !! i = Some c -> ID c = u64 (u64 (Z.of_nat i) + 1)) ->
  forall i c, chunks db' !! i = Some c -> ID c = u64 (u64 (Z.of_nat i) + 1).
Proof.
  assert (Happ : forall cs zs m len,
    (forall i c, cs !! i = Some c -> ID c = u64 (u64 (Z.of_nat i) + 1)) ->
    forall i c,
      (cs ++ [ {| ID := u64 (u64 (Z.of_nat (length cs)) + 1); Shards := zs;
                  MinShards := m; Len := len |} ]) !! i = Some c ->
      ID c = u64 (u64 (Z.of_nat i) + 1)).
  { intros cs zs m len Hinv i c Hi. apply lookup_app_Some in Hi as [Hi|[Hge Hi]].
    - apply Hinv. exact Hi.
    - apply list_lookup_singleton_Some in Hi as [Hi <-]. simpl.
      replace i with (length cs) by lia. reflexivity. }
  destruct mu as [s|m n len|id j s|m len ss|b|key|key val]; simpl; intros H Hinv.
  - injection H as <-. exact Hinv.
  - unfold Ephemeral.AddChunk in H.
    destruct (make_uint64s n) as [zs|]; simpl in H; [|discriminate].
    injection H as <-. simpl. apply Happ. exact Hinv.
  - unfold Ephemeral.SetChunkShard in H.
    destruct (index (chunks db) (u64 (id - 1))) as [c|] eqn:Hc; simpl in H;
      [|discriminate].
    destruct (index (Shards c) j) as [old|] eqn:Ho; simpl in H; [|discriminate].
    injection H as <-. apply index_Returned in Hc as [_ Hc]. simpl.
    intros i c0 Hi.
    destruct (decide (i = Z.to_nat (u64 (id - 1)))) as [->|Hne].
    + rewrite list_lookup_insert_eq in Hi by (eapply lookup_lt_Some; exact Hc).
      injection Hi as <-. simpl. apply Hinv. exact Hc.
    + rewrite list_lookup_insert_ne in Hi by congruence. apply Hinv. exact Hi.
  - unfold Ephemeral.AddChunkAndShards in H.
    destruct (add_shards_shape ss db) as [ids Hids]. rewrite Hids in H.
    cbn [obind fst snd] in H. injection H as <-. simpl. apply Happ. exact Hinv.
  - injection H as <-. exact Hinv.
  - unfold Ephemeral.DeleteBlob in H. destruct (blobs db !! key).
    + destruct (Ephemeral.release_chunks _ _ _); simpl in H; [|discriminate].
      injection H as <-. exact Hinv.
    + injection H as <-. exact Hinv.
  - injection H as <-. exact Hinv.
Qed.

Lemma history_chunk_ids (mus : list mutation) (db db' : EphemeralMetaDB) :
  history mus db = Returned db' ->
  (forall i c, chunks db !! i = Some c -> ID c = u64 (u64 (Z.of_nat i) + 1)) ->
  forall i c, chunks db' !! i = Some c -> ID c = u64 (u64 (Z.of_nat i) + 1).
Proof.
  revert db. induction mus as [|mu mus IH]; intros db H Hinv; simpl in H.
  - injection H as <-. exact Hinv.
  - destruct (mutate mu db) as [db1|] eqn:Hmu; simpl in H; [|discriminate].
    apply (IH db1 H). eapply mutate_chunk_ids; eassumption.
Qed.

(** X12.  In an in-memory store built from the empty store by any
    sequence of mutating calls, holding fewer than 2^64 chunks, Chunk
    returns a chunk exactly for the ids from 1 to the number of chunks,
    the chunk it returns carries the id it was asked for, and for every
    other id (0 included) Chunk panics. *)
Theorem Chunk_returns_the_id_asked
    (mus : list mutation) (db : EphemeralMetaDB) (id : Z) :
  history mus NewEphemeralMetaDB = Returned db ->
  Z.of_nat (length (chunks db)) < 2 ^ 64 ->
  0 <= id < 2 ^ 64 ->
  (1 <= id <= Z.of_nat (length (chunks db)) ->
   exists c, Ephemeral.Chunk id db = Returned (c, None) /\ ID c = id) /\
  (id = 0 \/ Z.of_nat (length (chunks db)) < id ->
   Ephemeral.Chunk id db = Panicked).
Proof.
  intros H Hlen Hid. split.
  - intros Hr. unfold Ephemeral.Chunk.
    destruct (Z.eqb_spec id 0) as [?|_]; [lia|].
    destruct (lookup_lt_is_Some_2 (chunks db) (Z.to_nat (id - 1))) as [c Hc]; [lia|].
    assert (Hi : index (chunks db) (u64 (id - 1)) = Returned c).
    { rewrite u64_small by lia. apply index_Returned. split; [lia | exact Hc]. }
    rewrite Hi. exists c. split; [reflexivity|].
    rewrite (history_chunk_ids mus _ _ H) with (i := Z.to_nat (id - 1)) (c := c).
    + rewrite Z2Nat.id by lia. rewrite (u64_small (id - 1)) by lia.
      rewrite u64_small by lia. lia.
    + intros i c0 Hi0. simpl in Hi0. rewrite lookup_nil in Hi0. discriminate.
    + exact Hc.
  - intros Hout. unfold Ephemeral.Chunk.
    destruct (Z.eqb_spec id 0) as [?|Hne]; [reflexivity|].
    assert (Hi : index (chunks db) (u64 (id - 1)) = Panicked).
    { apply index_Panicked. rewrite u64_small by lia. lia. }
    rewrite Hi. reflexivity.
Qed.

Lemma Chunk_returns_the_id_asked_witness :
  exists db,
    history [MAddChunk 1 1 5; MAddChunkAndShards 1 5 [shardA]; MSetChunkShard 1 0 1]
      NewEphemeralMetaDB = Returned db /\
    (1 <= 2 <= Z.of_nat (length (chunks db)) ->
     exists c, Ephemeral.Chunk 2 db = Returned (c, None) /\ ID c = 2) /\
    (2 = 0 \/ Z.of_nat (length (chunks db)) < 2 ->
     Ephemeral.Chunk 2 db = Panicked).
Proof.
  eexists. split; [vm_compute; reflexivity|].
  apply (Chunk_returns_the_id_asked
           [MAddChunk 1 1 5; MAddChunkAndShards 1 5 [shardA]; MSetChunkShard 1 0 1]).
  - vm_compute. reflexivity.
  - vm_compute. reflexivity.
  - lia.
Defined.


(** ** The numbering of the Bolt buckets *)

Lemma numbered_next {V} (b : Bucket V) (v : V) :
  numbered b -> sequence b < 2 ^ 64 - 1 ->
  numbered (mkBucket (<[PutUint64 (sequence b + 1) := v]> (entries b))
                     (sequence b + 1)).
Proof.
  intros [H0 Hk] Hlt. split; simpl; [lia|]. intros k.
  rewrite lookup_insert_is_Some, Hk. split.
  - intros [<-|[_ (id & Hid & ->)]].
    + exists (sequence b + 1). split; [lia | reflexivity].
    + exists id. split; [lia | reflexivity].
  - intros (id & Hid & ->).
    destruct (decide (id = sequence b + 1)) as [->|Hne]; [left; reflexivity|].
    right. split.
    + intros Heq. apply PutUint64_inj in Heq. rewrite !u64_small in Heq by lia. lia.
    + exists id. split; [lia | reflexivity].
Qed.

Lemma numbered_put {V} (b : Bucket V) (k : string) (v : V) :
  numbered b -> is_Some (entries b !! k) ->
  numbered (mkBucket (<[k := v]> (entries b)) (sequence b)).
Proof.
  intros [H0 Hk] Hin. split; simpl; [exact H0|]. intros k'.
  rewrite lookup_insert_is_Some, <- Hk. split.
  - intros [<-|[_ H]]; assumption.
  - intros H. destruct (decide (k = k')) as [->|Hne]; [left; reflexivity|].
    right. split; assumption.
Qed.

Lemma numbered_add_shards (ss : list DBShard) (tx tx' : BoltMetaDB)
    (r : list Z * bool) :
  numbered (bucketShards tx) ->
  sequence (bucketShards tx) + Z.of_nat (length ss) < 2 ^ 64 ->
  Bolt.add_shards ss tx = Returned (tx', r) ->
  numbered (bucketShards tx') /\
  sequence (bucketShards tx')
  = sequence (bucketShards tx) + Z.of_nat (length ss) /\
  bucketChunks tx' = bucketChunks tx /\ snd r = false.
Proof.
  revert tx r. induction ss as [|s ss IH]; intros tx r Hn Hlen H.
  - simpl in H. injection H as <- <-. simpl. rewrite Z.add_0_r. auto.
  - cbn [Bolt.add_shards length] in *. destruct Hn as [H0 Hk].
    rewrite Bolt_addShard_eq in H by lia. cbn [obind fst snd] in H.
    match type of H with context [Bolt.add_shards ss ?t] => set (tx1 := t) in * end.
    destruct (Bolt.add_shards ss tx1) as [[tx2 r2]|] eqn:Hrun;
      cbn [obind fst snd] in H; [|discriminate].
    injection H as <- <-.
    destruct (IH tx1 r2) as (Hn2 & Hs2 & Hc2 & Hr2); [| |exact Hrun|].
    + apply numbered_next; [split; assumption | lia].
    + cbn. lia.
    + cbn [tx1 bucketShards bucketChunks set_bucketShards sequence] in Hs2, Hc2.
      repeat split; try apply Hn2; try assumption. lia.
Qed.

Ltac split4 :=
  unfold bolt_numbered;
  cbn [bucketShards bucketChunks set_bucketShards set_bucketChunks
       set_bucketBlobs Bolt.set_bucketMeta sequence];
  split; [|split; [|split]].

Lemma bolt_mutate_numbered (mu : mutation) (d d' : BoltMetaDB) (ks kc : Z) :
  bolt_mutate mu d = Returned d' ->
  bolt_numbered d ks kc ->
  ks + shard_ids mu < 2 ^ 64 -> kc + chunk_ids mu < 2 ^ 64 ->
  bolt_numbered d' (ks + shard_ids mu) (kc + chunk_ids mu).
Proof.
  intros H (Hns & Hs & Hnc & Hc) Hks Hkc.
  pose proof Hns as [Hs0 _]. pose proof Hnc as [Hc0 _].
  destruct mu as [s|m n len|id i s|m len ss|b|key|key val];
    cbn [bolt_mutate shard_ids chunk_ids] in *.
  - unfold Bolt.AddShard, Bolt.Update in H.
    rewrite Bolt_addShard_eq in H by lia. cbn [obind fst snd] in H.
    injection H as <-. split4.
    + apply (numbered_next _ s Hns). lia.
    + lia.
    + exact Hnc.
    + lia.
  - unfold Bolt.AddChunk, Bolt.Update in H.
    destruct (make_uint64s n) as [zs|]; cbn [obind] in H; [|discriminate].
    rewrite Bolt_addChunk_eq in H by lia. cbv zeta in H. cbn [obind fst snd] in H.
    injection H as <-. split4.
    + exact Hns.
    + lia.
    + eapply (numbered_next _ _ Hnc). lia.
    + lia.
  - unfold Bolt.SetChunkShard, Bolt.Update in H.
    destruct (Get (PutUint64 id) (bucketChunks d)) as [c|] eqn:Hg;
      cbn [obind fst snd] in H.
    + destruct (index (Shards c) i); cbn [obind fst snd] in H; [|discriminate].
      rewrite Put_PutUint64 in H. cbn [obind fst snd] in H.
      injection H as <-. split4.
      * exact Hns.
      * lia.
      * apply (numbered_put _ _ _ Hnc). unfold Get in Hg. rewrite Hg. eauto.
      * lia.
    + injection H as <-. split4; [exact Hns | lia | exact Hnc | lia].
  - unfold Bolt.AddChunkAndShards, Bolt.Update in H.
    destruct (Bolt.add_shards ss d) as [[tx r]|] eqn:Hrun;
      cbn [obind fst snd] in H; [|discriminate].
    destruct (numbered_add_shards ss d tx r Hns) as (Hn2 & Hs2 & Hc2 & Hr2);
      [lia | exact Hrun |].
    rewrite Hr2 in H.
    rewrite Bolt_addChunk_eq in H by (rewrite Hc2; lia).
    cbv zeta in H. cbn [obind fst snd] in H. injection H as <-.
    split4.
    + exact Hn2.
    + lia.
    + rewrite Hc2. eapply (numbered_next _ _ Hnc). lia.
    + rewrite Hc2. lia.
  - unfold Bolt.AddBlob, Bolt.Update in H.
    destruct (Put (Key b) (Chunks b, Seed b) (bucketBlobs d)) as [bk [e|]];
      cbn [obind fst snd] in H; injection H as <-;
      (split4; [exact Hns | lia | exact Hnc | lia]).
  - rewrite Bolt_DeleteBlob_eq in H. cbn [obind fst] in H. injection H as <-.
    split4; [exact Hns | lia | exact Hnc | lia].
  - unfold Bolt.AddMetadata, Bolt.Update in H.
    destruct (Put key val (bucketMeta d)) as [bk [e|]];
      cbn [obind fst snd] in H; injection H as <-;
      (split4; [exact Hns | lia | exact Hnc | lia]).
Qed.

Lemma shard_ids_nonneg (mu : mutation) : 0 <= shard_ids mu.
Proof. destruct mu; simpl; lia. Qed.

Lemma chunk_ids_nonneg (mu : mutation) : 0 <= chunk_ids mu.
Proof. destruct mu; simpl; lia. Qed.

Lemma total_nonneg (f : mutation -> Z) (mus : list mutation) :
  (forall mu, 0 <= f mu) -> 0 <= total f mus.
Proof.
  intros Hf. induction mus as [|mu mus IH]; simpl; [lia|].
  specialize (Hf mu). lia.
Qed.

Lemma bolt_history_numbered (mus : list mutation) (d d' : BoltMetaDB) (ks kc : Z) :
  bolt_history mus d = Returned d' ->
  bolt_numbered d ks kc ->
  ks + total shard_ids mus < 2 ^ 64 -> kc + total chunk_ids mus < 2 ^ 64 ->
  bolt_numbered d' (ks + total shard_ids mus) (kc + total chunk_ids mus).
Proof.
  revert d ks kc. induction mus as [|mu mus IH]; intros d ks kc H Hn Hks Hkc.
  - simpl in *. injection H as <-. rewrite !Z.add_0_r. exact Hn.
  - cbn [bolt_history] in H. change (total ?f (mu :: mus)) with (f mu + total f mus) in *.
    destruct (bolt_mutate mu d) as [d1|] eqn:Hmu; cbn [obind] in H; [|discriminate].
    pose proof (total_nonneg shard_ids mus shard_ids_nonneg).
    pose proof (total_nonneg chunk_ids mus chunk_ids_nonneg).
    rewrite !Z.add_assoc. apply (IH d1); [exact H | | lia | lia].
    apply (bolt_mutate_numbered mu d); [exact Hmu | exact Hn | lia | lia].
Qed.

Lemma numbered_lookup {V} (b : Bucket V) (id : Z) :
  numbered b -> sequence b < 2 ^ 64 -> 0 <= id < 2 ^ 64 ->
  is_Some (Get (PutUint64 id) b) <-> 1 <= id <= sequence b.
Proof.
  intros [H0 Hk] Hseq Hid. unfold Get. rewrite Hk. split.
  - intros (id' & Hid' & Heq). apply PutUint64_inj in Heq.
    rewrite !u64_small in Heq by lia. lia.
  - intros Hr. exists id. auto.
Qed.

(** X13.  In a Bolt store built from the fresh store by any sequence of
    mutating calls that hands out fewer than 2^64 shard ids and chunk
    ids, the ids in use are the numbers from 1 to the sequence of the
    bucket: Shard and Chunk return a record for exactly those ids, and for
    every other id, 0 included, they return a decoding error where the
    in-memory backend panics. *)
Theorem Bolt_ids_are_numbered (mus : list mutation) (d : BoltMetaDB) (id : Z) :
  bolt_history mus NewBoltMetaDB = Returned d ->
  total shard_ids mus < 2 ^ 64 ->
  total chunk_ids mus < 2 ^ 64 ->
  0 <= id < 2 ^ 64 ->
  (if decide (1 <= id <= sequence (bucketShards d))
   then exists s, Bolt.Shard id d = Returned (s, None)
   else Bolt.Shard id d = Returned (Bolt.zeroShard, Some ErrDecode)) /\
  (if decide (1 <= id <= sequence (bucketChunks d))
   then exists c, Bolt.Chunk id d = Returned (c, None)
   else Bolt.Chunk id d = Returned (Bolt.zeroChunk, Some ErrDecode)) /\
  sequence (bucketShards d) <= total shard_ids mus /\
  sequence (bucketChunks d) <= total chunk_ids mus.
Proof.
  intros H Hs Hc Hid.
  assert (Hfresh : bolt_numbered NewBoltMetaDB 0 0).
  { unfold bolt_numbered, numbered. simpl. repeat split; try lia;
      try (intros [? Hx]; rewrite lookup_empty in Hx; discriminate);
      intros (? & ? & _); lia. }
  pose proof (bolt_history_numbered mus _ _ 0 0 H Hfresh) as (Hns & Hls & Hnc & Hlc);
    [lia | lia |].
  rewrite !Z.add_0_l in *.
  pose proof (numbered_lookup _ id Hns) as Hsl.
  pose proof (numbered_lookup _ id Hnc) as Hcl.
  split; [|split; [|split; assumption]].
  - unfold Bolt.Shard. destruct (decide _) as [Hr|Hr].
    + destruct (proj2 (Hsl ltac:(lia) Hid) Hr) as [s Hg]. rewrite Hg. eauto.
    + destruct (Get (PutUint64 id) (bucketShards d)) as [s|] eqn:Hg; [|reflexivity].
      exfalso. apply Hr. apply Hsl; [lia | exact Hid | eauto].
  - unfold Bolt.Chunk. destruct (decide _) as [Hr|Hr].
    + destruct (proj2 (Hcl ltac:(lia) Hid) Hr) as [c Hg]. rewrite Hg. eauto.
    + destruct (Get (PutUint64 id) (bucketChunks d)) as [c|] eqn:Hg; [|reflexivity].
      exfalso. apply Hr. apply Hcl; [lia | exact Hid | eauto].
Qed.

Lemma Bolt_ids_are_numbered_witness :
  exists d,
    bolt_history [MAddChunk 1 1 5; MAddShard shardA; MSetChunkShard 1 0 1;
                  MAddBlob blobK; MDeleteBlob "k"] NewBoltMetaDB = Returned d /\
    (if decide (1 <= 0 <= sequence (bucketShards d))
     then exists s, Bolt.Shard 0 d = Returned (s, None)
     else Bolt.Shard 0 d = Returned (Bolt.zeroShard, Some ErrDecode)) /\
    (if decide (1 <= 0 <= sequence (bucketChunks d))
     then exists c, Bolt.Chunk 0 d = Returned (c, None)
     else Bolt.Chunk 0 d = Returned (Bolt.zeroChunk, Some ErrDecode)) /\
    sequence (bucketShards d)
    <= total shard_ids [MAddChunk 1 1 5; MAddShard shardA; MSetChunkShard 1 0 1;
                        MAddBlob blobK; MDeleteBlob "k"] /\
    sequence (bucketChunks d)
    <= total chunk_ids [MAddChunk 1 1 5; MAddShard shardA; MSetChunkShard 1 0 1;
                        MAddBlob blobK; MDeleteBlob "k"].
Proof.
  eexists. split; [vm_compute; reflexivity|].
  apply (Bolt_ids_are_numbered
           [MAddChunk 1 1 5; MAddShard shardA; MSetChunkShard 1 0 1;
            MAddBlob blobK; MDeleteBlob "k"]).
  - vm_compute. reflexivity.
  - vm_compute. reflexivity.
  - vm_compute. reflexivity.
  - lia.
Defined.

End MetaDBHistory.

Module MetaDBListing.
Import Renterutil MetaDBFacts MetaDBMore.

(** ** The order of keys *)

Lemma compare_trans_le (a b c : string) :
  String.compare a b <> Gt -> String.compare b c <> Gt -> String.compare a c <> Gt.
Proof.
  revert b c. induction a as [|x a IH]; intros [|y b] [|z c]; simpl;
    try congruence.
  unfold Ascii.compare.
  destruct (N.compare_spec (Ascii.N_of_ascii x) (Ascii.N_of_ascii y)) as [Hxy|Hxy|Hxy];
    destruct (N.compare_spec (Ascii.N_of_ascii y) (Ascii.N_of_ascii z)) as [Hyz|Hyz|Hyz];
    destruct (N.compare_spec (Ascii.N_of_ascii x) (Ascii.N_of_ascii z)) as [Hxz|Hxz|Hxz];
    try congruence; try lia.
  apply IH.
Qed.

#[local] Instance string_le_total : Total Ephemeral.string_le.
Proof. intros a b. apply String.leb_total. Qed.

#[local] Instance string_le_trans : Transitive Ephemeral.string_le.
Proof.
  intros a b c. unfold Ephemeral.string_le, String.leb. intros Hab Hbc.
  pose proof (compare_trans_le a b c) as H.
  destruct (String.compare a b); destruct (String.compare b c);
    destruct (String.compare a c); try discriminate; try reflexivity;
    exfalso; apply H; congruence.
Qed.

#[local] Instance string_le_antisym : AntiSymm (=) Ephemeral.string_le.
Proof. intros a b. apply String.leb_antisym. Qed.

(** The sorted list of keys depends on the keys only, not on the order
    they were collected in. *)
Lemma sort_Strings_unique (l1 l2 : list string) :
  l1 ≡ₚ l2 -> Ephemeral.sort_Strings l1 = Ephemeral.sort_Strings l2.
Proof.
  intros Hp. unfold Ephemeral.sort_Strings. apply (Sorted_unique Ephemeral.string_le).
  - apply Sorted_merge_sort. apply _.
  - apply Sorted_merge_sort. apply _.
  - rewrite !merge_sort_Permutation. exact Hp.
Qed.

Lemma visit_note_key (ks seen : list string) :
  Ephemeral.visit note_key ks seen = Returned (seen ++ ks, None).
Proof.
  revert seen. induction ks as [|k ks IH]; intros seen; simpl.
  - rewrite app_nil_r. reflexivity.
  - rewrite IH. rewrite <- app_assoc. reflexivity.
Qed.

(** X14.  ForEachBlob on the in-memory backend shows the visitor every
    live key exactly once, in ascending byte order; the sequence depends
    on the set of live keys only, so it is the same for any order in
    which the keys are taken from the map, and the Bolt backend shows the
    same sequence when it holds the same keys. *)
Theorem ForEachBlob_visits_sorted_keys (db : EphemeralMetaDB) (d : BoltMetaDB) :
  exists ks,
    Ephemeral.ForEachBlob note_key db [] = Returned (ks, None) /\
    StronglySorted Ephemeral.string_le ks /\ NoDup ks /\
    (forall k, k ∈ ks <-> is_Some (blobs db !! k)) /\
    (forall collected, collected ≡ₚ (map_to_list (blobs db)).*1 ->
       Ephemeral.sort_Strings collected = ks) /\
    (dom (entries (bucketBlobs d)) = dom (blobs db) ->
     Bolt.ForEachBlob note_key d [] = Returned (ks, None)).
Proof.
  exists (Ephemeral.sort_Strings ((map_to_list (blobs db)).*1)).
  unfold Ephemeral.ForEachBlob, Bolt.ForEachBlob. rewrite visit_note_key.
  split; [reflexivity|].
  assert (Hperm : Ephemeral.sort_Strings ((map_to_list (blobs db)).*1)
                  ≡ₚ (map_to_list (blobs db)).*1)
    by apply merge_sort_Permutation.
  split; [apply StronglySorted_merge_sort; apply _|].
  split; [rewrite Hperm; apply NoDup_fst_map_to_list|].
  split; [|split].
  - intros k. rewrite Hperm. rewrite list_elem_of_fmap. split.
    + intros ([k' b] & -> & Hin). apply elem_of_map_to_list in Hin. eauto.
    + intros [b Hb]. exists (k, b). split; [reflexivity|].
      apply elem_of_map_to_list. exact Hb.
  - intros collected Hc. apply sort_Strings_unique. exact Hc.
  - intros Hdom. rewrite visit_note_key. simpl. do 2 f_equal.
    apply sort_Strings_unique. apply NoDup_Permutation.
    + apply NoDup_fst_map_to_list.
    + apply NoDup_fst_map_to_list.
    + intros k. rewrite !list_elem_of_fmap. split.
      * intros ([k' v] & -> & Hin). apply elem_of_map_to_list in Hin.
        assert (Hk : k' ∈ dom (blobs db))
          by (rewrite <- Hdom; apply elem_of_dom; eauto).
        apply elem_of_dom in Hk as [b Hb]. exists (k', b).
        split; [reflexivity | apply elem_of_map_to_list; exact Hb].
      * intros ([k' b] & -> & Hin). apply elem_of_map_to_list in Hin.
        assert (Hk : k' ∈ dom (entries (bucketBlobs d)))
          by (rewrite Hdom; apply elem_of_dom; eauto).
        apply elem_of_dom in Hk as [v Hv]. exists (k', v).
        split; [reflexivity | apply elem_of_map_to_list; exact Hv].
Qed.

Lemma ForEachBlob_visits_sorted_keys_witness :
  let db := set_blobs NewEphemeralMetaDB (<["b" := blobK]> (<["a" := blobK]> ∅)) in
  let d := set_bucketBlobs NewBoltMetaDB
             (mkBucket (<["a" := ([1], [])]> (<["b" := ([1], [])]> ∅)) 0) in
  Ephemeral.ForEachBlob note_key db [] = Returned (["a"; "b"], None) /\
  Bolt.ForEachBlob note_key d [] = Returned (["a"; "b"], None).
Proof.
  cbv zeta.
  destruct (ForEachBlob_visits_sorted_keys
              (set_blobs NewEphemeralMetaDB (<["b" := blobK]> (<["a" := blobK]> ∅)))
              (set_bucketBlobs NewBoltMetaDB
                 (mkBucket (<["a" := ([1], [])]> (<["b" := ([1], [])]> ∅)) 0)))
    as (ks & H1 & _ & _ & _ & _ & H6).
  rewrite H6 by (vm_compute; reflexivity). rewrite <- H1.
  split; vm_compute; reflexivity.
Defined.

Lemma visit_app {S} (fn : string -> S -> outcome (S * option error))
    (ks1 ks2 : list string) (s s1 : S) :
  Ephemeral.visit fn ks1 s = Returned (s1, None) ->
  Ephemeral.visit fn (ks1 ++ ks2) s = Ephemeral.visit fn ks2 s1.
Proof.
  revert s. induction ks1 as [|k ks1 IH]; intros s H; simpl in *.
  - injection H as <-. reflexivity.
  - destruct (fn k s) as [[s' [e|]]|]; simpl in *; try discriminate.
    apply IH. exact H.
Qed.

(** X15.  ForEachBlob stops at the first key whose visit fails.  Let the
    live keys in ascending order be [before], then [k], then [after], and
    let the visitor return no error for the keys of [before]: when it
    returns the error [e] for [k], ForEachBlob returns [e] with the state
    that visit left and visits none of [after]; when it panics for [k],
    ForEachBlob panics; when it returns no error for [k], ForEachBlob goes
    on with the keys of [after]. *)
Theorem ForEachBlob_stops_at_first_error {S}
    (fn : string -> S -> outcome (S * option error))
    (db : EphemeralMetaDB) (before after : list string) (k : string)
    (s s1 : S) :
  Ephemeral.sort_Strings ((map_to_list (blobs db)).*1) = before ++ k :: after ->
  Ephemeral.visit fn before s = Returned (s1, None) ->
  (forall s2 e, fn k s1 = Returned (s2, Some e) ->
     Ephemeral.ForEachBlob fn db s = Returned (s2, Some e)) /\
  (fn k s1 = Panicked -> Ephemeral.ForEachBlob fn db s = Panicked) /\
  (forall s2, fn k s1 = Returned (s2, None) ->
     Ephemeral.ForEachBlob fn db s = Ephemeral.visit fn after s2).
Proof.
  intros Hks Hbefore. unfold Ephemeral.ForEachBlob. rewrite Hks.
  rewrite (visit_app fn before (k :: after) s s1 Hbefore). simpl.
  split; [|split].
  - intros s2 e ->. reflexivity.
  - intros ->. reflexivity.
  - intros s2 ->. reflexivity.
Qed.

(** A visitor that refuses the key "b". *)
Lemma ForEachBlob_stops_at_first_error_witness :
  let fn := fun k (seen : list string) =>
    if String.eqb k "b" then Returned (seen, Some ErrKeyNotFound)
    else Returned (seen ++ [k], None) in
  let db := set_blobs NewEphemeralMetaDB
              (<["c" := blobK]> (<["a" := blobK]> (<["b" := blobK]> ∅))) in
  (forall s2 e, fn "b" ["a"] = Returned (s2, Some e) ->
     Ephemeral.ForEachBlob fn db [] = Returned (s2, Some e)) /\
  (fn "b" ["a"] = Panicked -> Ephemeral.ForEachBlob fn db [] = Panicked) /\
  (forall s2, fn "b" ["a"] = Returned (s2, None) ->
     Ephemeral.ForEachBlob fn db [] = Ephemeral.visit fn ["c"] s2).
Proof.
  cbv zeta.
  apply (ForEachBlob_stops_at_first_error _ _ ["a"] ["c"] "b" [] ["a"]).
  - vm_compute. reflexivity.
  - vm_compute. reflexivity.
Defined.

End MetaDBListing.

(** * More facts about the downloader *)

Module DownloaderMore.
Import Proto DownloaderFacts.

Section Every.

Variable SectorSize : Z.
Context {Conn ContractEditor : Type}.

#[local] Abbreviation Prog := (Prog Conn ContractEditor).
#[local] Abbreviation Downloader := (Downloader Conn ContractEditor).
#[local] Abbreviation call := (call Conn ContractEditor).
#[local] Abbreviation event := (event Conn ContractEditor).

(** ** Every run *)

Lemma all_runs_mono {A} (p : Prog A) (R R' : list event -> A -> Prop) :
  (forall tr a, R tr a -> R' tr a) -> all_runs p R -> all_runs p R'.
Proof.
  revert R R'. induction p as [a | T c k IH]; intros R R' HR; simpl.
  - apply HR.
  - intros Hp t. eapply IH; [|apply Hp]. intros tr a. apply HR.
Qed.

Lemma all_runs_bind {A B} (p : Prog A) (f : A -> Prog B)
    (R : list event -> B -> Prop) :
  all_runs p (fun tr a => all_runs (f a) (fun tr' b => R (tr ++ tr') b)) ->
  all_runs (bind p f) R.
Proof.
  revert R. induction p as [a | T c k IH]; intros R; simpl.
  - intros H. exact H.
  - intros H t. apply IH. apply H.
Qed.

Lemma all_runs_run {A W} (h : handler Conn ContractEditor W) (p : Prog A)
    (R : list event -> A -> Prop) (w : W) :
  all_runs p R -> R (transcript h p w) (result h p w).
Proof.
  unfold transcript, result. revert R w.
  induction p as [a | T c k IH]; intros R w; simpl.
  - intros H. exact H.
  - intros H. destruct (h T c w) as [t w1]. specialize (IH t _ w1 (H t)).
    destruct (exec h (k t) w1) as [[tr w2] a]. exact IH.
Qed.

(** ** Reading into the sector buffer *)

Lemma DecUint64_nonneg (bs : list byte) : 0 <= DecUint64 bs.
Proof. induction bs as [|b bs IH]; simpl; lia. Qed.

Lemma overwrite_length (a bs : list byte) :
  (length bs <= length a)%nat -> length (overwrite a bs) = length a.
Proof.
  intros H. unfold overwrite. rewrite length_app, length_drop. lia.
Qed.

(** What [UnmarshalSia] reads and leaves, by the way it ends. *)
Lemma UnmarshalSia_runs (sb : sectorBuffer) (c : Conn) :
  all_runs (UnmarshalSia SectorSize sb c) (fun (tr : list event) o =>
    (SectorSize < 24 /\ tr = [] /\ o = Panicked) \/
    (24 <= SectorSize /\
     exists sb' t1,
       Z.of_nat (length (arr sb')) = SectorSize /\
       ((exists e, tr = [Ev (ReadFull c 24) t1] /\ o = Returned (sb', Some e)) \/
        (exists p t2 err,
           0 <= p <= SectorSize /\
           tr = [Ev (ReadFull c 24) t1; Ev (ReadFull c p) t2] /\
           len sb' = p /\ o = Returned (sb', err))))).
Proof.
  unfold UnmarshalSia.
  set (sb0 := if Z.of_nat (length (arr sb)) =? SectorSize then sb
              else mkBuf (replicate (Z.to_nat SectorSize) x00) SectorSize).
  assert (Hcap : 0 <= SectorSize -> Z.of_nat (length (arr sb0)) = SectorSize).
  { intros Hs. subst sb0.
    destruct (Z.eqb_spec (Z.of_nat (length (arr sb))) SectorSize) as [E|E];
      [exact E|]. simpl. rewrite length_replicate. lia. }
  assert (Hneg : SectorSize < 0 -> Z.of_nat (length (arr sb0)) = 0).
  { intros Hs. subst sb0.
    destruct (Z.eqb_spec (Z.of_nat (length (arr sb))) SectorSize) as [E|E];
      [lia|]. simpl. rewrite length_replicate. lia. }
  clearbody sb0.
  destruct (Z.gtb_spec 24 (Z.of_nat (length (arr sb0)))) as [H24|H24].
  { simpl. left. split; [|auto]. destruct (Z.lt_ge_cases SectorSize 0); [lia|].
    rewrite Hcap in H24; lia. }
  assert (Hs : 24 <= SectorSize).
  { destruct (Z.lt_ge_cases SectorSize 0) as [Hn|Hn]; [rewrite Hneg in H24; lia|].
    rewrite Hcap in H24; lia. }
  specialize (Hcap ltac:(lia)). clear Hneg.
  cbn. intros [bs1 err1].
  assert (Hlen1 : Z.of_nat (length (overwrite (arr sb0) (take 24 bs1))) = SectorSize).
  { rewrite overwrite_length; [exact Hcap|]. rewrite length_take. lia. }
  set (buf1 := overwrite (arr sb0) (take 24 bs1)) in *.
  destruct err1 as [e|].
  { cbn. right. split; [exact Hs|]. eexists _, _. split; [|left; eauto]. exact Hlen1. }
  destruct (_ >? _).
  { cbn. right. split; [exact Hs|]. eexists _, _. split; [|left; eauto]. exact Hlen1. }
  destruct (negb _).
  { cbn. right. split; [exact Hs|]. eexists _, _. split; [|left; eauto]. exact Hlen1. }
  destruct (Z.gtb_spec (DecUint64 (take 8 (drop 16 buf1))) SectorSize) as [Hp|Hp].
  { cbn. right. split; [exact Hs|]. eexists _, _. split; [|left; eauto]. exact Hlen1. }
  set (p := DecUint64 (take 8 (drop 16 buf1))) in *.
  pose proof (DecUint64_nonneg (take 8 (drop 16 buf1))) as Hp0. fold p in Hp0.
  cbn. intros [bs2 err2]. cbn.
  right. split; [exact Hs|].
  eexists (mkBuf _ p), _. split; [|right; eexists p, _, err2; eauto].
  cbn. rewrite overwrite_length; [exact Hlen1|]. rewrite length_take. lia.
Qed.

(** ** One exchange, from the proposal to the data *)

(** Computes the readings of a transcript that extends [pre]. *)
Ltac readings :=
  unfold proposals, verdicts, records, receipts, reads, closings in *;
  rewrite ?omap_app;
  cbn [omap list_omap proposal verdict_of record receipt asking closing app];
  repeat match goal with H : omap _ _ = _ |- _ => rewrite H end;
  try reflexivity.

Lemma partialSector_update_runs (d0 d : Downloader) (txn : Transaction)
    (v : option error) (length : Z) (pre : list event)
    (prop : FileContractRevision) :
  conn d = conn d0 -> agreed v -> proposals pre = [prop] ->
  verdicts pre = [(txn, v)] -> records pre = [] -> receipts pre = [] ->
  reads pre = [] -> closings pre = [] ->
  all_runs (partialSector_update SectorSize d txn length)
    (fun tr o => exchange SectorSize d0 length (pre ++ tr) o).
Proof.
  intros Hconn Hv HP HV HR HS HN HC. unfold partialSector_update.
  destruct (FileContractRevisions txn) as [|rev0 revs] eqn:Hrev.
  { simpl. rewrite app_nil_r. eapply exchange_unsigned; eauto. }
  cbn. intros [e|]; cbn.
  { eapply exchange_unrecorded; eauto; readings. }
  apply all_runs_bind. eapply all_runs_mono; [|apply UnmarshalSia_runs].
  intros tr o [(Hs & -> & ->)|(Hs & sb' & t1 & Hcap & Hrun)]; cbn.
  { eapply exchange_no_buffer; eauto; readings. }
  destruct Hrun as [(e & -> & ->)|(p & t2 & err & Hp & -> & Hlen & ->)]; cbn.
  { intros []. eapply exchange_unread with (ps := []); eauto; readings.
    rewrite Hconn. reflexivity. }
  destruct err as [e|]; cbn.
  { intros []. eapply exchange_unread with (ps := [p]); eauto; readings.
    rewrite Hconn. reflexivity. }
  rewrite Hlen.
  destruct (Z.eqb_spec (u32 p) length) as [Hu|Hu]; cbn.
  - eapply exchange_done with (p := p) (d' := set_sector d sb');
      eauto; readings; cbn [sector set_sector].
    unfold view. rewrite Hlen, length_take. lia.
  - intros []. eapply exchange_unread with (ps := [p]); eauto; readings.
    rewrite Hconn. reflexivity.
Qed.

Lemma partialSector_body_runs (d : Downloader) (root : Hash) (offset length : Z) :
  all_runs (partialSector_body SectorSize d root offset length)
    (exchange SectorSize d length).
Proof.
  unfold partialSector_body.
  destruct (_ >? _); [simpl; eapply exchange_unproposed; reflexivity|].
  cbn. intros [q [e|]]; cbn; [eapply exchange_unproposed; reflexivity|].
  intros txn. destruct (_ <? _); cbn; [eapply exchange_unproposed; reflexivity|].
  intros [e|]; cbn; [eapply exchange_unproposed; reflexivity|].
  intros [signed v].
  assert (Hup : agreed v ->
    all_runs (partialSector_update SectorSize (set_host d q) signed length)
      (fun tr o => exchange SectorSize d length
         ([Ev (startRevision (conn d) (host d)) (q, None);
           Ev (GetTransaction (contract d)) txn;
           Ev (WriteObject (conn d)
                 [ {| MerkleRoot := root; Offset := offset; Length := length |} ]) None;
           Ev (negotiateRevision (conn d)
                 (newDownloadRevision (CurrentRevision txn)
                    (DownloadBandwidthPrice q * SectorSize)) (RenterKey txn))
              (signed, v)] ++ tr) o)).
  { intros Hv. eapply partialSector_update_runs; eauto; reflexivity. }
  destruct v as [e|]; [|apply Hup; left; reflexivity].
  destruct e; try (apply Hup; right; reflexivity);
    cbn; intros []; eapply exchange_refused; try reflexivity; discriminate.
Qed.

Lemma exchange_deadlines (d : Downloader) (length : Z) (tr : list event)
    (o : outcome (reply Conn ContractEditor)) (c1 c2 : Conn) (dl1 dl2 : duration) :
  exchange SectorSize d length tr o ->
  exchange SectorSize d length
    (Ev (extendDeadline c1 dl1) tt :: tr ++ [Ev (extendDeadline c2 dl2) tt]) o.
Proof.
  assert (Hsame : forall X (f : event -> option X),
    (forall c dl t, f (Ev (extendDeadline c dl) t) = None) ->
    omap f (Ev (extendDeadline c1 dl1) tt :: tr ++ [Ev (extendDeadline c2 dl2) tt])
    = omap f tr).
  { intros X f Hf. change (Ev (extendDeadline c1 dl1) tt :: tr ++ _)
      with ([Ev (extendDeadline c1 dl1) tt] ++ tr ++ [Ev (extendDeadline c2 dl2) tt]).
    rewrite !omap_app. cbn [omap list_omap]. rewrite !Hf. cbn [app].
    apply app_nil_r. }
  intros Hex. destruct Hex;
    [ eapply exchange_unproposed | eapply exchange_refused
    | eapply exchange_unsigned | eapply exchange_unrecorded
    | eapply exchange_no_buffer | eapply exchange_unread
    | eapply exchange_done ];
    unfold proposals, verdicts, records, receipts, reads, closings in *;
    try rewrite Hsame by reflexivity; eassumption.
Qed.

Lemma partialSector_runs (d : Downloader) (root : Hash) (offset length : Z) :
  all_runs (partialSector SectorSize d root offset length)
    (exchange SectorSize d length).
Proof.
  unfold partialSector. cbn. intros [].
  apply all_runs_bind. eapply all_runs_mono; [|apply partialSector_body_runs].
  intros tr o Hex. cbn. intros []. apply exchange_deadlines. exact Hex.
Qed.

(** ** What an exchange leaves *)

Lemma exchange_returns (d : Downloader) (length : Z) (tr : list event)
    (o : outcome (reply Conn ContractEditor)) :
  exchange SectorSize d length tr o ->
  match o with
  | Panicked => True
  | Returned (d', (data, Some e)) => data = []
  | Returned (d', (data, None)) =>
      data = view (sector d') /\
      u32 (Z.of_nat (List.length data)) = length /\
      Z.of_nat (List.length data) <= SectorSize /\
      24 <= SectorSize /\
      Z.of_nat (List.length (arr (sector d'))) = SectorSize
  end.
Proof.
  intros Hex. destruct Hex; subst o; try reflexivity; try exact I.
  subst p. repeat split; auto; lia.
Qed.

Lemma exchange_reads (d : Downloader) (length : Z) (tr : list event)
    (o : outcome (reply Conn ContractEditor)) :
  exchange SectorSize d length tr o ->
  Forall (fun n => 0 <= n <= SectorSize) (reads tr) /\
  (List.length (reads tr) <= 2)%nat.
Proof.
  intros Hex. destruct Hex;
    match goal with H : reads tr = _ |- _ => rewrite H end;
    repeat match goal with
    | H : _ \/ _ |- _ => destruct H as [->|(? & -> & ?)]
    end;
    (split; [repeat constructor; lia | simpl; lia]).
Qed.

Lemma exchange_records (d : Downloader) (length : Z) (tr : list event)
    (o : outcome (reply Conn ContractEditor)) :
  exchange SectorSize d length tr o ->
  (List.length (records tr) <= List.length (proposals tr))%nat /\
  (List.length (proposals tr) <= 1)%nat.
Proof.
  intros Hex. destruct Hex;
    repeat match goal with
    | H : records tr = _ |- _ => rewrite H; clear H
    | H : proposals tr = _ |- _ => rewrite H; clear H
    end; simpl; lia.
Qed.

(** ** The whole call *)

Lemma PartialSector_runs (d : Downloader) (root : Hash) (offset length : Z) :
  all_runs (PartialSector SectorSize d root offset length)
    (attempts SectorSize d length).
Proof.
  unfold PartialSector. apply all_runs_bind.
  eapply all_runs_mono; [|apply partialSector_runs].
  intros tr1 o1 Hex. destruct o1 as [[d1 [data err]]|].
  2:{ simpl. rewrite app_nil_r. apply attempts_one. exact Hex. }
  destruct (isHostDisconnect err) eqn:Hdis.
  2:{ simpl. rewrite app_nil_r. apply attempts_one. exact Hex. }
  assert (data = []) as ->.
  { pose proof (exchange_returns _ _ _ _ Hex) as Hr. simpl in Hr.
    destruct err; [exact Hr | discriminate]. }
  intros [] [c [e|]]; cbn [bind all_runs perform].
  { eapply attempts_undialled; eauto. }
  eapply all_runs_mono; [|apply partialSector_runs].
  intros tr2 o Hex2. eapply attempts_two; eauto.
Qed.

(** ** Deadlines *)

Section Hosts.

Context {W : Type}.
Variable h : handler Conn ContractEditor W.

Lemma partialSector_body_no_deadline (d : Downloader) (root : Hash)
    (offset length : Z) (w : W) :
  deadlines (transcript h (partialSector_body SectorSize d root offset length) w) = [].
Proof.
  eapply omap_silent. apply partialSector_body_paths; intros; reflexivity.
Qed.

(** X20.  Every run of partialSector, whatever the host answers and
    however the call ends (a panic included), begins by setting the
    negotiation deadline on the connection and ends by setting the
    deadline of one hour on it, and sets no deadline in between. *)
Theorem partialSector_restores_the_deadline
    (d : Downloader) (root : Hash) (offset length : Z) (w : W) :
  exists body,
    transcript h (partialSector SectorSize d root offset length) w
    = Ev (extendDeadline (conn d) NegotiateDownloadTime) tt
      :: body ++ [Ev (extendDeadline (conn d) Hour) tt] /\
    deadlines body = [] /\
    deadlines (transcript h (partialSector SectorSize d root offset length) w)
    = [(conn d, NegotiateDownloadTime); (conn d, Hour)].
Proof.
  unfold partialSector.
  rewrite !transcript_bind, !transcript_perform, transcript_Ret.
  set (w0 := final h (perform (extendDeadline (conn d) NegotiateDownloadTime)) w).
  pose proof (partialSector_body_no_deadline d root offset length w0) as Hb.
  set (body := transcript h (partialSector_body SectorSize d root offset length) w0) in *.
  exists body.
  repeat match goal with |- context [(h _ ?c ?x).1] => destruct (h _ c x).1 end.
  rewrite app_nil_r. split; [reflexivity|]. split; [exact Hb|].
  unfold deadlines in *. cbn [app omap list_omap deadline].
  rewrite omap_app, Hb. reflexivity.
Qed.

(** ** The theorems on every run *)

(** X16.  In every run of partialSector, whatever the host answers: a
    revision is recorded in the contract editor only after one revision
    was proposed and the host answered it with no error or with the
    graceful stop, and it is the first revision of the transaction the
    host gave back; and the host is read from only after the contract
    editor recorded that revision without error. *)
Theorem partialSector_settles_before_it_reads
    (d : Downloader) (root : Hash) (offset length : Z) (w : W) :
  let tr := transcript h (partialSector SectorSize d root offset length) w in
  (forall rev, rev ∈ records tr ->
     exists prop txn v revs,
       proposals tr = [prop] /\
       verdicts tr = [(txn, v)] /\ (v = None \/ v = Some ErrStopResponse) /\
       FileContractRevisions txn = rev :: revs /\ records tr = [rev]) /\
  (forall n, n ∈ reads tr ->
     receipts tr = [None] /\ exists rev, records tr = [rev]).
Proof.
  cbv zeta.
  pose proof (all_runs_run h _ _ w (partialSector_runs d root offset length)) as Hex.
  split.
  - intros rev Hin. destruct Hex;
      repeat match goal with
      | H : records _ = _ |- _ => rewrite H in *; clear H
      end;
      try (apply elem_of_nil in Hin; contradiction);
      apply list_elem_of_singleton in Hin; subst rev; eauto 10.
  - intros n Hin. destruct Hex;
      repeat match goal with
      | H : reads _ = [] |- _ => rewrite H in *; clear H
      end;
      try (apply elem_of_nil in Hin; contradiction); eauto.
Qed.

Lemma PartialSector_returns (d : Downloader) (root : Hash) (offset length : Z)
    (w : W) :
  match result h (PartialSector SectorSize d root offset length) w with
  | Panicked => True
  | Returned (d', (data, Some e)) => data = []
  | Returned (d', (data, None)) =>
      data = view (sector d') /\
      u32 (Z.of_nat (List.length data)) = length /\
      Z.of_nat (List.length data) <= SectorSize /\
      24 <= SectorSize /\
      Z.of_nat (List.length (arr (sector d'))) = SectorSize
  end.
Proof.
  pose proof (all_runs_run h _ _ w (PartialSector_runs d root offset length)) as Hat.
  destruct Hat as [Hex|tr1 d1 err c e _ _ _ ->|tr1 tr2 d1 err c _ _ Hex _].
  - apply (exchange_returns _ _ _ _ Hex).
  - reflexivity.
  - apply (exchange_returns _ _ _ _ Hex).
Qed.

(** X17.  PartialSector returns either an error and the nil slice, or no
    error and a slice of exactly [length] bytes, the contents of the
    session's sector buffer, whatever the host answers.  Sectors are
    shorter than 2^32 bytes. *)
Theorem PartialSector_returns_length_bytes
    (d : Downloader) (root : Hash) (offset length : Z) (w : W) :
  SectorSize < 2 ^ 32 ->
  match result h (PartialSector SectorSize d root offset length) w with
  | Panicked => True
  | Returned (d', (data, Some e)) => data = []
  | Returned (d', (data, None)) =>
      Z.of_nat (List.length data) = length /\ data = view (sector d') /\
      length <= SectorSize
  end.
Proof.
  intros Hs. pose proof (PartialSector_returns d root offset length w) as Hr.
  destruct (result h _ w) as [[d' [data [e|]]]|]; auto.
  destruct Hr as (Hv & Hu & Hle & _ & _).
  assert (u32 (Z.of_nat (List.length data)) = Z.of_nat (List.length data))
    by (unfold u32; apply Z.mod_small; lia).
  repeat split; auto; lia.
Qed.

(** X18.  Whatever the host puts into the length prefixes it sends,
    PartialSector never asks the connection for more bytes than a sector
    holds, nor for a negative number of bytes, and it reads at most four
    times. *)
Theorem PartialSector_reads_within_a_sector
    (d : Downloader) (root : Hash) (offset length : Z) (w : W) :
  let tr := transcript h (PartialSector SectorSize d root offset length) w in
  Forall (fun n => 0 <= n <= SectorSize) (reads tr) /\
  (List.length (reads tr) <= 4)%nat.
Proof.
  cbv zeta.
  pose proof (all_runs_run h _ _ w (PartialSector_runs d root offset length)) as Hat.
  destruct Hat as [Hex|tr1 d1 err c e Hex1 _ -> _|tr1 tr2 d1 err c Hex1 _ Hex2 ->].
  - destruct (exchange_reads _ _ _ _ Hex). split; [assumption | lia].
  - destruct (exchange_reads _ _ _ _ Hex1).
    unfold reads in *. rewrite omap_app. cbn [omap list_omap asking].
    rewrite app_nil_r. split; [assumption | lia].
  - destruct (exchange_reads _ _ _ _ Hex1) as [F1 L1].
    destruct (exchange_reads _ _ _ _ Hex2) as [F2 L2].
    unfold reads in *. rewrite !omap_app. cbn [omap list_omap asking app].
    split; [apply Forall_app; auto | rewrite length_app; lia].
Qed.

(** X19.  Whatever the host answers, one call of PartialSector proposes
    at most two revisions to the host, one for each exchange, and records
    in the contract editor no more revisions than it proposed. *)
Theorem PartialSector_records_at_most_twice
    (d : Downloader) (root : Hash) (offset length : Z) (w : W) :
  let tr := transcript h (PartialSector SectorSize d root offset length) w in
  (List.length (records tr) <= List.length (proposals tr))%nat /\
  (List.length (proposals tr) <= 2)%nat.
Proof.
  cbv zeta.
  pose proof (all_runs_run h _ _ w (PartialSector_runs d root offset length)) as Hat.
  destruct Hat as [Hex|tr1 d1 err c e Hex1 _ -> _|tr1 tr2 d1 err c Hex1 _ Hex2 ->].
  - destruct (exchange_records _ _ _ _ Hex). split; lia.
  - destruct (exchange_records _ _ _ _ Hex1).
    unfold records, proposals in *. rewrite !omap_app.
    cbn [omap list_omap record proposal]. rewrite !app_nil_r. split; lia.
  - destruct (exchange_records _ _ _ _ Hex1) as [F1 L1].
    destruct (exchange_records _ _ _ _ Hex2) as [F2 L2].
    unfold records, proposals in *. rewrite !omap_app.
    cbn [omap list_omap record proposal app]. rewrite !length_app. split; lia.
Qed.

(** ** [Sector] *)

(** X21.  Sector asks PartialSector for the whole sector and makes no
    call of its own.  When it returns a sector, the sector has exactly
    SectorSize bytes, its Merkle root is [root], and it is the data
    PartialSector returned; otherwise it returns an error and the nil
    pointer; and it panics only where PartialSector does.  Sectors are
    shorter than 2^32 bytes. *)
Theorem Sector_returns_a_verified_sector
    (SectorMerkleRoot : list byte -> Hash) (d : Downloader) (root : Hash) (w : W) :
  SectorSize < 2 ^ 32 ->
  let whole := PartialSector SectorSize d root 0 SectorSize in
  let p := Sector SectorSize SectorMerkleRoot d root in
  transcript h p w = transcript h whole w /\
  final h p w = final h whole w /\
  match result h p w with
  | Panicked => result h whole w = Panicked
  | Returned (d', (Some s, None)) =>
      SectorMerkleRoot s = root /\ Z.of_nat (List.length s) = SectorSize /\
      result h whole w = Returned (d', (s, None))
  | Returned (d', (None, Some e)) =>
      result h whole w = Returned (d', ([], Some e)) \/
      e = ErrNew "host sent invalid sector data" /\
      exists data, result h whole w = Returned (d', (data, None)) /\
                   SectorMerkleRoot data <> root
  | Returned (d', (Some _, Some _)) => False
  | Returned (d', (None, None)) => False
  end.
Proof.
  intros Hs. cbv zeta. unfold Sector.
  rewrite transcript_bind, final_bind, result_bind.
  pose proof (PartialSector_returns d root 0 SectorSize w) as Hr.
  destruct (result h (PartialSector SectorSize d root 0 SectorSize) w)
    as [[d' [data [e|]]]|].
  - subst data. rewrite transcript_Ret, final_Ret, result_Ret, app_nil_r. auto.
  - destruct Hr as (Hv & Hu & Hle & H24 & Hcap).
    assert (Hlen : Z.of_nat (List.length data) = SectorSize).
    { transitivity (u32 (Z.of_nat (List.length data))); [|exact Hu].
      unfold u32. symmetry. apply Z.mod_small. lia. }
    assert (Hall : take (Z.to_nat SectorSize) (arr (sector d')) = data).
    { rewrite Hv in Hlen |- *. unfold view in *. rewrite length_take in Hlen.
      rewrite !take_ge by lia. reflexivity. }
    destruct data as [|b data]; [simpl in Hlen; lia|].
    rewrite Hall.
    destruct (decide (SectorMerkleRoot (b :: data) = root)) as [E|E];
      rewrite transcript_Ret, final_Ret, result_Ret, app_nil_r; eauto 10.
  - rewrite transcript_Ret, final_Ret, result_Ret, app_nil_r. auto.
Qed.

End Hosts.

End Every.

(** ** Runs against the scripted host, with sectors of 64 bytes *)

Lemma partialSector_settles_before_it_reads_witness :
  let w := serving 1000 None [x0a; x0b; x0c; x0d] 0 in
  let tr := transcript scripted (partialSector 64 (client host1) [x01] 0 4) w in
  (exists prop txn v revs,
     proposals tr = [prop] /\
     verdicts tr = [(txn, v)] /\ (v = None \/ v = Some ErrStopResponse) /\
     FileContractRevisions txn = mkRev 7 (1000 - 64) (0 + 64) :: revs /\
     records tr = [mkRev 7 (1000 - 64) (0 + 64)]) /\
  (receipts tr = [None] /\ exists rev, records tr = [rev]).
Proof.
  cbv zeta.
  pose proof (partialSector_settles_before_it_reads 64 scripted (client host1)
                [x01] 0 4 (serving 1000 None [x0a; x0b; x0c; x0d] 0)) as [H1 H2].
  split.
  - apply H1. vm_compute. apply list_elem_of_here.
  - apply (H2 24). vm_compute. apply list_elem_of_here.
Defined.

Lemma PartialSector_returns_length_bytes_witness :
  match result scripted (PartialSector 64 (client host1) [x01] 0 4)
          (serving 1000 None [x0a; x0b; x0c; x0d] 0) with
  | Panicked => True
  | Returned (d', (data, Some e)) => data = []
  | Returned (d', (data, None)) =>
      Z.of_nat (List.length data) = 4 /\ data = view (sector d') /\ 4 <= 64
  end.
Proof.
  apply (PartialSector_returns_length_bytes 64 scripted (client host1) [x01] 0 4
           (serving 1000 None [x0a; x0b; x0c; x0d] 0)).
  vm_compute. reflexivity.
Defined.

(** A sector of 32 bytes, with the first byte standing for the Merkle
    root. *)
Lemma Sector_returns_a_verified_sector_witness :
  let root := fun s : list byte => take 1 s in
  let w := serving 1000 None (replicate 32 x0a) 0 in
  let whole := PartialSector 32 (client host1) [x0a] 0 32 in
  let p := Sector 32 root (client host1) [x0a] in
  transcript scripted p w = transcript scripted whole w /\
  final scripted p w = final scripted whole w /\
  match result scripted p w with
  | Panicked => result scripted whole w = Panicked
  | Returned (d', (Some s, None)) =>
      root s = [x0a] /\ Z.of_nat (List.length s) = 32 /\
      result scripted whole w = Returned (d', (s, None))
  | Returned (d', (None, Some e)) =>
      result scripted whole w = Returned (d', ([], Some e)) \/
      e = ErrNew "host sent invalid sector data" /\
      exists data, result scripted whole w = Returned (d', (data, None)) /\
                   root data <> [x0a]
  | Returned (d', (Some _, Some _)) => False
  | Returned (d', (None, None)) => False
  end.
Proof.
  cbv zeta.
  apply (Sector_returns_a_verified_sector 32 scripted (fun s => take 1 s)
           (client host1) [x0a] (serving 1000 None (replicate 32 x0a) 0)).
  vm_compute. reflexivity.
Defined.

End DownloaderMore.

Module DownloaderHost.
Import Proto DownloaderFacts DownloaderMore.

(** ** Length prefixes *)

Lemma le_encode_length (n : nat) (z : Z) : length (le_encode n z) = n.
Proof. revert z. induction n as [|n IH]; intros z; simpl; [|rewrite IH]; reflexivity. Qed.

Lemma DecUint64_le_encode (n : nat) (z : Z) :
  DecUint64 (le_encode n z) = z mod 256 ^ Z.of_nat n.
Proof.
  revert z. induction n as [|n IH]; intros z.
  - simpl. rewrite Z.mod_1_r. reflexivity.
  - cbn [le_encode DecUint64]. rewrite IH.
    assert (Hb : 0 <= z mod 256 < 256) by (apply Z.mod_pos_bound; lia).
    destruct (Byte.of_N (Z.to_N (z mod 256))) as [b|] eqn:Hof.
    + apply Byte.to_of_N in Hof. cbn [default from_option id]. rewrite Hof.
      rewrite Z2N.id by lia.
      replace (256 ^ Z.of_nat (S n)) with (256 * 256 ^ Z.of_nat n)
        by (rewrite Nat2Z.inj_succ, Z.pow_succ_r; lia).
      rewrite Z.rem_mul_r by lia. reflexivity.
    + apply Byte.of_N_None_iff in Hof. lia.
Qed.

Lemma DecUint64_EncUint64 (z : Z) : DecUint64 (EncUint64 z) = u64 z.
Proof.
  unfold EncUint64. rewrite DecUint64_le_encode.
  change (256 ^ Z.of_nat 8) with (2 ^ 64). unfold u64. apply Z.mod_mod. lia.
Qed.

Lemma EncUint64_length (z : Z) : length (EncUint64 z) = 8%nat.
Proof. apply le_encode_length. Qed.

(** ** Reading a frame from the scripted host *)

Section Frames.

Variable SectorSize : Z.
Hypothesis SectorSize_min : 24 <= SectorSize.
Hypothesis SectorSize_max : SectorSize < 2 ^ 32.

Lemma exec_perform {W T} (h : handler nat unit W) (c : call nat unit T) (w : W) :
  exec h (perform c) w = ([Ev c (h T c w).1], (h T c w).2, (h T c w).1).
Proof. simpl. destruct (h T c w). reflexivity. Qed.

(** One call of a run against the scripted host. *)
Ltac srun :=
  first [rewrite exec_bind | rewrite exec_perform];
  cbn [scripted fst snd]; cbv beta iota.

Lemma scripted_ReadFull (c : nat) (n : Z) (bs rest : list byte) (w : Host) :
  wire w = bs ++ rest -> Z.of_nat (length bs) = n ->
  scripted _ (ReadFull c n) w
  = ((bs, None), mkScript (offer w) (ledger w) (verdict w) rest (hangups w)).
Proof.
  intros Hw Hn. cbn [scripted]. rewrite Hw.
  rewrite take_app_length', drop_app_length' by lia.
  destruct (Z.ltb_spec (Z.of_nat (length bs)) n); [lia | reflexivity].
Qed.

Lemma UnmarshalSia_frame (sb : sectorBuffer) (c : nat) (payload rest : list byte)
    (w : Host) :
  Z.of_nat (length payload) <= SectorSize ->
  wire w = frame payload ++ rest ->
  let n := Z.of_nat (length payload) in
  let hdr := EncUint64 (n + 16) ++ EncUint64 1 ++ EncUint64 n in
  exists tail,
    Z.of_nat (length (payload ++ tail)) = SectorSize /\
    exec scripted (UnmarshalSia SectorSize (ContractEditor := unit) sb c) w
    = ([Ev (ReadFull c 24) (hdr, None); Ev (ReadFull c n) (payload, None)],
       mkScript (offer w) (ledger w) (verdict w) rest (hangups w),
       Returned (mkBuf (payload ++ tail) n, None)).
Proof.
  intros Hlen Hwire. cbv zeta. unfold UnmarshalSia.
  set (sb0 := if Z.of_nat (length (arr sb)) =? SectorSize then sb
              else mkBuf (replicate (Z.to_nat SectorSize) x00) SectorSize).
  assert (Hcap : Z.of_nat (length (arr sb0)) = SectorSize).
  { subst sb0.
    destruct (Z.eqb_spec (Z.of_nat (length (arr sb))) SectorSize) as [E|E];
      [exact E|]. simpl. rewrite length_replicate. lia. }
  clearbody sb0.
  destruct (Z.gtb_spec 24 (Z.of_nat (length (arr sb0)))) as [H24|_]; [lia|].
  set (n := Z.of_nat (length payload)) in *.
  set (A := EncUint64 (n + 16)). set (B := EncUint64 1). set (C := EncUint64 n).
  assert (HA : length A = 8%nat) by apply EncUint64_length.
  assert (HB : length B = 8%nat) by apply EncUint64_length.
  assert (HC : length C = 8%nat) by apply EncUint64_length.
  assert (Hhdr : length (A ++ B ++ C) = 24%nat)
    by (rewrite !length_app, HA, HB, HC; reflexivity).
  assert (Hw : wire w = (A ++ B ++ C) ++ payload ++ rest).
  { rewrite Hwire. unfold frame. fold n A B C.
    rewrite <- !app_assoc. reflexivity. }
  exists (drop (length payload) ((A ++ B ++ C) ++ drop 24 (arr sb0))).
  split.
  { rewrite length_app, length_drop, length_app, length_drop, Hhdr. lia. }
  rewrite exec_bind, exec_perform.
  rewrite (scripted_ReadFull c 24 (A ++ B ++ C) (payload ++ rest) w Hw)
    by (rewrite Hhdr; reflexivity).
  cbv beta iota. cbn [fst snd].
  rewrite (take_ge (A ++ B ++ C)) by lia.
  assert (Hbuf : overwrite (arr sb0) (A ++ B ++ C)
                 = (A ++ B ++ C) ++ drop 24 (arr sb0))
    by (unfold overwrite; rewrite Hhdr; reflexivity).
  rewrite !Hbuf. set (tl := drop 24 (arr sb0)).
  replace (take 8 ((A ++ B ++ C) ++ tl)) with A
    by (rewrite <- !app_assoc, take_app_length'; auto).
  replace (take 8 (drop 8 ((A ++ B ++ C) ++ tl))) with B
    by (rewrite <- !app_assoc, drop_app_length', take_app_length'; auto).
  replace (take 8 (drop 16 ((A ++ B ++ C) ++ tl))) with C.
  2:{ change 16%nat with (8 + 8)%nat. rewrite <- drop_drop.
      rewrite <- !app_assoc, !drop_app_length', take_app_length'; auto. }
  subst A B C. rewrite !DecUint64_EncUint64.
  assert (Hn : u64 n = n) by (unfold u64; apply Z.mod_small; lia).
  assert (H16 : u64 (n + 16) <= n + 16)
    by (unfold u64; apply Z.mod_le; lia).
  rewrite Hn. change (u64 1) with 1.
  destruct (Z.gtb_spec (u64 (n + 16)) (SectorSize + 16)) as [Hbad|_]; [lia|].
  cbn [Z.eqb Pos.eqb negb].
  destruct (Z.gtb_spec n SectorSize) as [Hbad|_]; [lia|].
  rewrite exec_bind, exec_perform.
  rewrite (scripted_ReadFull c n payload rest
             (mkScript (offer w) (ledger w) (verdict w) (payload ++ rest) (hangups w))
             eq_refl) by reflexivity.
  cbv beta iota. cbn [fst snd exec app offer ledger verdict hangups].
  unfold overwrite. subst n. rewrite Nat2Z.id, take_ge by lia. reflexivity.
Qed.

(** X22.  UnmarshalSia against a connection that holds the frame of a
    payload no longer than a sector, followed by anything: it asks for
    the 24 bytes of the prefixes and for the bytes of the payload,
    returns no error, leaves a buffer with the capacity of a sector that
    shows exactly the payload, and leaves on the connection what follows
    the frame, whatever the buffer held before. *)
Theorem UnmarshalSia_reads_a_frame (sb : sectorBuffer) (c : nat)
    (payload rest : list byte) (w : Host) :
  Z.of_nat (length payload) <= SectorSize ->
  wire w = frame payload ++ rest ->
  let p := UnmarshalSia SectorSize (ContractEditor := unit) sb c in
  exists sb',
    result scripted p w = Returned (sb', None) /\
    view sb' = payload /\
    Z.of_nat (length (arr sb')) = SectorSize /\
    wire (final scripted p w) = rest /\
    reads (transcript scripted p w) = [24; Z.of_nat (length payload)].
Proof.
  intros Hlen Hwire. cbv zeta.
  destruct (UnmarshalSia_frame sb c payload rest w Hlen Hwire) as (tail & Hcap & Hex).
  cbv zeta in Hex. unfold result, final, transcript. rewrite Hex.
  eexists. split; [reflexivity|]. cbn [fst snd wire].
  split; [|split; [exact Hcap|split; reflexivity]].
  unfold view. cbn [arr len]. rewrite Nat2Z.id, take_app_length. reflexivity.
Qed.

(** ** An exchange with the scripted host *)

(** With funds for a sector, a request in range and a host that agrees
    to the revision, an exchange comes to the settlement. *)
Lemma partialSector_scripted (d : Downloader nat unit) (root : Hash)
    (offset length : Z) (w : Host) :
  hangups w = 0%nat -> agreed (verdict w) ->
  u32 (offset + length) <= SectorSize ->
  DownloadBandwidthPrice (offer w) * SectorSize <= RenterFunds (ledger w) ->
  let rev := newDownloadRevision (CurrentRevision (ledger w))
               (DownloadBandwidthPrice (offer w) * SectorSize) in
  exec scripted (partialSector SectorSize d root offset length) w
  = let '(tr, w', o) :=
      exec scripted (partialSector_update SectorSize (set_host d (offer w))
                       (mkTxn [rev] [[]]) length) w in
    (Ev (extendDeadline (conn d) NegotiateDownloadTime) tt
     :: Ev (startRevision (conn d) (host d)) (offer w, None)
     :: Ev (GetTransaction (contract d)) (ledger w)
     :: Ev (WriteObject (conn d)
              [ {| MerkleRoot := root; Offset := offset; Length := length |} ]) None
     :: Ev (negotiateRevision (conn d) rev (RenterKey (ledger w)))
          (mkTxn [rev] [[]], verdict w)
     :: tr ++ [Ev (extendDeadline (conn d) Hour) tt],
     w', o).
Proof.
  intros Hh Hv Hr Hf. cbv zeta. unfold partialSector, partialSector_body.
  destruct (Z.gtb_spec (u32 (offset + length)) SectorSize) as [Hbad|_]; [lia|].
  repeat srun. rewrite Hh. cbv beta iota. cbn [fst snd host set_host].
  repeat srun.
  destruct (Z.ltb_spec (RenterFunds (ledger w))
              (DownloadBandwidthPrice (offer w) * SectorSize)) as [Hbad|_]; [lia|].
  repeat srun. cbn [conn contract set_host].
  set (upd := exec scripted (partialSector_update SectorSize _ _ length) w).
  assert (Hsame : forall e', verdict w = Some e' -> e' = ErrStopResponse).
  { intros e' He. destruct Hv as [Hv|Hv]; rewrite Hv in He; congruence. }
  destruct (verdict w) as [e|] eqn:Hver.
  - rewrite (Hsame e eq_refl). fold upd. destruct upd as [[tr w'] o].
    cbn [exec app]. reflexivity.
  - fold upd. destruct upd as [[tr w'] o]. cbn [exec app]. reflexivity.
Qed.

Lemma partialSector_update_served (d : Downloader nat unit)
    (rev : FileContractRevision) (payload rest : list byte) (w : Host) :
  Z.of_nat (length payload) <= SectorSize ->
  wire w = frame payload ++ rest ->
  let n := Z.of_nat (length payload) in
  exists tail hdr,
    exec scripted (partialSector_update SectorSize d (mkTxn [rev] [[]]) n) w
    = ([Ev (SyncWithHost (contract d) rev [[]]) None;
        Ev (ReadFull (conn d) 24) (hdr, None);
        Ev (ReadFull (conn d) n) (payload, None)],
       mkScript (offer w) (mkCTxn rev (RenterKey (ledger w))) (verdict w) rest
         (hangups w),
       Returned (set_sector d (mkBuf (payload ++ tail) n), (payload, None))).
Proof.
  intros Hlen Hwire. cbv zeta. unfold partialSector_update.
  cbn [FileContractRevisions TransactionSignatures].
  repeat srun.
  set (w1 := mkScript (offer w) (mkCTxn rev (RenterKey (ledger w))) (verdict w)
               (wire w) (hangups w)).
  destruct (UnmarshalSia_frame (sector d) (conn d) payload rest w1 Hlen Hwire)
    as (tail & Hcap & Hex).
  cbv zeta in Hex. exists tail. eexists.
  rewrite Hex. cbv beta iota. cbn [sector set_sector len].
  assert (Hu : u32 (Z.of_nat (length payload)) = Z.of_nat (length payload))
    by (unfold u32; apply Z.mod_small; lia).
  rewrite Hu, Z.eqb_refl. cbn [negb exec app offer ledger verdict hangups w1].
  unfold view. cbn [arr len]. rewrite Nat2Z.id, take_app_length. reflexivity.
Qed.

Lemma partialSector_update_unserved (d : Downloader nat unit)
    (rev : FileContractRevision) (length : Z) (w : Host) :
  (List.length (wire w) < 24)%nat ->
  exists sb',
    exec scripted (partialSector_update SectorSize d (mkTxn [rev] [[]]) length) w
    = ([Ev (SyncWithHost (contract d) rev [[]]) None;
        Ev (ReadFull (conn d) 24) (wire w, Some ErrDisconnect);
        Ev (Close (conn d)) tt],
       mkScript (offer w) (mkCTxn rev (RenterKey (ledger w))) (verdict w) []
         (hangups w),
       Returned (set_sector d sb', ([], Some ErrDisconnect))).
Proof.
  intros Hshort. unfold partialSector_update.
  cbn [FileContractRevisions TransactionSignatures].
  repeat srun. unfold UnmarshalSia.
  set (sb0 := if Z.of_nat (List.length (arr (sector d))) =? SectorSize then sector d
              else mkBuf (replicate (Z.to_nat SectorSize) x00) SectorSize).
  assert (Hcap : Z.of_nat (List.length (arr sb0)) = SectorSize).
  { subst sb0.
    destruct (Z.eqb_spec (Z.of_nat (List.length (arr (sector d)))) SectorSize)
      as [E|E]; [exact E|]. simpl. rewrite length_replicate. lia. }
  clearbody sb0.
  destruct (Z.gtb_spec 24 (Z.of_nat (List.length (arr sb0)))) as [H24|_]; [lia|].
  repeat srun. cbn [wire]. change (Z.to_nat 24) with 24%nat.
  rewrite (take_ge (wire w)), (drop_ge (wire w)) by lia.
  destruct (Z.ltb_spec (Z.of_nat (List.length (wire w))) 24) as [_|Hbad]; [|lia].
  cbv beta iota. repeat srun. cbn [exec app conn set_sector].
  eexists. reflexivity.
Qed.

(** X23.  Against a host that keeps the connection, agrees to the
    revision and sends the frame of the requested bytes, and with funds
    for a sector: PartialSector returns exactly the payload with no
    error, in one exchange; the one revision it proposes and records
    moves the price of one sector to the host, and becomes the current
    revision of the contract; and it leaves on the connection what
    follows the frame. *)
Theorem PartialSector_from_an_honest_host (d : Downloader nat unit) (root : Hash)
    (offset : Z) (payload rest : list byte) (w : Host) :
  hangups w = 0%nat ->
  verdict w = None \/ verdict w = Some ErrStopResponse ->
  Z.of_nat (length payload) <= SectorSize ->
  u32 (offset + Z.of_nat (length payload)) <= SectorSize ->
  DownloadBandwidthPrice (offer w) * SectorSize <= RenterFunds (ledger w) ->
  wire w = frame payload ++ rest ->
  let p := PartialSector SectorSize d root offset (Z.of_nat (length payload)) in
  let rev := newDownloadRevision (CurrentRevision (ledger w))
               (DownloadBandwidthPrice (offer w) * SectorSize) in
  returns (result scripted p w) = Some (payload, None) /\
  exchanges (transcript scripted p w) = [conn d] /\
  proposals (transcript scripted p w) = [rev] /\
  records (transcript scripted p w) = [rev] /\
  CurrentRevision (ledger (final scripted p w)) = rev /\
  wire (final scripted p w) = rest.
Proof.
  intros Hh Hv Hlen Hr Hf Hwire. cbv zeta.
  unfold result, transcript, final, PartialSector.
  rewrite exec_bind, (partialSector_scripted d root offset _ w Hh Hv Hr Hf).
  cbv zeta.
  destruct (partialSector_update_served (set_host d (offer w))
              (newDownloadRevision (CurrentRevision (ledger w))
                 (DownloadBandwidthPrice (offer w) * SectorSize))
              payload rest w Hlen Hwire) as (tail & hdr & Hex).
  cbv zeta in Hex. rewrite Hex. cbv beta iota.
  cbn [isHostDisconnect exec fst snd app].
  repeat (match goal with |- _ /\ _ => split end); reflexivity.
Qed.

(** X24.  Against a host that agrees to the revision and then sends
    nothing, with funds for two sectors: the first exchange records the
    revision, fails to read and closes the connection; PartialSector
    takes the failure for a disconnect, dials again and runs a second
    exchange, which records a second revision and fails in the same way.
    The call returns the disconnect error and no data, and the contract
    has moved the price of two sectors to the host. *)
Theorem PartialSector_pays_twice_for_nothing (d : Downloader nat unit)
    (root : Hash) (offset length : Z) (w : Host) :
  hangups w = 0%nat ->
  verdict w = None \/ verdict w = Some ErrStopResponse ->
  (List.length (wire w) < 24)%nat ->
  u32 (offset + length) <= SectorSize ->
  0 <= DownloadBandwidthPrice (offer w) ->
  2 * (DownloadBandwidthPrice (offer w) * SectorSize) <= RenterFunds (ledger w) ->
  let p := PartialSector SectorSize d root offset length in
  let price := DownloadBandwidthPrice (offer w) * SectorSize in
  let rev1 := newDownloadRevision (CurrentRevision (ledger w)) price in
  let rev2 := newDownloadRevision rev1 price in
  returns (result scripted p w) = Some ([], Some ErrDisconnect) /\
  exchanges (transcript scripted p w) = [conn d; 1%nat] /\
  records (transcript scripted p w) = [rev1; rev2] /\
  CurrentRevision (ledger (final scripted p w)) = rev2 /\
  HostOutput rev2 = HostOutput (CurrentRevision (ledger w)) + 2 * price /\
  RenterOutput rev2 = RenterOutput (CurrentRevision (ledger w)) - 2 * price.
Proof.
  intros Hh Hv Hshort Hr Hp Hf. cbv zeta.
  set (rev1 := newDownloadRevision (CurrentRevision (ledger w))
                 (DownloadBandwidthPrice (offer w) * SectorSize)).
  destruct (partialSector_update_unserved (set_host d (offer w)) rev1 length w Hshort)
    as (sb1 & Hex1).
  set (w1 := mkScript (offer w) (mkCTxn rev1 (RenterKey (ledger w))) (verdict w) []
               (hangups w)) in *.
  set (d1 := set_conn (set_sector (set_host d (offer w)) sb1) 1%nat).
  set (rev2 := newDownloadRevision (CurrentRevision (ledger w1))
                 (DownloadBandwidthPrice (offer w1) * SectorSize)).
  destruct (partialSector_update_unserved (set_host d1 (offer w1)) rev2 length w1)
    as (sb2 & Hex2); [cbn; lia|].
  unfold result, transcript, final.
  set (run := exec scripted (PartialSector SectorSize d root offset length) w).
  eassert (Hrun : run = _).
  { subst run. unfold PartialSector.
    rewrite exec_bind, (partialSector_scripted d root offset _ w Hh Hv Hr)
      by lia.
    cbv zeta. fold rev1. rewrite Hex1. cbv beta iota.
    cbn [isHostDisconnect Cause].
    repeat srun. fold w1 d1.
    assert (Hf1 : DownloadBandwidthPrice (offer w1) * SectorSize
                  <= RenterFunds (ledger w1))
      by (cbn [w1 offer ledger RenterFunds CurrentRevision rev1 newDownloadRevision
               RenterOutput]; unfold RenterFunds in Hf; lia).
    pose proof (partialSector_scripted d1 root offset length w1 Hh Hv Hr Hf1) as Hex.
    unfold reply in *. rewrite Hex.
    cbv zeta. fold rev2. rewrite Hex2. cbv beta iota.
    reflexivity. }
  rewrite Hrun. cbn [fst snd].
  repeat (match goal with |- _ /\ _ => split end);
    try reflexivity; cbn; lia.
Qed.

End Frames.

(** ** Sectors of 64 bytes *)

Lemma UnmarshalSia_reads_a_frame_witness :
  let w := serving 1000 None [x0a; x0b; x0c; x0d] 0 in
  let p := UnmarshalSia 64 (ContractEditor := unit) (mkBuf [] 0) 0%nat in
  exists sb',
    result scripted p w = Returned (sb', None) /\
    view sb' = [x0a; x0b; x0c; x0d] /\
    Z.of_nat (length (arr sb')) = 64 /\
    wire (final scripted p w) = [] /\
    reads (transcript scripted p w) = [24; Z.of_nat (length [x0a; x0b; x0c; x0d])].
Proof.
  cbv zeta.
  apply (UnmarshalSia_reads_a_frame 64); [lia | lia | simpl; lia | reflexivity].
Defined.

Lemma PartialSector_from_an_honest_host_witness :
  let w := serving 1000 None [x0a; x0b; x0c; x0d] 0 in
  let p := PartialSector 64 (client host1) [x01] 0
             (Z.of_nat (length [x0a; x0b; x0c; x0d])) in
  let rev := newDownloadRevision (CurrentRevision (ledger w))
               (DownloadBandwidthPrice (offer w) * 64) in
  returns (result scripted p w) = Some ([x0a; x0b; x0c; x0d], None) /\
  exchanges (transcript scripted p w) = [conn (client host1)] /\
  proposals (transcript scripted p w) = [rev] /\
  records (transcript scripted p w) = [rev] /\
  CurrentRevision (ledger (final scripted p w)) = rev /\
  wire (final scripted p w) = [].
Proof.
  cbv zeta.
  apply (PartialSector_from_an_honest_host 64);
    [lia | lia | reflexivity | left; reflexivity | simpl; lia
    | vm_compute; discriminate | vm_compute; discriminate | reflexivity].
Defined.

Lemma PartialSector_pays_twice_for_nothing_witness :
  let w := mkScript host1 (contract7 1000) None [] 0 in
  let p := PartialSector 64 (client host1) [x01] 0 4 in
  let price := DownloadBandwidthPrice (offer w) * 64 in
  let rev1 := newDownloadRevision (CurrentRevision (ledger w)) price in
  let rev2 := newDownloadRevision rev1 price in
  returns (result scripted p w) = Some ([], Some ErrDisconnect) /\
  exchanges (transcript scripted p w) = [conn (client host1); 1%nat] /\
  records (transcript scripted p w) = [rev1; rev2] /\
  CurrentRevision (ledger (final scripted p w)) = rev2 /\
  HostOutput rev2 = HostOutput (CurrentRevision (ledger w)) + 2 * price /\
  RenterOutput rev2 = RenterOutput (CurrentRevision (ledger w)) - 2 * price.
Proof.
  cbv zeta.
  apply (PartialSector_pays_twice_for_nothing 64);
    [lia | reflexivity | left; reflexivity | simpl; lia
    | vm_compute; discriminate | vm_compute; discriminate
    | vm_compute; discriminate].
Defined.

(** A session as [NewDownloader] opens it against the scripted host, and
    its first download. *)
Example new_session_run :
  let w := serving 1000 None [x0a; x0b; x0c; x0d] 0 in
  let d := mkDownloader host1 tt (mkBuf [] 0) 1%nat in
  result scripted (NewDownloader host1 tt) w = (Some d, None) /\
  returns (result scripted (PartialSector 64 d [x01] 0 4) w)
  = Some ([x0a; x0b; x0c; x0d], None).
Proof. cbv zeta. split; vm_compute; reflexivity. Qed.

End DownloaderHost.
